(** * Departure boards, script dates and the houses of a loaded game

    Shallow embeddings of [src/departures.cpp], of
    [src/script/api/script_date.cpp] and of the house and town code of
    [src/saveload/town_sl.cpp].  Every function of the source is a Rocq
    function of the same name (or the name of the loop it models).

    In the departure boards, pointers to orders are pairs of the order's
    index in the vehicle's order list and the order itself, so that pointer
    equality is equality of indices.

    Dates and tick counts are [DateTicks]/[Ticks] ([int32]) in the source.
    Signed overflow has no defined result in C++, so the arithmetic below is
    the arithmetic of [Z]: it describes the runs of the source on which no
    intermediate value leaves the [int32] range. *)

From Stdlib Require Import ZArith List Bool Arith Lia Sorted.
Import ListNotations.
Local Open Scope Z_scope.

(** ** Results of a run

    The source dereferences order pointers without a check in several
    places.  A run that dereferences [NULL] (or divides by zero) has no
    defined result; the model records it as [Undefined]. *)

Inductive exec (A : Type) : Type :=
| Done (a : A)
| Undefined.
Arguments Done {A} a.
Arguments Undefined {A}.

Definition bind {A B : Type} (m : exec A) (k : A -> exec B) : exec B :=
  match m with
  | Done a => k a
  | Undefined => Undefined
  end.

Notation "x <- m ;; k" := (bind m (fun x => k))
  (at level 61, m at next level, right associativity).

(** * Dates of the script API ([script/api/script_date.cpp])

    [ConvertDateToYMD] and [ConvertYMDToDate] are the calendar of
    [date_func.h]; [DATE_INVALID] and [MAX_YEAR] are constants of the
    headers.  None of them is among the sources: the functions take them
    from a [Calendar]. *)

Record YearMonthDay : Type := mkYearMonthDay {
  ymd_year : Z;
  ymd_month : Z;   (* 0 is January *)
  ymd_day : Z
}.

Class Calendar : Type := {
  ConvertDateToYMD : Z -> YearMonthDay;
  ConvertYMDToDate : Z -> Z -> Z -> Z;
  DATE_INVALID : Z;
  MAX_YEAR : Z
}.

Section ScriptDate.

Context {calendar : Calendar}.

Definition IsValidDate (date : Z) : bool := date >=? 0.

Definition GetYear (date : Z) : Z :=
  if date <? 0 then DATE_INVALID
  else ymd_year (ConvertDateToYMD date).

Definition GetMonth (date : Z) : Z :=
  if date <? 0 then DATE_INVALID
  else ymd_month (ConvertDateToYMD date) + 1.

Definition GetDayOfMonth (date : Z) : Z :=
  if date <? 0 then DATE_INVALID
  else ymd_day (ConvertDateToYMD date).

Definition GetDate (year month day_of_month : Z) : Z :=
  if (month <? 1) || (month >? 12) then DATE_INVALID
  else if (day_of_month <? 1) || (day_of_month >? 31) then DATE_INVALID
  else if (year <? 0) || (year >? MAX_YEAR) then DATE_INVALID
  else ConvertYMDToDate year (month - 1) day_of_month.

End ScriptDate.

(** A calendar to run the functions on: every year has twelve months of 31
    days.  It is not the calendar of the game. *)
Definition plain_calendar : Calendar := {|
  ConvertDateToYMD date :=
    mkYearMonthDay (date / 372) ((date / 31) mod 12) (date mod 31 + 1);
  ConvertYMDToDate year month day := (year * 12 + month) * 31 + (day - 1);
  DATE_INVALID := -1;
  MAX_YEAR := 5000000
|}.

(** * Houses and towns of a loaded game ([saveload/town_sl.cpp])

    Of a map tile the file reads and writes the bytes [m3] and [m4]
    itself; everything else goes through functions of the map, the house
    specifications and the town pool, which are not among the sources: the
    functions take them from a [HouseMap], with [GB] and [SB] of the bit
    functions. *)

(** A tile; [TileRest] stands for its fields other than [m3] and [m4]. *)
Record Tile (TileRest : Type) : Type := mkTile {
  m3 : Z;
  m4 : Z;
  tile_rest : TileRest
}.
Arguments mkTile {TileRest} m3 m4 tile_rest.
Arguments m3 {TileRest} t.
Arguments m4 {TileRest} t.
Arguments tile_rest {TileRest} t.

(** [_m], indexed by [TileIndex]. *)
Definition Map (TileRest : Type) : Type := nat -> Tile TileRest.

Definition set_tile {TileRest : Type} (m : Map TileRest) (t : nat)
    (x : Tile TileRest) : Map TileRest :=
  fun t' => if (t' =? t)%nat then x else m t'.

Class HouseMap (TileRest : Type) : Type := {
  (** [GB(x, s, n)], and the value [SB(x, s, n, d)] leaves in [x]. *)
  GB : Z -> Z -> Z -> Z;
  SB : Z -> Z -> Z -> Z -> Z;
  (** [SlXvIsFeatureMissing(XSLFI_MORE_HOUSES)]. *)
  more_houses_missing : bool;
  GetCleanHouseType : Map TileRest -> nat -> Z;
  SetHouseType : Map TileRest -> nat -> Z -> Map TileRest;
  (** [IsTileType(t, MP_HOUSE)] and [MapSize()]. *)
  IsHouseTile : Map TileRest -> nat -> bool;
  MapSize : nat;
  (** [HouseSpec::Get(id)->enabled], [NEW_HOUSE_OFFSET] and
      [_house_mngr.GetSubstituteID]. *)
  house_enabled : Z -> bool;
  NEW_HOUSE_OFFSET : Z;
  GetSubstituteID : Z -> Z;
  (** The towns of the pool ([Town::Iterate()]) by their index, and the
      index of the town of [Town::GetByTile]. *)
  towns : list nat;
  GetByTile : Map TileRest -> nat -> nat;
  GetTranslatedHouseID : Z -> Z;
  IsHouseCompleted : Map TileRest -> nat -> bool;
  (** [HouseSpec::Get(id)->population], and what [GetHouseNorthPart]
      returns. *)
  house_population : Z -> Z;
  GetHouseNorthPart : Z -> Z
}.

Section Towns.

Context {TileRest : Type} {world : HouseMap TileRest}.

Definition SLGetCleanHouseType (m : Map TileRest) (t : nat)
    (old_map_position : bool) : Z :=
  if old_map_position && more_houses_missing then
    Z.lor (m4 (m t)) (Z.shiftl (GB (m3 (m t)) 6 1) 8)
  else GetCleanHouseType m t.

(** Lines 131-136 of [UpdateHousesAndTowns]: the house type is written
    back.  [m4] is a byte, and keeps the low eight bits of what it is
    given. *)
Definition store_house_type (m : Map TileRest) (t : nat) (house_id : Z)
    (old_map_position : bool) : Map TileRest :=
  if old_map_position && more_houses_missing then
    set_tile m t
      (mkTile (SB (m3 (m t)) 6 1 (GB house_id 8 1))
              (GB house_id 0 8 mod 256)
              (tile_rest (m t)))
  else SetHouseType m t house_id.

(** Line 127: the specifications of the house are not available any
    more. *)
Definition unavailable (house_id : Z) : bool :=
  negb (house_enabled house_id) && (house_id >=? NEW_HOUSE_OFFSET).

(** The body of the loop of line 123, on the map and
    [cargo_update_required]. *)
Definition substitute_house (old_map_position : bool) (st : Map TileRest * bool)
    (t : nat) : Map TileRest * bool :=
  if negb (IsHouseTile (fst st) t) then st
  else
    let house_id := SLGetCleanHouseType (fst st) t old_map_position in
    if unavailable house_id then
      (store_house_type (fst st) t (GetSubstituteID house_id) old_map_position, true)
    else st.

(** Lines 123-139 of [UpdateHousesAndTowns]. *)
Definition substitute_houses (m : Map TileRest)
    (cargo_update_required old_map_position : bool) : Map TileRest * bool :=
  fold_left (substitute_house old_map_position) (seq 0 MapSize)
    (m, cargo_update_required).

(** ** The caches of the towns *)

(** [town->cache.population] and [town->cache.num_houses], both [uint32]. *)
Record TownCache : Type := mkTownCache {
  population : Z;
  num_houses : Z
}.

(** The caches of the towns, by the index of the town. *)
Definition Caches : Type := nat -> TownCache.

Definition set_cache (c : Caches) (town : nat) (x : TownCache) : Caches :=
  fun i => if (i =? town)%nat then x else c i.

Definition uint32 (x : Z) : Z := x mod 2 ^ 32.

Definition is_town (town : nat) : bool := existsb (Nat.eqb town) towns.

(** Lines 40-43. *)
Definition reset_caches (c : Caches) : Caches :=
  fun i => if is_town i then mkTownCache 0 0 else c i.

(** The body of the loop of line 45.  A house tile of a town that is not
    in the pool makes [town] a pointer to no town. *)
Definition count_house (m : Map TileRest) (old_map_position : bool) (c : Caches)
    (t : nat) : exec Caches :=
  if negb (IsHouseTile m t) then Done c
  else
    let house_id := GetTranslatedHouseID (SLGetCleanHouseType m t old_map_position) in
    let town := GetByTile m t in
    if negb (is_town town) then Undefined
    else
      let c1 :=
        if IsHouseCompleted m t then
          set_cache c town
            (mkTownCache (uint32 (population (c town) + house_population house_id))
                         (num_houses (c town)))
        else c in
      let c2 :=
        if GetHouseNorthPart house_id =? 0 then
          set_cache c1 town
            (mkTownCache (population (c1 town)) (uint32 (num_houses (c1 town) + 1)))
        else c1 in
      Done c2.

Fixpoint count_houses (m : Map TileRest) (old_map_position : bool)
    (tiles : list nat) (c : Caches) : exec Caches :=
  match tiles with
  | [] => Done c
  | t :: tiles' =>
      c' <- count_house m old_map_position c t ;;
      count_houses m old_map_position tiles' c'
  end.

(** [RebuildTownCaches], as far as the population and the number of houses
    go.  The building counts, the k-d tree of the towns and the radii of
    the towns, which [InitializeBuildingCounts], [RebuildTownKdtree],
    [IncreaseBuildingCount] and [UpdateTownRadius] keep, are left out;
    [cargo_update_required] is not used by the source. *)
Definition RebuildTownCaches (m : Map TileRest) (old_map_position : bool)
    (c : Caches) : exec Caches :=
  count_houses m old_map_position (seq 0 MapSize) (reset_caches c).

(** What the house tiles of [town] among [tiles] add up to: the
    inhabitants of the completed ones, and the number of north tiles. *)
Definition house_of (m : Map TileRest) (town : nat) (t : nat) : bool :=
  IsHouseTile m t && (GetByTile m t =? town)%nat.

Definition town_population (m : Map TileRest) (old_map_position : bool)
    (town : nat) (tiles : list nat) : Z :=
  fold_right Z.add 0
    (map (fun t => house_population
                     (GetTranslatedHouseID (SLGetCleanHouseType m t old_map_position)))
         (filter (fun t => house_of m town t && IsHouseCompleted m t) tiles)).

Definition town_houses (m : Map TileRest) (old_map_position : bool)
    (town : nat) (tiles : list nat) : Z :=
  Z.of_nat
    (length
       (filter (fun t => house_of m town t
                         && (GetHouseNorthPart
                               (GetTranslatedHouseID
                                  (SLGetCleanHouseType m t old_map_position)) =? 0))
               tiles)).

End Towns.

(** The bit functions as operations on the bits of [Z]. *)
Definition bits_GB (x s n : Z) : Z := Z.land (Z.shiftr x s) (Z.ones n).

Definition bits_SB (x s n d : Z) : Z :=
  Z.lor (Z.land x (Z.lnot (Z.shiftl (Z.ones n) s))) (Z.shiftl d s).

(** A map of four tiles to run the functions on, in the old layout.  Tile
    1 is house 5, completed; tiles 2 and 3 are the two tiles of a house
    that is being built, with the types 300 and 301.  The specifications
    of house 300 are not available, and house 7 stands in for it.  All
    houses belong to town 0.  What is left of a tile says whether it is a
    house, and whether the house is completed. *)
Definition four_tiles : Map (bool * bool) :=
  fun t =>
    match t with
    | 1%nat => mkTile 0 5 (true, true)
    | 2%nat => mkTile 64 44 (true, false)
    | 3%nat => mkTile 64 45 (true, false)
    | _ => mkTile 0 0 (false, false)
    end.

Definition small_world : HouseMap (bool * bool) := {|
  GB := bits_GB;
  SB := bits_SB;
  more_houses_missing := true;
  GetCleanHouseType m t := m4 (m t);
  SetHouseType m t house_id := m;
  IsHouseTile m t := fst (tile_rest (m t));
  MapSize := 4;
  house_enabled id := negb (id =? 300);
  NEW_HOUSE_OFFSET := 110;
  GetSubstituteID id := 7;
  towns := [0%nat];
  GetByTile m t := 0%nat;
  GetTranslatedHouseID id := id;
  IsHouseCompleted m t := snd (tile_rest (m t));
  house_population id := 10;
  GetHouseNorthPart id := if id =? 301 then -1 else 0
|}.

(** * Departure boards ([departures.cpp]) *)

(** ** Orders, vehicles, settings *)

(** Modelled from the spec: the order kinds of [order_type.h] (the header is
    not part of the sources at hand); section 3 of the specification lists
    go-to-station, go-to-waypoint, go-to-depot, conditional, implicit and
    loading. *)
Inductive OrderType : Type :=
| OT_NOTHING | OT_GOTO_STATION | OT_GOTO_DEPOT | OT_LOADING | OT_LEAVESTATION
| OT_DUMMY | OT_GOTO_WAYPOINT | OT_CONDITIONAL | OT_IMPLICIT.

(** Modelled from the spec: load, unload and non-stop directives. *)
Inductive OrderLoadFlags : Type :=
| OLF_LOAD_IF_POSSIBLE | OLFB_FULL_LOAD | OLF_FULL_LOAD_ANY | OLFB_NO_LOAD.

Inductive OrderUnloadFlags : Type :=
| OUF_UNLOAD_IF_POSSIBLE | OUFB_UNLOAD | OUFB_TRANSFER | OUFB_NO_UNLOAD.

Inductive OrderNonStopFlags : Type :=
| ONSF_STOP_EVERYWHERE
| ONSF_NO_STOP_AT_INTERMEDIATE_STATIONS
| ONSF_NO_STOP_AT_DESTINATION_STATION
| ONSF_NO_STOP_AT_ANY_STATION.

Definition StationID : Type := Z.
Definition INVALID_STATION : StationID := 65535.
Definition DAY_TICKS : Z := 74.
Definition INT32_MAX : Z := 2147483647.

Inductive DepartureStatus : Type := D_TRAVELLING | D_ARRIVED | D_CANCELLED.
Inductive DepartureType : Type := D_DEPARTURE | D_ARRIVAL.

Definition OrderType_eqb (a b : OrderType) : bool :=
  match a, b with
  | OT_NOTHING, OT_NOTHING | OT_GOTO_STATION, OT_GOTO_STATION
  | OT_GOTO_DEPOT, OT_GOTO_DEPOT | OT_LOADING, OT_LOADING
  | OT_LEAVESTATION, OT_LEAVESTATION | OT_DUMMY, OT_DUMMY
  | OT_GOTO_WAYPOINT, OT_GOTO_WAYPOINT | OT_CONDITIONAL, OT_CONDITIONAL
  | OT_IMPLICIT, OT_IMPLICIT => true
  | _, _ => false
  end.

Definition DepartureStatus_eqb (a b : DepartureStatus) : bool :=
  match a, b with
  | D_TRAVELLING, D_TRAVELLING | D_ARRIVED, D_ARRIVED
  | D_CANCELLED, D_CANCELLED => true
  | _, _ => false
  end.

Definition DepartureType_eqb (a b : DepartureType) : bool :=
  match a, b with
  | D_DEPARTURE, D_DEPARTURE | D_ARRIVAL, D_ARRIVAL => true
  | _, _ => false
  end.

(** An order.  Wait and travel times are [uint16] in the source, hence
    never negative: they are kept in [N] and read through [GetWaitTime] and
    [GetTravelTime]. *)
Record Order : Type := mkOrder {
  o_type : OrderType;
  o_dest : Z;                       (* GetDestination() *)
  o_load : OrderLoadFlags;          (* GetLoadType() *)
  o_unload : OrderUnloadFlags;      (* GetUnloadType() *)
  o_non_stop : OrderNonStopFlags;   (* GetNonStopType() *)
  o_depot_halt : bool;              (* GetDepotActionType() & ODATFB_HALT *)
  o_wait : N;
  o_travel : N;
  o_travel_timetabled : bool;       (* IsTravelTimetabled() *)
  o_skip_to : nat                   (* GetConditionSkipToOrder() *)
}.

Definition GetWaitTime (o : Order) : Z := Z.of_N (o_wait o).
Definition GetTravelTime (o : Order) : Z := Z.of_N (o_travel o).
Definition IsType (o : Order) (t : OrderType) : bool := OrderType_eqb (o_type o) t.

(** Whether the order tells the vehicle not to stop at its destination. *)
Definition no_stop_here (o : Order) : bool :=
  match o_non_stop o with
  | ONSF_NO_STOP_AT_ANY_STATION | ONSF_NO_STOP_AT_DESTINATION_STATION => true
  | _ => false
  end.

Definition is_no_load (o : Order) : bool :=
  match o_load o with OLFB_NO_LOAD => true | _ => false end.
Definition is_no_unload (o : Order) : bool :=
  match o_unload o with OUFB_NO_UNLOAD => true | _ => false end.
Definition is_unload_all (o : Order) : bool :=
  match o_unload o with OUFB_UNLOAD => true | _ => false end.

(** One part of a vehicle chain: its capacity and whether its cargo is in
    the passenger class ([IsCargoInClass(cargo_type, CC_PASSENGERS)]). *)
Record VehiclePart : Type := mkPart {
  cargo_cap : N;
  cargo_is_passengers : bool
}.

(** A vehicle, as far as the departure board reads it.  [chain] is the
    vehicle followed by the parts reached through [Next()]. *)
Record Vehicle : Type := mkVehicle {
  orders : list Order;
  cur_implicit_order_index : nat;
  current_order : Order;
  current_order_time : Z;
  lateness_counter : Z;
  stopped_in_depot : bool;          (* IsStoppedInDepot() *)
  chain : list VehiclePart
}.

(** [_settings_client.gui]. *)
Record Settings : Type := mkSettings {
  max_departure_time : Z;
  max_departures : nat;
  departure_conditionals : nat;
  departure_show_all_stops : bool;
  departure_merge_identical : bool;
  departure_smart_terminus : bool
}.

(** A pointer to an order of a vehicle: index and pointee. *)
Definition OrderRef : Type := (nat * Order)%type.

Definition GetNumOrders (v : Vehicle) : nat := length (orders v).

(** [v->GetOrder(index)]: [NULL] when the index is out of range. *)
Definition GetOrder (v : Vehicle) (index : nat) : option OrderRef :=
  match nth_error (orders v) index with
  | Some o => Some (index, o)
  | None => None
  end.

(** [(order->next == NULL) ? v->GetFirstOrder() : order->next]. *)
Definition NextOrder (v : Vehicle) (order : OrderRef) : OrderRef :=
  match nth_error (orders v) (S (fst order)) with
  | Some o => (S (fst order), o)
  | None =>
      match orders v with
      | o :: _ => (O, o)
      | [] => order
      end
  end.

(** A scheduled order. *)
Record OrderDate : Type := mkOrderDate {
  od_order : OrderRef;
  od_v : Vehicle;
  expected_date : Z;
  od_lateness : Z;
  od_status : DepartureStatus
}.

(** ** Calling points and departures *)

(** Modelled from the spec: [CallAt] of [departures_type.h] is a pair of a
    station and a scheduled date; the one-argument constructor leaves the
    date at the unknown value zero, and equality is by station only. *)
Record CallAt : Type := mkCallAt {
  ca_station : StationID;
  ca_scheduled_date : Z
}.

Definition CallAt1 (s : StationID) : CallAt := mkCallAt s 0.
Definition CallAt_eqb (a b : CallAt) : bool := ca_station a =? ca_station b.

(** Modelled from the spec: a [Departure] of [departures_type.h]; a new one
    has no via station, no terminus and calls nowhere. *)
Record Departure : Type := mkDeparture {
  scheduled_date : Z;
  lateness : Z;
  terminus : CallAt;
  via : StationID;
  calling_at : list CallAt;
  status : DepartureStatus;
  d_type : DepartureType;
  vehicle : Vehicle;
  d_order : OrderRef
}.

Definition set_terminus (d : Departure) (t : CallAt) : Departure :=
  mkDeparture (scheduled_date d) (lateness d) t (via d) (calling_at d)
              (status d) (d_type d) (vehicle d) (d_order d).

Definition set_lateness (d : Departure) (l : Z) : Departure :=
  mkDeparture (scheduled_date d) l (terminus d) (via d) (calling_at d)
              (status d) (d_type d) (vehicle d) (d_order d).

Fixpoint CallAt_list_eqb (a b : list CallAt) : bool :=
  match a, b with
  | [], [] => true
  | x :: a', y :: b' => CallAt_eqb x y && CallAt_list_eqb a' b'
  | _, _ => false
  end.

(** Modelled from the spec: [Departure::operator==] of [departures_type.h]
    (section 4.5): same type, same terminus, same via, same calling-at
    sequence, same status. *)
Definition Departure_eqb (a b : Departure) : bool :=
  DepartureType_eqb (d_type a) (d_type b)
  && CallAt_eqb (terminus a) (terminus b)
  && (via a =? via b)
  && CallAt_list_eqb (calling_at a) (calling_at b)
  && DepartureStatus_eqb (status a) (status b).

(** [calling_at.Contains(c)]. *)
Definition Contains (l : list CallAt) (c : CallAt) : bool :=
  existsb (fun x => CallAt_eqb x c) l.

(** ** Loops *)

(** How one pass through a loop body ends. *)
Inductive loop_step (S : Type) : Type :=
| Break (found : bool) (s : S)
| Continue (order : OrderRef) (s : S).
Arguments Break {S} found s.
Arguments Continue {S} order s.

(** The variables of a loop once a pass through its body has ended. *)
Definition step_state {S : Type} (r : loop_step S) : S :=
  match r with
  | Break _ s => s
  | Continue _ s => s
  end.

(** ** The order predicates *)

Section Board.

Variable cfg : Settings.
Variable cur_date : Z.        (* _date *)
Variable cur_date_fract : Z.  (* _date_fract *)
(** [CallAt::operator>=], declared in [departures_type.h]. *)
Variable CallAt_ge : CallAt -> CallAt -> bool.

Variable station : StationID.
Variable type : DepartureType.
Variable show_vehicles_via : bool.

Definition IsDeparture (order : Order) : bool :=
  IsType order OT_GOTO_STATION
  && (o_dest order =? station)
  && (negb (is_no_load order) || departure_show_all_stops cfg)
  && negb (GetWaitTime order =? 0).

Definition IsVia (order : Order) : bool :=
  (IsType order OT_GOTO_STATION || IsType order OT_GOTO_WAYPOINT)
  && (o_dest order =? station)
  && no_stop_here order.

Definition IsArrival (order : Order) : bool :=
  IsType order OT_GOTO_STATION
  && (o_dest order =? station)
  && (negb (is_no_unload order) || departure_show_all_stops cfg)
  && negb (GetWaitTime order =? 0).

(** The test of lines 219-221 and 603-605. *)
Definition suitable (order : Order) : bool :=
  (DepartureType_eqb type D_DEPARTURE && IsDeparture order)
  || (DepartureType_eqb type D_DEPARTURE && show_vehicles_via && IsVia order)
  || (DepartureType_eqb type D_ARRIVAL && IsArrival order).

(** The maximum possible date for departures to be scheduled to occur. *)
Definition max_date : Z := max_departure_time cfg * DAY_TICKS.

(** [status != D_CANCELLED ? D_TRAVELLING : status]. *)
Definition travelling_unless_cancelled (s : DepartureStatus) : DepartureStatus :=
  if DepartureStatus_eqb s D_CANCELLED then s else D_TRAVELLING.

(** The wait time that enters the ordering of scheduled orders. *)
Definition arrival_wait (od : OrderDate) : Z :=
  if DepartureType_eqb type D_ARRIVAL then GetWaitTime (snd (od_order od)) else 0.

Definition order_key (od : OrderDate) : Z :=
  expected_date od - od_lateness od - arrival_wait od.

(** ** Finding the first suitable order of a vehicle (lines 144-258) *)

Definition make_order_date (v : Vehicle) (order : OrderRef) (start_date : Z)
    (st : DepartureStatus) : OrderDate :=
  let early := (lateness_counter v <? 0) && negb (IsType (current_order v) OT_LOADING) in
  mkOrderDate order v
    (if early then start_date - lateness_counter v else start_date)
    (if lateness_counter v >? 0 then lateness_counter v else 0)
    st.

Fixpoint first_suitable_order (v : Vehicle) (i : nat) (order : OrderRef)
    (start_date : Z) (st : DepartureStatus) : exec (option OrderDate) :=
  match i with
  | O => Done None
  | S i' =>
      let start_date := start_date + (GetTravelTime (snd order) + GetWaitTime (snd order)) in
      if start_date - lateness_counter v >? max_date then Done None
      else
        let rest :=
          if IsType (snd order) OT_IMPLICIT then
            first_suitable_order v i' (NextOrder v order) start_date st
          else if (GetTravelTime (snd order) =? 0) && negb (o_travel_timetabled (snd order)) then
            Done None
          else if suitable (snd order) then
            if (start_date <? 0) && DepartureStatus_eqb st D_CANCELLED then Done None
            else Done (Some (make_order_date v order start_date st))
          else
            first_suitable_order v i' (NextOrder v order) start_date
              (travelling_unless_cancelled st) in
        if IsType (snd order) OT_CONDITIONAL then
          match departure_conditionals cfg with
          | 1%nat =>
              (* Take the branch.  The [break] after the [NULL] test leaves
                 the [switch] only; line 207 then reads through [order]. *)
              match GetOrder v (o_skip_to (snd order)) with
              | None => Undefined
              | Some target =>
                  first_suitable_order v i' target
                    (start_date - GetTravelTime (snd target))
                    (travelling_unless_cancelled st)
              end
          | 2%nat =>
              first_suitable_order v i' (NextOrder v order) start_date
                (travelling_unless_cancelled st)
          | _ => rest
          end
        else rest
  end.

(** Line 154: the vehicle is heading for a depot to stop there. *)
Definition heading_to_halt (v : Vehicle) : bool :=
  IsType (current_order v) OT_GOTO_DEPOT && o_depot_halt (current_order v).

(** [carries_passengers] of lines 128-137. *)
Definition carries_passengers (v : Vehicle) : bool :=
  existsb (fun u => (0 <? cargo_cap u)%N && cargo_is_passengers u) (chain v).

(** The body of the loop over the vehicles of a list (lines 127-258):
    the scheduled order of the vehicle, if it has one. *)
Definition scan_vehicle (show_pax show_freight : bool) (v : Vehicle)
    : exec (option OrderDate) :=
  if negb (Bool.eqb show_pax show_freight)
     && negb (Bool.eqb (carries_passengers v) show_pax) then Done None
  else
    match GetOrder v (cur_implicit_order_index v mod GetNumOrders v) with
    | None => Undefined   (* no orders: the remainder by zero of line 144 *)
    | Some order =>
        let start_date := cur_date_fract - current_order_time v in
        if stopped_in_depot v then Done None
        else
          let st := if heading_to_halt v then D_CANCELLED else D_TRAVELLING in
          let loading := IsType (current_order v) OT_LOADING in
          let st := if loading then D_ARRIVED else st in
          let start_date :=
            if loading then
              start_date - (GetTravelTime (snd order)
                            + (if lateness_counter v <? 0 then lateness_counter v else 0))
            else start_date in
          first_suitable_order v (GetNumOrders v) order start_date st
    end.

(** ** Where a departure terminates (lines 310-420) *)

(** The variables of the loop: the calling point being built ([c]), the
    potential via station, and the fields of the departure it fills in. *)
Record TermState : Type := mkTermState {
  t_c : CallAt;
  t_candidate_via : StationID;
  t_via : StationID;
  t_terminus : CallAt;
  t_calling_at : list CallAt
}.

Definition is_station_or_implicit (o : Order) : bool :=
  IsType o OT_GOTO_STATION || IsType o OT_IMPLICIT.

(** One pass through the body of the loop of line 318. [first] is the order
    at which the departure occurs ([least_order->order]).  The dates of
    lines 370, 384 and 416 are sums in [Z]: the [int32] of the source when
    they stay within [int32], as they do under [legs_fit]. *)
Definition terminus_step (v : Vehicle) (first order : OrderRef) (s : TermState)
    : exec (loop_step TermState) :=
  if (fst order =? fst first)%nat then
    Done (Break (0 <? length (t_calling_at s))%nat s)
  else
    let o := snd order in
    let rest :=
      if IsType o OT_GOTO_STATION
         && (o_dest o =? station)
         && (negb (is_no_unload o) || departure_show_all_stops cfg)
         && negb (no_stop_here o) then
        Done (Break (0 <? length (t_calling_at s))%nat s)
      else
        let candidate_via :=
          if no_stop_here o && IsType o OT_GOTO_STATION && (t_via s =? INVALID_STATION)
          then o_dest o else t_candidate_via s in
        let date :=
          if negb (ca_scheduled_date (t_c s) =? 0)
             && (negb (GetTravelTime o =? 0) || o_travel_timetabled o)
          then ca_scheduled_date (t_c s) + GetTravelTime o else 0 in
        let c := mkCallAt (o_dest o) date in
        if (is_no_unload o && negb (departure_show_all_stops cfg))
           || negb (is_station_or_implicit o)
           || no_stop_here o then
          Done (Continue (NextOrder v order)
                  (mkTermState (mkCallAt (o_dest o) (date + GetWaitTime o))
                     candidate_via (t_via s) (t_terminus s) (t_calling_at s)))
        else if Contains (t_calling_at s) c then
          Done (Break true
                  (mkTermState c candidate_via (t_via s) (t_terminus s) (t_calling_at s)))
        else
          let s1 :=
            if is_station_or_implicit o && negb (no_stop_here o) then
              mkTermState c candidate_via
                (if (t_via s =? INVALID_STATION) && (candidate_via =? o_dest o)
                 then o_dest o else t_via s)
                c (t_calling_at s ++ [c])
            else mkTermState c candidate_via (t_via s) (t_terminus s) (t_calling_at s) in
          if IsType o OT_GOTO_STATION && is_unload_all o then
            Done (Break (0 <? length (t_calling_at s1))%nat s1)
          else
            Done (Continue (NextOrder v order)
                    (mkTermState (mkCallAt (o_dest o) (date + GetWaitTime o))
                       (t_candidate_via s1) (t_via s1) (t_terminus s1) (t_calling_at s1))) in
    if IsType o OT_CONDITIONAL then
      match departure_conditionals cfg with
      | 1%nat =>
          (* [break] leaves the [switch]; line 350 reads through [order]. *)
          match GetOrder v (o_skip_to o) with
          | None => Undefined
          | Some target => Done (Continue target s)
          end
      | 2%nat => Done (Continue (NextOrder v order) s)
      | _ => rest
      end
    else rest.

Fixpoint find_terminus (v : Vehicle) (first : OrderRef) (i : nat)
    (order : OrderRef) (s : TermState) : exec (bool * TermState) :=
  match i with
  | O => Done (false, s)
  | S i' =>
      r <- terminus_step v first order s ;;
      match r with
      | Break found s' => Done (found, s')
      | Continue order' s' => find_terminus v first i' order' s'
      end
  end.

(** ** Shortening the termini of earlier departures (lines 438-454) *)

(** The loop over [j] for one earlier departure [d_first]; [cs] is what is
    left of the calling points of the new departure, last one first.  [k]
    is [unsigned] in the source and wraps when [d_first] calls at fewer
    than two stations; it is then never read. *)
Fixpoint shorten_loop (cs : list CallAt) (d_first : Departure) (k : nat) : Departure :=
  match cs with
  | [] => d_first
  | c :: cs' =>
      if CallAt_ge (terminus d_first) c && (2 <=? length (calling_at d_first))%nat then
        let d' := set_terminus d_first (nth k (calling_at d_first) (terminus d_first)) in
        if (k =? 0)%nat then d' else shorten_loop cs' d' (k - 1)
      else shorten_loop cs' d_first k
  end.

Definition shorten_terminus (d d_first : Departure) : Departure :=
  shorten_loop (rev (calling_at d)) d_first (length (calling_at d_first) - 2).

(** The loop over [i]: every departure accepted before [d]. *)
Definition smart_terminus_pass (earlier : list Departure) (d : Departure)
    : list Departure :=
  map (shorten_terminus d) earlier.

(** Lines 424-433 and 528-537. *)
Definition is_duplicate (result : list Departure) (d : Departure) : bool :=
  departure_merge_identical cfg && existsb (fun r => Departure_eqb d r) result.

(** Lines 456-461: a late vehicle is shown by its time of arrival. *)
Definition display_lateness (lo : OrderDate) (d : Departure) : Departure :=
  if negb (DepartureStatus_eqb (status d) D_ARRIVED) && (lateness d >? 0)
  then set_lateness d (lateness d - GetWaitTime (snd (od_order lo)))
  else d.

(** Lines 286-292.  The scheduled date is the sum in [Z]: the [int32] of
    line 287 when the sum stays within [int32], as it does under
    [dates_fit]. *)
Definition new_departure (lo : OrderDate) : Departure :=
  mkDeparture (cur_date * DAY_TICKS + expected_date lo - od_lateness lo)
    (od_lateness lo) (CallAt1 INVALID_STATION) INVALID_STATION []
    (od_status lo) type (od_v lo) (od_order lo).

(** Lines 297-463: the departure made of the least order, and the list once
    it has been considered. *)
Definition add_departure (result : list Departure) (lo : OrderDate)
    : exec (list Departure) :=
  let d0 := new_departure lo in
  let order := NextOrder (od_v lo) (od_order lo) in
  r <- find_terminus (od_v lo) (od_order lo) (GetNumOrders (od_v lo)) order
         (mkTermState (mkCallAt (o_dest (snd order)) (scheduled_date d0))
            INVALID_STATION (via d0) (terminus d0) (calling_at d0)) ;;
  let d := mkDeparture (scheduled_date d0) (lateness d0) (t_terminus (snd r))
             (t_via (snd r)) (t_calling_at (snd r)) (status d0) (d_type d0)
             (vehicle d0) (d_order d0) in
  if fst r && negb (is_duplicate result d) then
    Done ((if departure_smart_terminus cfg && DepartureType_eqb type D_DEPARTURE
           then smart_terminus_pass result d else result)
          ++ [display_lateness lo d])
  else Done result.

(** ** Where an arrival comes from (lines 471-543) *)

Definition loads_here (o : Order) : bool :=
  negb (is_no_load o) || departure_show_all_stops cfg.

(** The loop of line 486: whether something between [o] and the arrival
    order rules out [candidate_origin].  The walk goes round the order list
    and meets [first] after fewer steps than the vehicle has orders. *)
Fixpoint found_collision (v : Vehicle) (first candidate_origin : OrderRef)
    (fuel : nat) (o : OrderRef) : bool :=
  match fuel with
  | O => false
  | S fuel' =>
      if (fst o =? fst first)%nat then false
      else if is_unload_all (snd o) then true
      else if is_station_or_implicit (snd o)
              && ((o_dest (snd o) =? o_dest (snd candidate_origin))
                  || (o_dest (snd o) =? station)) then true
      else found_collision v first candidate_origin fuel' (NextOrder v o)
  end.

(** The loop of line 476: [found_origin] and the final [candidate_origin]. *)
Fixpoint find_origin (v : Vehicle) (first : OrderRef) (fuel : nat)
    (candidate_origin : OrderRef) : bool * OrderRef :=
  match fuel with
  | O => (false, candidate_origin)
  | S fuel' =>
      if (fst candidate_origin =? fst first)%nat then (false, candidate_origin)
      else if loads_here (snd candidate_origin)
              && is_station_or_implicit (snd candidate_origin)
              && negb (o_dest (snd candidate_origin) =? station)
              && negb (found_collision v first candidate_origin (GetNumOrders v)
                         (NextOrder v candidate_origin))
      then (true, candidate_origin)
      else find_origin v first fuel' (NextOrder v candidate_origin)
  end.

(** The loop of line 515. *)
Fixpoint arrival_calling_at (v : Vehicle) (first : OrderRef) (fuel : nat)
    (order : OrderRef) (acc : list CallAt) : list CallAt :=
  match fuel with
  | O => acc
  | S fuel' =>
      if (fst order =? fst first)%nat then acc
      else
        arrival_calling_at v first fuel' (NextOrder v order)
          (if IsType (snd order) OT_GOTO_STATION && loads_here (snd order)
           then acc ++ [CallAt1 (o_dest (snd order))] else acc)
  end.

Definition add_arrival (result : list Departure) (lo : OrderDate) : list Departure :=
  let d0 := new_departure lo in
  let v := od_v lo in
  let r := find_origin v (od_order lo) (GetNumOrders v) (NextOrder v (od_order lo)) in
  let d := mkDeparture (scheduled_date d0 - GetWaitTime (snd (od_order lo)))
             (lateness d0) (CallAt1 (o_dest (snd (snd r)))) (via d0)
             (arrival_calling_at v (od_order lo) (GetNumOrders v)
                (NextOrder v (snd r)) (calling_at d0))
             (status d0) (d_type d0) (vehicle d0) (d_order d0) in
  if fst r && negb (is_duplicate result d) then result ++ [d] else result.

(** ** The next suitable order of the vehicle (lines 546-626) *)

(** The loop of line 558, for a scheduled order of vehicle [v] that is
    [late] ticks late: the order found, if any, and [expected_date]. *)
Fixpoint next_suitable_order (v : Vehicle) (late : Z) (i : nat)
    (order : OrderRef) (expected : Z) : exec (option OrderRef * Z) :=
  match i with
  | O => Done (None, expected)
  | S i' =>
      let o := snd order in
      let rest :=
        if IsType o OT_IMPLICIT then
          next_suitable_order v late i' (NextOrder v order) expected
        else if (GetTravelTime o =? 0) && negb (o_travel_timetabled o) then
          Done (None, expected)
        else if expected - late >? max_date then Done (None, expected)
        else if suitable o then Done (Some order, expected)
        else
          let order' := NextOrder v order in
          next_suitable_order v late i' order'
            (expected + (GetTravelTime (snd order') + GetWaitTime (snd order'))) in
      if IsType o OT_CONDITIONAL then
        match departure_conditionals cfg with
        | 1%nat =>
            (* [break] leaves the [switch]; line 587 reads through [order]. *)
            match GetOrder v (o_skip_to o) with
            | None => Undefined
            | Some target =>
                next_suitable_order v late i' target
                  (expected + GetWaitTime (snd target))
            end
        | 2%nat =>
            let order' := NextOrder v order in
            next_suitable_order v late i' order'
              (expected + (GetTravelTime (snd order') + GetWaitTime (snd order')))
        | _ => rest
        end
      else rest
  end.

Definition advance_order (lo : OrderDate) : exec OrderDate :=
  let v := od_v lo in
  let order := NextOrder v (od_order lo) in
  r <- next_suitable_order v (od_lateness lo) (GetNumOrders v) order
         (expected_date lo + (GetTravelTime (snd order) + GetWaitTime (snd order))) ;;
  let st := if DepartureStatus_eqb (od_status lo) D_ARRIVED
            then D_TRAVELLING else od_status lo in
  match fst r with
  | Some order' => Done (mkOrderDate order' v (snd r) (od_lateness lo) st)
  | None => Done (mkOrderDate (od_order lo) v INT32_MAX (od_lateness lo) st)
  end.

(** ** The least order *)

(** [least_order] points into [next_orders]: it is kept as the position
    pointed at together with the scheduled order found there. *)
Definition LeastOrder : Type := (nat * OrderDate)%type.

(** Lines 629-643; [i] is the position of the head of [l]. *)
Fixpoint find_least_order (i : nat) (l : list OrderDate) (least : LeastOrder)
    : LeastOrder :=
  match l with
  | [] => least
  | od :: l' =>
      find_least_order (S i) l'
        (if (order_key (snd least) >? order_key od)
            && (expected_date od - od_lateness od <? max_date)
         then (i, od) else least)
  end.

Fixpoint set_nth {A : Type} (n : nat) (x : A) (l : list A) {struct l} : list A :=
  match l, n with
  | [], _ => []
  | _ :: l', O => x :: l'
  | y :: l', S n' => y :: set_nth n' x l'
  end.

(** ** The main loop (lines 269-644) *)

Definition add_entry (result : list Departure) (lo : OrderDate)
    : exec (list Departure) :=
  if DepartureType_eqb type D_DEPARTURE then add_departure result lo
  else Done (add_arrival result lo).

Fixpoint departure_loop (i : nat) (result : list Departure)
    (next_orders : list OrderDate) (least : LeastOrder) : exec (list Departure) :=
  match i with
  | O => Done result
  | S i' =>
      if (max_departures cfg <=? length result)%nat
         || (expected_date (snd least) - od_lateness (snd least) >? max_date)
      then Done result
      else
        result' <- add_entry result (snd least) ;;
        lo <- advance_order (snd least) ;;
        let next_orders' := set_nth (fst least) lo next_orders in
        departure_loop i' result' next_orders'
          (find_least_order O next_orders' (fst least, lo))
  end.

(** ** Collecting the scheduled orders (lines 110-260) *)

(** Lines 240-247. *)
Definition append_order (next_orders : list OrderDate) (least : option LeastOrder)
    (od : OrderDate) : list OrderDate * option LeastOrder :=
  (next_orders ++ [od],
   match least with
   | None => Some (length next_orders, od)
   | Some l =>
       if order_key (snd l) >? order_key od
       then Some (length next_orders, od) else Some l
   end).

Fixpoint scan_vehicles (show_pax show_freight : bool) (vehicles : list Vehicle)
    (next_orders : list OrderDate) (least : option LeastOrder)
    : exec (list OrderDate * option LeastOrder) :=
  match vehicles with
  | [] => Done (next_orders, least)
  | v :: vehicles' =>
      r <- scan_vehicle show_pax show_freight v ;;
      match r with
      | None => scan_vehicles show_pax show_freight vehicles' next_orders least
      | Some od =>
          let p := append_order next_orders least od in
          scan_vehicles show_pax show_freight vehicles' (fst p) (snd p)
      end
  end.

(** What the scan of the vehicle types ends with: the collaborator failed
    ([GenerateVehicleSortList] returned [false]), or the scheduled orders. *)
Inductive scan_result : Type :=
| ListFailed
| Scanned (next_orders : list OrderDate) (least : option LeastOrder).

(** The loop of line 110 over the vehicle types left in [types].  The first
    component of the result lists the types handed to
    [GenerateVehicleSortList], in the order of the calls. *)
Fixpoint scan_types (GenerateVehicleSortList : nat -> option (list Vehicle))
    (show_vehicle_types : nat -> bool) (show_pax show_freight : bool)
    (types : list nat) (next_orders : list OrderDate) (least : option LeastOrder)
    : list nat * exec scan_result :=
  match types with
  | [] => ([], Done (Scanned next_orders least))
  | i :: types' =>
      if negb (show_vehicle_types i) then
        scan_types GenerateVehicleSortList show_vehicle_types show_pax show_freight
          types' next_orders least
      else
        match GenerateVehicleSortList i with
        | None => ([i], Done ListFailed)
        | Some vehicles =>
            match scan_vehicles show_pax show_freight vehicles next_orders least with
            | Undefined => ([i], Undefined)
            | Done p =>
                let r := scan_types GenerateVehicleSortList show_vehicle_types
                           show_pax show_freight types' (fst p) (snd p) in
                (i :: fst r, snd r)
            end
        end
  end.

(** [MakeDepartureList] with the main loop counting down from [safeguard],
    and the calls it made to the vehicle list. *)
Definition MakeDepartureList_from (safeguard : nat)
    (GenerateVehicleSortList : nat -> option (list Vehicle))
    (show_vehicle_types : nat -> bool) (show_pax show_freight : bool)
    : list nat * exec (list Departure) :=
  if negb show_pax && negb show_freight then ([], Done [])
  else
    let r := scan_types GenerateVehicleSortList show_vehicle_types
               show_pax show_freight [0; 1; 2; 3]%nat [] None in
    (fst r,
     s <- snd r ;;
     match s with
     | ListFailed => Done []
     | Scanned next_orders None => Done []
     | Scanned next_orders (Some least) =>
         departure_loop safeguard [] next_orders least
     end).

(** The countdown from 10000 is the safeguard of line 269. *)
Definition MakeDepartureList_run
    (GenerateVehicleSortList : nat -> option (list Vehicle))
    (show_vehicle_types : nat -> bool) (show_pax show_freight : bool)
    : list nat * exec (list Departure) :=
  MakeDepartureList_from (100 * 100) GenerateVehicleSortList show_vehicle_types
    show_pax show_freight.

Definition MakeDepartureList
    (GenerateVehicleSortList : nat -> option (list Vehicle))
    (show_vehicle_types : nat -> bool) (show_pax show_freight : bool)
    : exec (list Departure) :=
  snd (MakeDepartureList_run GenerateVehicleSortList show_vehicle_types
         show_pax show_freight).

(** ** What the statements below are about *)



(** [d] is the entry lines 286-292, 456-461 and 471 make of the scheduled
    order [lo]. *)
Definition made_from (lo : OrderDate) (d : Departure) : Prop :=
  vehicle d = od_v lo /\ d_order d = od_order lo /\ status d = od_status lo
  /\ d_type d = type
  /\ scheduled_date d
     = cur_date * DAY_TICKS + expected_date lo - od_lateness lo - arrival_wait lo
  /\ (lateness d = od_lateness lo
      \/ (type = D_DEPARTURE /\ od_status lo <> D_ARRIVED /\ 0 < od_lateness lo
          /\ lateness d = od_lateness lo - GetWaitTime (snd (od_order lo)))).

(** Two entries show the same row: the fields [Departure_eqb] reads. *)
Definition same_row (a b : Departure) : Prop :=
  d_type a = d_type b /\ terminus a = terminus b /\ via a = via b
  /\ calling_at a = calling_at b /\ status a = status b.

(** No entry of the list equals a later one. *)
Fixpoint distinct_rows (l : list Departure) : Prop :=
  match l with
  | [] => True
  | a :: l' => Forall (fun b => Departure_eqb a b = false) l' /\ distinct_rows l'
  end.

(** Two entries agree on every field but the terminus. *)
Definition same_but_terminus (a b : Departure) : Prop :=
  d_type a = d_type b /\ scheduled_date a = scheduled_date b
  /\ lateness a = lateness b /\ status a = status b /\ vehicle a = vehicle b
  /\ d_order a = d_order b /\ via a = via b /\ calling_at a = calling_at b.

(** What the loop that looks for the terminus keeps of a row: no station
    is called at twice, and the terminus, once there are calling points, is
    one of them. *)
Definition row_kept (calling : list CallAt) (terminus : CallAt) : Prop :=
  NoDup (map ca_station calling) /\ (calling <> [] -> In terminus calling).

(** [least] points at the first of the scheduled orders of [next_orders]
    that have the least key. *)
Definition first_least (next_orders : list OrderDate) (least : option LeastOrder)
    : Prop :=
  match least with
  | None => next_orders = []
  | Some l =>
      nth_error next_orders (fst l) = Some (snd l)
      /\ (forall c, In c next_orders -> order_key (snd l) <= order_key c)
      /\ (forall j c, (j < fst l)%nat -> nth_error next_orders j = Some c ->
            order_key (snd l) < order_key c)
  end.

(** The longest that an order of [v] adds to a date: its travel time and
    its wait time. *)
Definition longest_leg (v : Vehicle) : Z :=
  fold_right Z.max 0 (map (fun o => GetTravelTime o + GetWaitTime o) (orders v)).

(** Bounds that leave room in [int32] for the dates the source computes
    for [v]: the start date of line 145 and what lines 161-237 and 580-612
    add to it and take off it, one order at a time and up to the horizon,
    and the scheduled date of line 287, which adds the date in ticks. *)
Definition dates_fit (v : Vehicle) : Prop :=
  0 <= cur_date /\ 0 <= cur_date_fract /\ 0 <= current_order_time v
  /\ current_order_time v + 2 * longest_leg v + Z.abs (lateness_counter v)
     <= INT32_MAX
  /\ cur_date * DAY_TICKS + cur_date_fract + max_date + 2 * longest_leg v
     + Z.abs (lateness_counter v) <= INT32_MAX.

(** Going through as many orders as [v] has from a date within the
    horizon stays within [int32]: the dates of lines 370, 384 and 416. *)
Definition legs_fit (v : Vehicle) : Prop :=
  0 <= cur_date
  /\ cur_date * DAY_TICKS + max_date + Z.of_nat (GetNumOrders v) * longest_leg v
     <= INT32_MAX.

(** Every order of [v] has a travel time, or a timetabled one of zero. *)
Definition timetabled (v : Vehicle) : Prop :=
  Forall (fun o => GetTravelTime o <> 0 \/ o_travel_timetabled o = true) (orders v).

(** The dates of the loop that looks for the terminus of a departure
    scheduled at [sd]: the calling points are dated from [sd] on, in
    ascending order, and none after the calling point being built. *)
Definition dated (sd : Z) (s : TermState) : Prop :=
  sd <= ca_scheduled_date (t_c s)
  /\ StronglySorted Z.le (sd :: map ca_scheduled_date (t_calling_at s))
  /\ Forall (fun c => ca_scheduled_date c <= ca_scheduled_date (t_c s))
       (t_calling_at s).

(** The pointer [p] points at an order of [v]. *)
Definition valid_ref (v : Vehicle) (p : OrderRef) : Prop :=
  nth_error (orders v) (fst p) = Some (snd p).


(** [v] has orders and, when branches are taken, its conditional orders
    skip to orders that exist. *)
Definition branches_resolve (v : Vehicle) : Prop :=
  orders v <> []
  /\ (departure_conditionals cfg = 1%nat ->
      Forall (fun o => IsType o OT_CONDITIONAL = true ->
                       (o_skip_to o < GetNumOrders v)%nat) (orders v)).

(** The scheduled order belongs to a vehicle of that kind and points at one
    of its orders. *)
Definition sound (lo : OrderDate) : Prop :=
  branches_resolve (od_v lo) /\ valid_ref (od_v lo) (od_order lo).

(** The lateness of [v] leaves room for the horizon below [INT32_MAX], so
    that the date put in at line 620 is not before any date within the
    horizon. *)
Definition lateness_fits (v : Vehicle) : Prop :=
  max_date + Z.max 0 (lateness_counter v) <= INT32_MAX.

Definition no_implicit_orders (v : Vehicle) : Prop :=
  Forall (fun o => IsType o OT_IMPLICIT = false) (orders v).

(** The vehicles for which the entries come out in the order of their
    keys: for arrivals, those without implicit orders. *)
Definition keeps_order (v : Vehicle) : Prop :=
  lateness_fits v /\ (type = D_ARRIVAL -> no_implicit_orders v).

Definition in_order (lo : OrderDate) : Prop :=
  keeps_order (od_v lo)
  /\ valid_ref (od_v lo) (od_order lo)
  /\ od_lateness lo = Z.max 0 (lateness_counter (od_v lo))
  /\ expected_date lo <= INT32_MAX.

(** The orders that do not take part when the least order is looked for
    (line 640). *)
Definition beyond_horizon (od : OrderDate) : Prop :=
  max_date <= expected_date od - od_lateness od.

(** ** Order lists and vehicles to run the model on *)

(** Modelled from the spec: [CallAt::operator>=] of [departures_type.h].
    Section 4.6 has the terminus of the earlier entry "beyond or at" the
    calling point of the new one, and section 3 reads a date of zero as
    unknown: the same station, both dates known, and the first date not
    before the second. *)
Definition CallAt_ge_dated (a b : CallAt) : bool :=
  (ca_station a =? ca_station b)
  && negb (ca_scheduled_date a =? 0)
  && negb (ca_scheduled_date b =? 0)
  && (ca_scheduled_date b <=? ca_scheduled_date a).

(** Go to [dest], stop, wait [wait] ticks; the journey takes [travel]. *)
Definition stop_at (dest : Z) (wait travel : N) : Order :=
  mkOrder OT_GOTO_STATION dest OLF_LOAD_IF_POSSIBLE OUF_UNLOAD_IF_POSSIBLE
    ONSF_STOP_EVERYWHERE false wait travel true 0.

(** Go to [dest] without stopping there. *)
Definition pass_through (dest : Z) (travel : N) : Order :=
  mkOrder OT_GOTO_STATION dest OLF_LOAD_IF_POSSIBLE OUF_UNLOAD_IF_POSSIBLE
    ONSF_NO_STOP_AT_DESTINATION_STATION false 0 travel true 0.

(** An implicit order for [dest]. *)
Definition implicit_stop (dest : Z) : Order :=
  mkOrder OT_IMPLICIT dest OLF_LOAD_IF_POSSIBLE OUF_UNLOAD_IF_POSSIBLE
    ONSF_STOP_EVERYWHERE false 0 0 false 0.

(** A conditional order that skips to the order at [target]. *)
Definition branch_to (target : nat) (travel : N) : Order :=
  mkOrder OT_CONDITIONAL 0 OLF_LOAD_IF_POSSIBLE OUF_UNLOAD_IF_POSSIBLE
    ONSF_STOP_EVERYWHERE false 0 travel true target.

Definition halt_in_depot : Order :=
  mkOrder OT_GOTO_DEPOT 0 OLF_LOAD_IF_POSSIBLE OUF_UNLOAD_IF_POSSIBLE
    ONSF_STOP_EVERYWHERE true 0 0 false 0.

(** A train at the start of its order list, [late] ticks late, carrying out
    [current]. *)
Definition train (os : list Order) (current : Order) (late : Z) : Vehicle :=
  mkVehicle os 0 current 0 late false [].

(** A vehicle list that knows the trains [l] and no other vehicle. *)
Definition trains (l : list Vehicle) (i : nat) : option (list Vehicle) :=
  match i with
  | O => Some l
  | _ => Some []
  end.

Definition every_type (i : nat) : bool := true.

(** A vehicle list that knows the trains [l] and fails for road vehicles. *)
Definition no_road_vehicles (l : list Vehicle) (i : nat) : option (list Vehicle) :=
  match i with
  | O => Some l
  | 1%nat => None
  | _ => Some []
  end.

(** Station 1 is the station of the board in all that follows.  The
    settings give the horizon in days, the number of entries, the handling
    of conditional orders, and whether all stops are shown, identical
    departures merged and termini shortened. *)
Definition ten_days : Settings := mkSettings 10 5 0 false false false.
Definition two_days : Settings := mkSettings 2 5 0 false false false.
Definition merging : Settings := mkSettings 100 4 0 false true false.
Definition merging_smart : Settings := mkSettings 100 4 0 false true true.
Definition taking_branches : Settings := mkSettings 100 5 1 false false false.
Definition one_entry : Settings := mkSettings 100 1 0 false false false.
Definition two_entries : Settings := mkSettings 100 2 0 false false false.

(** An arrival at station 1, an implicit order, and a second arrival at
    station 1 with a long wait. *)
Definition shuttle : Vehicle :=
  train [stop_at 1 10 5; implicit_stop 3; stop_at 1 1000 5; stop_at 2 5 5]
    (stop_at 1 10 5) 0.

(** Five ticks late, and waiting a hundred ticks at station 1. *)
Definition late_train : Vehicle :=
  train [stop_at 1 100 5; stop_at 2 5 5] (stop_at 1 100 5) 5.

Definition late_entry : Departure :=
  mkDeparture 100 (-95) (mkCallAt 2 105) INVALID_STATION [mkCallAt 2 105]
    D_TRAVELLING D_DEPARTURE late_train (O, stop_at 1 100 5).

(** Four trains that leave station 1 at the same time: two stopping trains
    to station 3 by way of 2 (the second is told apart by its coach), a
    fast train to 3, and a train to 3 by way of 4.  All reach station 3 at
    the same time. *)
Definition slow_first : Vehicle :=
  train [stop_at 1 1 10; stop_at 2 1 100; stop_at 3 1 100] (stop_at 1 1 10) 0.
Definition fast : Vehicle :=
  train [stop_at 1 1 10; stop_at 3 1 201] (stop_at 1 1 10) 0.
Definition slow_second : Vehicle :=
  mkVehicle [stop_at 1 1 10; stop_at 2 1 100; stop_at 3 1 100] 0 (stop_at 1 1 10)
    0 0 false [mkPart 40 true].
Definition roundabout : Vehicle :=
  train [stop_at 1 1 10; stop_at 4 1 20; stop_at 3 1 180] (stop_at 1 1 10) 0.

(** Passes station 2 twice without stopping, then calls at station 3. *)
Definition non_stop_twice : Vehicle :=
  train [stop_at 1 1 10; pass_through 2 10; pass_through 2 10; stop_at 3 1 10]
    (stop_at 1 1 10) 0.

(** A conditional order whose target, order 7, does not exist. *)
Definition lost_branch : Vehicle :=
  train [branch_to 7 1; stop_at 1 1 10; stop_at 2 1 10] (stop_at 1 1 10) 0.
Definition lost_branch_later : Vehicle :=
  train [stop_at 1 1 10; branch_to 7 1; stop_at 2 1 10] (stop_at 1 1 10) 0.
Definition plain : Vehicle :=
  train [stop_at 1 1 10; stop_at 2 1 10] (stop_at 1 1 10) 0.

(** A conditional order whose branch leads to the stop at station 1. *)
Definition branching : Vehicle :=
  train [branch_to 2 7; stop_at 2 1 10; stop_at 1 3 5] (stop_at 1 3 5) 0.

(** On its way to a depot to stop there. *)
Definition withdrawn : Vehicle :=
  train [stop_at 1 1 10; stop_at 2 1 10] halt_in_depot 0.


(** * Properties of the model *)

Lemma GetWaitTime_nonneg (o : Order) : 0 <= GetWaitTime o.
Proof. unfold GetWaitTime; lia. Qed.

Lemma GetTravelTime_nonneg (o : Order) : 0 <= GetTravelTime o.
Proof. unfold GetTravelTime; lia. Qed.

(** Records the sign of every wait and travel time in sight. *)
Ltac times_nonneg :=
  repeat match goal with
  | |- context [GetWaitTime ?o] =>
      lazymatch goal with
      | _ : 0 <= GetWaitTime o |- _ => fail
      | _ => pose proof (GetWaitTime_nonneg o)
      end
  | |- context [GetTravelTime ?o] =>
      lazymatch goal with
      | _ : 0 <= GetTravelTime o |- _ => fail
      | _ => pose proof (GetTravelTime_nonneg o)
      end
  | _ : context [GetWaitTime ?o] |- _ =>
      lazymatch goal with
      | _ : 0 <= GetWaitTime o |- _ => fail
      | _ => pose proof (GetWaitTime_nonneg o)
      end
  | _ : context [GetTravelTime ?o] |- _ =>
      lazymatch goal with
      | _ : 0 <= GetTravelTime o |- _ => fail
      | _ => pose proof (GetTravelTime_nonneg o)
      end
  end.

(** Splits on the test of a conditional or of a [match] found in [H]. *)
Ltac split_on H :=
  match type of H with
  | context [if ?b then _ else _] => destruct b eqn:?
  | context [match departure_conditionals cfg with _ => _ end] =>
      destruct (departure_conditionals cfg) as [|[|[|?]]] eqn:?
  | context [match GetOrder ?v ?k with _ => _ end] => destruct (GetOrder v k) eqn:?
  end.

(** ** The walk to the next suitable order only moves forward in time *)

Lemma next_suitable_order_bounds (v : Vehicle) (late : Z) (i : nat) :
  forall order e r d,
    next_suitable_order v late i order e = Done (r, d) ->
    e <= d /\ (r <> None -> d - late <= max_date).
Proof.
  induction i as [|i IH]; intros order e r d H; cbn [next_suitable_order] in H.
  - inversion H; subst; split; [lia | congruence].
  - cbv zeta in H.
    repeat split_on H;
      try discriminate;
      try (inversion H; subst; split; [lia | first [congruence | intros _; lia]]);
      try (apply IH in H; destruct H as [H1 H2]; split; [times_nonneg; lia | exact H2]).
Qed.

Lemma advance_order_cases (lo lo' : OrderDate) :
  advance_order lo = Done lo' ->
  od_v lo' = od_v lo /\ od_lateness lo' = od_lateness lo
  /\ od_status lo' = (if DepartureStatus_eqb (od_status lo) D_ARRIVED
                      then D_TRAVELLING else od_status lo)
  /\ (expected_date lo <= expected_date lo' \/ expected_date lo' = INT32_MAX).
Proof.
  unfold advance_order; intros H.
  destruct (next_suitable_order _ _ _ _ _) as [[r d]|] eqn:E; cbn in H; [|discriminate].
  apply next_suitable_order_bounds in E; destruct E as [E _].
  destruct r; inversion H; subst; cbn; repeat split; auto.
  left; times_nonneg; lia.
Qed.

(** ** Shortening a terminus changes nothing but the terminus *)

Lemma set_terminus_twice (d : Departure) (t t' : CallAt) :
  set_terminus (set_terminus d t) t' = set_terminus d t'.
Proof. reflexivity. Qed.

Lemma set_terminus_same (d : Departure) : set_terminus d (terminus d) = d.
Proof. destruct d; reflexivity. Qed.

Lemma shorten_loop_frame (cs : list CallAt) :
  forall d_first k, exists t, shorten_loop cs d_first k = set_terminus d_first t.
Proof.
  induction cs as [|c cs IH]; intros d_first k; cbn [shorten_loop].
  - exists (terminus d_first); symmetry; apply set_terminus_same.
  - destruct (CallAt_ge (terminus d_first) c && _).
    + destruct (k =? 0)%nat.
      * eexists; reflexivity.
      * destruct (IH (set_terminus d_first
                        (nth k (calling_at d_first) (terminus d_first))) (k - 1)%nat)
          as [t Ht].
        exists t; rewrite Ht; apply set_terminus_twice.
    + apply IH.
Qed.

Lemma shorten_terminus_frame (d d_first : Departure) :
  exists t, shorten_terminus d d_first = set_terminus d_first t.
Proof. apply shorten_loop_frame. Qed.

Lemma smart_terminus_pass_Forall (P : Departure -> Prop) (earlier : list Departure)
    (d : Departure) :
  (forall e t, P e -> P (set_terminus e t)) ->
  Forall P earlier -> Forall P (smart_terminus_pass earlier d).
Proof.
  intros HP H; unfold smart_terminus_pass.
  induction H as [|e l He Hl IH]; cbn; constructor; auto.
  destruct (shorten_terminus_frame d e) as [t Ht]; rewrite Ht; auto.
Qed.

(** ** An induction principle for the main loop *)

Section LoopInvariant.

Variable P : list Departure -> Prop.
Variable Q : OrderDate -> Prop.
Variable V : Vehicle -> Prop.

Hypothesis add_entry_P : forall result lo result',
  P result -> Q lo ->
  (length result < max_departures cfg)%nat ->
  expected_date lo - od_lateness lo <= max_date ->
  add_entry result lo = Done result' -> P result'.

Hypothesis advance_Q : forall lo lo',
  Q lo -> advance_order lo = Done lo' -> Q lo'.

Lemma find_least_order_Q (l : list OrderDate) :
  forall i least, Forall Q l -> Q (snd least) -> Q (snd (find_least_order i l least)).
Proof.
  induction l as [|od l IH]; intros i least Hl Hq; cbn [find_least_order]; auto.
  inversion Hl; subst.
  apply IH; auto.
  destruct (_ && _); auto.
Qed.

Lemma set_nth_Forall (l : list OrderDate) :
  forall n x, Forall Q l -> Q x -> Forall Q (set_nth n x l).
Proof.
  induction l as [|y l IH]; intros n x Hl Hx; cbn; [constructor|].
  inversion Hl; subst.
  destruct n; constructor; auto.
Qed.

Lemma departure_loop_inv (i : nat) :
  forall result next_orders least r,
    P result -> Forall Q next_orders -> Q (snd least) ->
    departure_loop i result next_orders least = Done r -> P r.
Proof.
  induction i as [|i IH]; intros result next_orders least r HP HQs HQ H;
    cbn [departure_loop] in H.
  - inversion H; subst; auto.
  - destruct (_ || _) eqn:Estop.
    + inversion H; subst; auto.
    + apply orb_false_iff in Estop; destruct Estop as [E1 E2].
      apply Nat.leb_gt in E1. rewrite Z.gtb_ltb, Z.ltb_ge in E2.
      destruct (add_entry result (snd least)) as [result'|] eqn:Ea; cbn in H; [|discriminate].
      destruct (advance_order (snd least)) as [lo|] eqn:Ead; cbn in H; [|discriminate].
      assert (Q lo) by (eapply advance_Q; eauto).
      eapply IH; [ | | | exact H].
      * exact (add_entry_P _ _ _ HP HQ E1 E2 Ea).
      * apply set_nth_Forall; auto.
      * apply find_least_order_Q; cbn; auto. apply set_nth_Forall; auto.
Qed.

Hypothesis P_nil : P [].

Hypothesis scan_vehicle_Q : forall show_pax show_freight v od,
  V v -> scan_vehicle show_pax show_freight v = Done (Some od) -> Q od.

Lemma scan_vehicles_Q (show_pax show_freight : bool) (vehicles : list Vehicle) :
  Forall V vehicles ->
  forall next_orders least next_orders' least',
    Forall Q next_orders ->
    match least with Some l => Q (snd l) | None => True end ->
    scan_vehicles show_pax show_freight vehicles next_orders least
      = Done (next_orders', least') ->
    Forall Q next_orders'
    /\ match least' with Some l => Q (snd l) | None => True end.
Proof.
  induction 1 as [|v vs Hv Hvs IH];
    intros next_orders least next_orders' least' Hn Hl H;
    cbn [scan_vehicles] in H.
  - inversion H; subst; auto.
  - destruct (scan_vehicle show_pax show_freight v) as [[od|]|] eqn:E; cbn in H;
      [ | eapply IH; eauto | discriminate].
    apply scan_vehicle_Q in E; [|exact Hv].
    eapply IH; [ | | exact H]; cbn.
    + apply Forall_app; split; auto.
    + destruct least as [l|]; cbn; auto.
      destruct (_ >? _); cbn; auto.
Qed.

Lemma scan_types_Q (G : nat -> option (list Vehicle)) (shown : nat -> bool)
    (show_pax show_freight : bool) (types : list nat) :
  (forall i vehicles, G i = Some vehicles -> Forall V vehicles) ->
  forall next_orders least log next_orders' least',
    Forall Q next_orders ->
    match least with Some l => Q (snd l) | None => True end ->
    scan_types G shown show_pax show_freight types next_orders least
      = (log, Done (Scanned next_orders' least')) ->
    Forall Q next_orders'
    /\ match least' with Some l => Q (snd l) | None => True end.
Proof.
  intros HG.
  induction types as [|t ts IH]; intros next_orders least log next_orders' least' Hn Hl H;
    cbn [scan_types] in H.
  - inversion H; subst; auto.
  - destruct (negb (shown t)); [eapply IH; eauto|].
    destruct (G t) as [vehicles|] eqn:Et; [|discriminate].
    destruct (scan_vehicles _ _ _ _ _) as [[no l]|] eqn:E; [|discriminate].
    apply scan_vehicles_Q in E; eauto. destruct E as [E1 E2].
    cbn [fst snd] in H.
    destruct (scan_types G shown show_pax show_freight ts no l) as [log' r'] eqn:E'.
    cbn in H; inversion H; subst.
    eapply IH; eauto.
Qed.

Lemma MakeDepartureList_from_inv (safeguard : nat)
    (G : nat -> option (list Vehicle)) (shown : nat -> bool)
    (show_pax show_freight : bool) (r : list Departure) :
  (forall i vehicles, G i = Some vehicles -> Forall V vehicles) ->
  snd (MakeDepartureList_from safeguard G shown show_pax show_freight) = Done r -> P r.
Proof.
  unfold MakeDepartureList_from; intros HG H.
  destruct (negb show_pax && negb show_freight); cbn [snd] in H.
  - inversion H; subst; exact P_nil.
  - destruct (scan_types _ _ _ _ _ _ _) as [log [[|next_orders [least|]]|]] eqn:E;
      cbn [bind snd fst] in H; try discriminate; try (inversion H; subst; exact P_nil).
    apply scan_types_Q in E; auto. destruct E as [E1 E2].
    eapply departure_loop_inv; eauto.
Qed.

Lemma MakeDepartureList_inv (G : nat -> option (list Vehicle)) (shown : nat -> bool)
    (show_pax show_freight : bool) (r : list Departure) :
  (forall i vehicles, G i = Some vehicles -> Forall V vehicles) ->
  MakeDepartureList G shown show_pax show_freight = Done r -> P r.
Proof. apply MakeDepartureList_from_inv. Qed.

Lemma any_vehicle (G : nat -> option (list Vehicle)) :
  forall (i : nat) (vehicles : list Vehicle),
    G i = Some vehicles -> Forall (fun _ => True) vehicles.
Proof. intros i vehicles _. apply Forall_forall. auto. Qed.

End LoopInvariant.

(** ** What one round adds to the list *)

Lemma display_lateness_made (lo : OrderDate) (d : Departure) :
  type = D_DEPARTURE ->
  vehicle d = od_v lo -> d_order d = od_order lo -> status d = od_status lo ->
  d_type d = type ->
  scheduled_date d = cur_date * DAY_TICKS + expected_date lo - od_lateness lo ->
  lateness d = od_lateness lo ->
  made_from lo (display_lateness lo d) /\ same_row (display_lateness lo d) d.
Proof.
  intros Ht Hv Ho Hs Hty Hd Hl.
  assert (Hw : arrival_wait lo = 0) by (unfold arrival_wait; rewrite Ht; reflexivity).
  unfold display_lateness, made_from, same_row.
  destruct (negb (DepartureStatus_eqb (status d) D_ARRIVED) && (lateness d >? 0)) eqn:E;
    cbn; repeat split; auto; try lia.
  right. apply andb_true_iff in E; destruct E as [E1 E2].
  rewrite Hl in E2. apply Z.gtb_lt in E2.
  repeat split; auto; try lia.
  intros Hc. rewrite Hs, Hc in E1. discriminate.
Qed.

Lemma add_entry_shape (result : list Departure) (lo : OrderDate)
    (result' : list Departure) :
  add_entry result lo = Done result' ->
  result' = result
  \/ exists d d0,
       made_from lo d /\ same_row d d0 /\ is_duplicate result d0 = false
       /\ result'
          = (if departure_smart_terminus cfg && DepartureType_eqb type D_DEPARTURE
             then smart_terminus_pass result d0 else result) ++ [d].
Proof.
  unfold add_entry. destruct (DepartureType_eqb type D_DEPARTURE) eqn:Et.
  - assert (Ht : type = D_DEPARTURE) by (destruct type; [reflexivity | discriminate]).
    unfold add_departure.
    destruct (find_terminus _ _ _ _ _) as [[found s]|]; cbn [bind fst snd];
      [|discriminate].
    destruct (found && negb _) eqn:E; intros H; inversion H; subst result'; auto.
    right. apply andb_true_iff in E; destruct E as [_ E]. apply negb_true_iff in E.
    match goal with
    | |- context [display_lateness lo ?d] =>
        destruct (display_lateness_made lo d Ht) as [Hm Hr]; try reflexivity;
          exists (display_lateness lo d), d
    end.
    split; [exact Hm | split; [exact Hr | split; [exact E | rewrite Et; reflexivity]]].
  - assert (Ht : type = D_ARRIVAL) by (destruct type; [discriminate | reflexivity]).
    unfold add_arrival. cbv zeta.
    match goal with |- context [result ++ [?d]] => set (e := d) end.
    destruct (fst _ && negb _) eqn:E; intros H; inversion H; subst result'; auto.
    right. apply andb_true_iff in E; destruct E as [_ E]. apply negb_true_iff in E.
    exists e, e; split; [|split; [|split; [exact E|]]].
    + unfold made_from, e, new_departure, arrival_wait;
        cbn [vehicle d_order status d_type scheduled_date lateness].
      rewrite Ht; cbn [DepartureType_eqb]. repeat split; auto.
    + unfold same_row; repeat split.
    + rewrite andb_false_r. reflexivity.
Qed.

(** ** What the scan of a vehicle yields *)

Lemma travelling_unless_cancelled_iff (st : DepartureStatus) :
  travelling_unless_cancelled st = D_CANCELLED <-> st = D_CANCELLED.
Proof. destruct st; cbn; split; congruence. Qed.

(** Order pointers stay within the order list. *)

Lemma NextOrder_valid (v : Vehicle) (p : OrderRef) :
  valid_ref v p -> valid_ref v (NextOrder v p).
Proof.
  unfold valid_ref, NextOrder; intros H.
  destruct (nth_error (orders v) (S (fst p))) eqn:E; cbn; auto.
  destruct (orders v) eqn:Eo; cbn; auto.
Qed.

Lemma GetOrder_valid (v : Vehicle) (k : nat) (p : OrderRef) :
  GetOrder v k = Some p -> valid_ref v p.
Proof.
  unfold valid_ref, GetOrder.
  destruct (nth_error (orders v) k) eqn:E; intros H; inversion H; subst; auto.
Qed.

Lemma first_suitable_order_found (v : Vehicle) (i : nat) :
  forall order start st od,
    valid_ref v order ->
    first_suitable_order v i order start st = Done (Some od) ->
    exists order' start' st',
      od = make_order_date v order' start' st'
      /\ valid_ref v order'
      /\ (st' = D_CANCELLED <-> st = D_CANCELLED)
      /\ (st' = D_CANCELLED -> 0 <= start')
      /\ start' - lateness_counter v <= max_date.
Proof.
  induction i as [|i IH]; intros order start st od Hv H;
    cbn [first_suitable_order] in H.
  - discriminate.
  - cbv zeta in H.
    destruct (_ - lateness_counter v >? max_date) eqn:Eh; [discriminate|].
    rewrite Z.gtb_ltb, Z.ltb_ge in Eh.
    repeat split_on H; try discriminate;
      first
        [ apply IH in H; [|eauto using NextOrder_valid, GetOrder_valid];
          destruct H as (o' & s' & st' & H1 & Hv' & H2 & H3 & H4);
          exists o', s', st';
          split; [exact H1|];
          split; [exact Hv'|];
          split; [first [exact H2
                        | rewrite travelling_unless_cancelled_iff in H2; exact H2]|];
          split; assumption
        | inversion H; subst od; eexists _, _, st;
          split; [reflexivity|];
          split; [exact Hv|];
          split; [tauto|];
          split; [|exact Eh];
          intros Hc; subst st;
          match goal with
          | E : (_ <? 0) && _ = false |- _ =>
              cbn in E; rewrite andb_true_r in E; apply Z.ltb_ge in E; exact E
          end ].
Qed.

Lemma scan_vehicle_found (show_pax show_freight : bool) (v : Vehicle) (od : OrderDate) :
  scan_vehicle show_pax show_freight v = Done (Some od) ->
  exists order start st,
    od = make_order_date v order start st
    /\ valid_ref v order
    /\ (heading_to_halt v = true -> st = D_CANCELLED)
    /\ (st = D_CANCELLED -> 0 <= start)
    /\ start - lateness_counter v <= max_date.
Proof.
  unfold scan_vehicle; intros H.
  destruct (negb _ && negb _); [discriminate|].
  destruct (GetOrder _ _) as [order|] eqn:Eo; [|discriminate].
  destruct (stopped_in_depot v); [discriminate|]. cbv zeta in H.
  apply first_suitable_order_found in H; [|eauto using GetOrder_valid].
  destruct H as (o' & s' & st' & H1 & Hv & H2 & H3 & H4).
  exists o', s', st'; repeat split; auto.
  intros Hh. apply H2. rewrite Hh.
  unfold heading_to_halt in Hh. apply andb_true_iff in Hh; destruct Hh as [Hh _].
  unfold IsType in *. destruct (o_type (current_order v)); try discriminate; reflexivity.
Qed.

Lemma made_from_set_terminus (P : Departure -> Prop) :
  (forall e t, P e -> P (set_terminus e t)) ->
  forall result d0, Forall P result ->
    Forall P (if departure_smart_terminus cfg && DepartureType_eqb type D_DEPARTURE
              then smart_terminus_pass result d0 else result).
Proof.
  intros HP result d0 H.
  destruct (_ && _); auto using smart_terminus_pass_Forall.
Qed.

Lemma arrival_wait_nonneg (lo : OrderDate) : 0 <= arrival_wait lo.
Proof. unfold arrival_wait; destruct (DepartureType_eqb _ _); times_nonneg; lia. Qed.

(** ** The length of the list *)

(** C3: the list [MakeDepartureList] returns has at most [max_departures]
    entries; with [max_departures = 0] it is empty, whatever the vehicles. *)
Theorem result_length_bounded (G : nat -> option (list Vehicle)) (shown : nat -> bool)
    (show_pax show_freight : bool) :
  match MakeDepartureList G shown show_pax show_freight with
  | Done r =>
      (length r <= max_departures cfg)%nat
      /\ (max_departures cfg = 0%nat -> r = [])
  | Undefined => True
  end.
Proof.
  destruct (MakeDepartureList G shown show_pax show_freight) as [r|] eqn:E; [|exact I].
  assert (H : (length r <= max_departures cfg)%nat).
  { revert E.
    apply (MakeDepartureList_inv
             (fun r => (length r <= max_departures cfg)%nat) (fun _ => True)
             (fun _ => True));
      try apply any_vehicle; auto; [|cbn; lia].
    intros result lo result' HP _ Hlen _ Ha.
    apply add_entry_shape in Ha.
    destruct Ha as [->|(d & d0 & _ & _ & _ & ->)]; [lia|].
    rewrite length_app; cbn.
    destruct (_ && _); unfold smart_terminus_pass; rewrite ?length_map; lia. }
  split; [exact H|].
  intros H0. rewrite H0 in H. destruct r; [reflexivity | cbn in H; lia].
Qed.

(** ** The horizon *)

(** C2, as the source has it: every entry of the returned list is scheduled
    no later than the horizon, [scheduled_date <= now + max_date].  With
    the lateness as returned, [scheduled_date - lateness] stays within the
    horizon for arrivals and for entries whose status is arrived; for the
    other departures lines 458-461 have taken the wait time of the order off
    the lateness of a late vehicle, and the bound holds up to that wait
    time. *)
Theorem scheduled_date_within_horizon (G : nat -> option (list Vehicle))
    (shown : nat -> bool) (show_pax show_freight : bool)
    (r : list Departure) (d : Departure) :
  MakeDepartureList G shown show_pax show_freight = Done r ->
  In d r ->
  scheduled_date d <= cur_date * DAY_TICKS + max_date
  /\ scheduled_date d - lateness d
     <= cur_date * DAY_TICKS + max_date + GetWaitTime (snd (d_order d))
  /\ (type = D_ARRIVAL \/ status d = D_ARRIVED ->
      scheduled_date d - lateness d <= cur_date * DAY_TICKS + max_date).
Proof.
  intros E Hin.
  set (ok := fun d : Departure =>
    scheduled_date d <= cur_date * DAY_TICKS + max_date
    /\ scheduled_date d - lateness d
       <= cur_date * DAY_TICKS + max_date + GetWaitTime (snd (d_order d))
    /\ (type = D_ARRIVAL \/ status d = D_ARRIVED ->
        scheduled_date d - lateness d <= cur_date * DAY_TICKS + max_date)).
  assert (H : Forall ok r).
  { revert E.
    apply (MakeDepartureList_inv (Forall ok) (fun lo => 0 <= od_lateness lo)
             (fun _ => True)); try apply any_vehicle.
    - intros result lo result' HP HQ _ Hh Ha.
      apply add_entry_shape in Ha.
      destruct Ha as [->|(e & d0 & Hm & _ & _ & ->)]; auto.
      apply Forall_app; split.
      + apply made_from_set_terminus; auto.
      + constructor; [|constructor].
        destruct Hm as (Hv & Ho & Hs & Hty & Hd & Hl).
        pose proof (arrival_wait_nonneg lo).
        pose proof (GetWaitTime_nonneg (snd (d_order e))).
        unfold ok. rewrite Hd.
        destruct Hl as [Hl|(Ht & Hna & Hpos & Hl)]; rewrite Hl.
        * repeat split; intros; lia.
        * rewrite Ho. repeat split; try lia.
          intros [Hc|Hc]; [congruence | rewrite Hs in Hc; contradiction].
    - intros lo lo' HQ Ha. apply advance_order_cases in Ha.
      destruct Ha as (_ & Hl & _). lia.
    - constructor.
    - intros pax fr v od _ Hs. apply scan_vehicle_found in Hs.
      destruct Hs as (o & s & st & -> & _). cbn.
      destruct (lateness_counter v >? 0) eqn:El; [apply Z.gtb_lt in El|]; lia. }
  rewrite Forall_forall in H. exact (H d Hin).
Qed.

(** ** Cancelled departures *)


(** ** Identical rows *)

Lemma CallAt_list_eqb_sym (a : list CallAt) :
  forall b, CallAt_list_eqb a b = CallAt_list_eqb b a.
Proof.
  induction a as [|x a IH]; intros [|y b]; cbn; auto.
  unfold CallAt_eqb. rewrite Z.eqb_sym, IH. reflexivity.
Qed.

Lemma Departure_eqb_sym (a b : Departure) : Departure_eqb a b = Departure_eqb b a.
Proof.
  unfold Departure_eqb, CallAt_eqb.
  rewrite (CallAt_list_eqb_sym (calling_at a)), (Z.eqb_sym (via a)),
    (Z.eqb_sym (ca_station (terminus a))).
  destruct (d_type a), (d_type b), (status a), (status b); reflexivity.
Qed.

Lemma Departure_eqb_same_row (a d d0 : Departure) :
  same_row d d0 -> Departure_eqb a d = Departure_eqb a d0.
Proof.
  intros (H1 & H2 & H3 & H4 & H5). unfold Departure_eqb.
  rewrite H1, H2, H3, H4, H5. reflexivity.
Qed.

Lemma distinct_rows_app (l : list Departure) (d : Departure) :
  distinct_rows l -> Forall (fun a => Departure_eqb a d = false) l ->
  distinct_rows (l ++ [d]).
Proof.
  induction l as [|a l IH]; cbn; intros Hd Hf.
  - split; [constructor | exact I].
  - destruct Hd as [Ha Hl]. inversion Hf; subst.
    split; [apply Forall_app; split; auto | auto].
Qed.

Lemma distinct_rows_nth (l : list Departure) :
  distinct_rows l ->
  forall i j a b, (i < j)%nat ->
    nth_error l i = Some a -> nth_error l j = Some b -> Departure_eqb a b = false.
Proof.
  induction l as [|x l IH]; intros Hd i j a b Hij Hi Hj.
  - destruct i; discriminate.
  - destruct Hd as [Hx Hl]. destruct j as [|j]; [lia|]. cbn in Hj.
    destruct i as [|i]; cbn in Hi.
    + inversion Hi; subst. rewrite Forall_forall in Hx.
      apply Hx. eapply nth_error_In; eauto.
    + apply (IH Hl i j); auto; lia.
Qed.

(** C4, as the source has it: with [departure_merge_identical] set, no two
    entries of the returned list are equal under type, terminus, via,
    calling-at sequence and status, on every arrival board, and on a
    departure board when [departure_smart_terminus] is not set.  (An entry
    is compared with the accepted ones when it is added, and never again
    once a terminus has been shortened; termini are shortened on departure
    boards only, line 438.) *)
Theorem merged_rows_distinct (G : nat -> option (list Vehicle)) (shown : nat -> bool)
    (show_pax show_freight : bool) (r : list Departure)
    (i j : nat) (a b : Departure) :
  departure_merge_identical cfg = true ->
  departure_smart_terminus cfg = false \/ type = D_ARRIVAL ->
  MakeDepartureList G shown show_pax show_freight = Done r ->
  i <> j -> nth_error r i = Some a -> nth_error r j = Some b ->
  Departure_eqb a b = false.
Proof.
  intros Hm Hsa E Hij Hi Hj.
  assert (Hs : departure_smart_terminus cfg && DepartureType_eqb type D_DEPARTURE
               = false).
  { destruct Hsa as [-> | ->]; [reflexivity | apply andb_false_r]. }
  assert (H : distinct_rows r).
  { revert E.
    apply (MakeDepartureList_inv distinct_rows (fun _ => True) (fun _ => True));
      try apply any_vehicle; cbn; auto.
    intros result lo result' HP _ _ _ Ha.
    apply add_entry_shape in Ha.
    destruct Ha as [->|(e & d0 & _ & Hr & Hdup & ->)]; auto.
    rewrite Hs; cbn.
    apply distinct_rows_app; auto.
    unfold is_duplicate in Hdup. rewrite Hm in Hdup; cbn in Hdup.
    apply Forall_forall. intros x Hx.
    rewrite (Departure_eqb_same_row x e d0 Hr), Departure_eqb_sym.
    destruct (Departure_eqb d0 x) eqn:Ex; auto.
    assert (existsb (fun r0 => Departure_eqb d0 r0) result = true)
      by (apply existsb_exists; eauto).
    congruence. }
  destruct (Nat.lt_total i j) as [Hlt|[Heq|Hgt]]; [ | contradiction | ].
  - eapply distinct_rows_nth; eauto.
  - rewrite Departure_eqb_sym. eapply distinct_rows_nth; eauto.
Qed.

(** ** The frame of the terminus shortener *)

(** C9: the pass over the departures accepted earlier keeps their number
    and their order, and changes no field of any of them but the terminus;
    the list with the new departure at its end is changed in no other
    way. *)
Theorem smart_terminus_pass_frame (earlier : list Departure) (d : Departure) :
  length (smart_terminus_pass earlier d) = length earlier
  /\ Forall2 same_but_terminus earlier (smart_terminus_pass earlier d)
  /\ Forall2 same_but_terminus (earlier ++ [d]) (smart_terminus_pass earlier d ++ [d]).
Proof.
  assert (H : Forall2 same_but_terminus earlier (smart_terminus_pass earlier d)).
  { unfold smart_terminus_pass.
    induction earlier as [|e l IH]; cbn; constructor; auto.
    destruct (shorten_terminus_frame d e) as [t ->].
    unfold same_but_terminus; cbn; repeat split. }
  split; [apply length_map|]. split; [exact H|].
  apply Forall2_app; [exact H|].
  constructor; [|constructor]. unfold same_but_terminus; repeat split.
Qed.

(** ** Nothing to show *)

(** C10: when neither passenger nor freight vehicles are asked for,
    [MakeDepartureList] returns the empty list and has made no call to the
    vehicle list. *)
Theorem nothing_to_show (G : nat -> option (list Vehicle)) (shown : nat -> bool) :
  MakeDepartureList_run G shown false false = ([], Done []).
Proof. unfold MakeDepartureList_run, MakeDepartureList_from. reflexivity. Qed.

(** ** The two searches for a suitable order *)

(** C5, as the source has it: the search run when a scheduled order is
    advanced finds the order, and the running date, that the scan of the
    vehicle finds from the same order and date, on order lists without
    implicit orders and for a vehicle that is not early.  At a conditional
    order whose branch is taken both jump to the target; neither takes off
    the travel time of the order skipped: the scan takes off the travel time
    of the target and adds it again with the wait time in its next round,
    the search adds the wait time of the target at once. *)
Theorem searches_agree (v : Vehicle) (i : nat) :
  forall (order : OrderRef) (start : Z) (st : DepartureStatus) (o : OrderRef) (d : Z),
    Forall (fun x => IsType x OT_IMPLICIT = false) (orders v) ->
    valid_ref v order ->
    0 <= lateness_counter v ->
    (st = D_CANCELLED ->
     0 <= start + (GetTravelTime (snd order) + GetWaitTime (snd order))) ->
    (exists od,
       first_suitable_order v i order start st = Done (Some od)
       /\ od_order od = o /\ expected_date od = d)
    <-> next_suitable_order v (lateness_counter v) i order
          (start + (GetTravelTime (snd order) + GetWaitTime (snd order)))
        = Done (Some o, d).
Proof.
  induction i as [|i IH]; intros order start st o d Himp Hv Hlc Hc.
  - cbn. split; [intros (od & H & _) | intros H]; discriminate.
  - set (s1 := start + (GetTravelTime (snd order) + GetWaitTime (snd order))) in *.
    assert (Hni : IsType (snd order) OT_IMPLICIT = false).
    { rewrite Forall_forall in Himp. apply Himp.
      eapply nth_error_In; exact Hv. }
    assert (Hearly : (lateness_counter v <? 0)
                     && negb (IsType (current_order v) OT_LOADING) = false).
    { replace (lateness_counter v <? 0) with false; [reflexivity|].
      symmetry; apply Z.ltb_ge; exact Hlc. }
    assert (Hst : forall s, 0 <= s ->
              travelling_unless_cancelled st = D_CANCELLED -> 0 <= s) by auto.
    destruct (s1 - lateness_counter v >? max_date) eqn:Eh.
    + split.
      * intros (od & H & _). cbn [first_suitable_order] in H. cbv zeta in H.
        fold s1 in H. rewrite Eh in H. discriminate.
      * intros H. apply next_suitable_order_bounds in H. destruct H as [H1 H2].
        assert (d - lateness_counter v <= max_date) by (apply H2; congruence).
        apply Z.gtb_lt in Eh. lia.
    + cbn [first_suitable_order next_suitable_order]. cbv zeta. fold s1.
      rewrite Eh, Hni.
      assert (Hnext : forall st',
        (st' = D_CANCELLED -> st = D_CANCELLED) ->
        (exists od,
           first_suitable_order v i (NextOrder v order) s1 st' = Done (Some od)
           /\ od_order od = o /\ expected_date od = d)
        <-> next_suitable_order v (lateness_counter v) i (NextOrder v order)
              (s1 + (GetTravelTime (snd (NextOrder v order))
                     + GetWaitTime (snd (NextOrder v order))))
            = Done (Some o, d)).
      { intros st' Hst'. apply IH; auto using NextOrder_valid.
        intros Hc'. specialize (Hc (Hst' Hc')). times_nonneg. lia. }
      assert (Hrest :
        (exists od,
           (if (GetTravelTime (snd order) =? 0) && negb (o_travel_timetabled (snd order))
            then Done None
            else if suitable (snd order)
            then if (s1 <? 0) && DepartureStatus_eqb st D_CANCELLED
                 then Done None
                 else Done (Some (make_order_date v order s1 st))
            else first_suitable_order v i (NextOrder v order) s1
                   (travelling_unless_cancelled st)) = Done (Some od)
           /\ od_order od = o /\ expected_date od = d)
        <-> (if (GetTravelTime (snd order) =? 0) && negb (o_travel_timetabled (snd order))
             then Done (None, s1)
             else if suitable (snd order) then Done (Some order, s1)
             else next_suitable_order v (lateness_counter v) i (NextOrder v order)
                    (s1 + (GetTravelTime (snd (NextOrder v order))
                           + GetWaitTime (snd (NextOrder v order)))))
            = Done (Some o, d)).
      { destruct ((GetTravelTime (snd order) =? 0)
                  && negb (o_travel_timetabled (snd order))).
        - split; [intros (od & H & _) | intros H]; discriminate.
        - destruct (suitable (snd order)).
          + assert (Hneg : (s1 <? 0) && DepartureStatus_eqb st D_CANCELLED = false).
            { destruct st; cbn; try apply andb_false_r.
              rewrite andb_true_r. apply Z.ltb_ge. auto. }
            rewrite Hneg. split.
            * intros (od & H & Ho & Hd). inversion H; subst.
              unfold make_order_date; cbn. rewrite Hearly. reflexivity.
            * intros H. inversion H; subst. eexists; split; [reflexivity|].
              unfold make_order_date; cbn. rewrite Hearly. auto.
          + apply Hnext. exact (proj1 (travelling_unless_cancelled_iff st)). }
      destruct (IsType (snd order) OT_CONDITIONAL);
        [destruct (departure_conditionals cfg) as [|[|[|n]]]|]; try exact Hrest.
      * destruct (GetOrder v (o_skip_to (snd order))) as [target|] eqn:Et.
        -- replace (s1 + GetWaitTime (snd target))
             with (s1 - GetTravelTime (snd target)
                   + (GetTravelTime (snd target) + GetWaitTime (snd target))) by lia.
           apply IH; eauto using GetOrder_valid.
           intros Hc'.
           specialize (Hc (proj1 (travelling_unless_cancelled_iff st) Hc')).
           times_nonneg. lia.
        -- split; [intros (od & H & _) | intros H]; discriminate.
      * apply Hnext. exact (proj1 (travelling_unless_cancelled_iff st)).
Qed.

(** ** The via station *)

Ltac bool_facts :=
  repeat match goal with
  | H : (_ =? _) = true |- _ => apply Z.eqb_eq in H
  | H : (_ =? _) = false |- _ => apply Z.eqb_neq in H
  | H : _ && _ = true |- _ => apply andb_true_iff in H; destruct H
  | H : (_ =? _) && (_ =? _) = false |- _ => apply andb_false_iff in H; destruct H
  end.

(** C8, as the source has it: in a pass through the body of the terminus
    loop, the potential via station becomes the destination of a
    go-to-station order with a non-stop directive met while no via station
    is set, and changes in no other way; an order with a non-stop directive
    never sets the via station; the via station is set, to the destination
    of the order, exactly at an order that is added to the calling points
    while no via station is set and the potential via station is that
    destination. *)
Theorem via_station_rules (v : Vehicle) (first order : OrderRef) (s : TermState)
    (r : loop_step TermState) :
  terminus_step v first order s = Done r ->
  (no_stop_here (snd order) = true -> t_via (step_state r) = t_via s)
  /\ (fst order <> fst first ->
      IsType (snd order) OT_GOTO_STATION = true ->
      no_stop_here (snd order) = true ->
      t_via s = INVALID_STATION ->
      t_candidate_via (step_state r) = o_dest (snd order))
  /\ (t_candidate_via (step_state r) <> t_candidate_via s ->
      no_stop_here (snd order) = true
      /\ IsType (snd order) OT_GOTO_STATION = true
      /\ t_via s = INVALID_STATION
      /\ t_candidate_via (step_state r) = o_dest (snd order))
  /\ (t_via (step_state r) <> t_via s ->
      no_stop_here (snd order) = false
      /\ t_via s = INVALID_STATION
      /\ t_candidate_via s = o_dest (snd order)
      /\ t_via (step_state r) = o_dest (snd order)
      /\ exists c, ca_station c = o_dest (snd order)
                   /\ t_calling_at (step_state r) = t_calling_at s ++ [c])
  /\ (t_calling_at (step_state r) <> t_calling_at s ->
      t_via s = INVALID_STATION ->
      t_candidate_via s = o_dest (snd order) ->
      t_via (step_state r) = o_dest (snd order)).
Proof.
  unfold terminus_step, is_station_or_implicit, IsType. cbv zeta. intros H.
  destruct (no_stop_here (snd order)) eqn:Ens;
    destruct (o_type (snd order)) eqn:Ety;
    cbn [OrderType_eqb andb orb negb] in H;
    repeat split_on H; try discriminate;
    inversion H; subst r; cbn [step_state t_via t_candidate_via t_calling_at];
    bool_facts;
    (split; [|split; [|split; [|split]]]);
    intros; try congruence; try reflexivity;
    try (exfalso; congruence);
    try (match goal with
         | E : OrderType_eqb _ _ = true |- _ => cbn in E; discriminate
         | E : (_ =? _)%nat = true |- _ => apply Nat.eqb_eq in E; contradiction
         end);
    try (split; [reflexivity|];
         split; [assumption|];
         split; [assumption|];
         split; [reflexivity|];
         eexists; split; [|reflexivity]; reflexivity);
    try (repeat split; solve [assumption | reflexivity]).
Qed.

(** ** A branch that leads nowhere

    With the branch taken, each of the three walks reads through the null
    pointer when the target of a conditional order does not exist: the
    [break] after the test for [NULL] leaves the [switch], not the loop. *)

Lemma first_suitable_order_lost_branch (v : Vehicle) (i : nat) (order : OrderRef)
    (start : Z) (st : DepartureStatus) :
  IsType (snd order) OT_CONDITIONAL = true ->
  departure_conditionals cfg = 1%nat ->
  GetOrder v (o_skip_to (snd order)) = None ->
  start + (GetTravelTime (snd order) + GetWaitTime (snd order)) - lateness_counter v
    <= max_date ->
  first_suitable_order v (S i) order start st = Undefined.
Proof.
  intros Hc Hp Ht Hh. cbn [first_suitable_order]. cbv zeta.
  rewrite Hc, Hp, Ht.
  destruct (_ >? max_date) eqn:E; [apply Z.gtb_lt in E; lia | reflexivity].
Qed.

Lemma terminus_step_lost_branch (v : Vehicle) (first order : OrderRef) (s : TermState) :
  fst order <> fst first ->
  IsType (snd order) OT_CONDITIONAL = true ->
  departure_conditionals cfg = 1%nat ->
  GetOrder v (o_skip_to (snd order)) = None ->
  terminus_step v first order s = Undefined.
Proof.
  intros Hf Hc Hp Ht. unfold terminus_step. cbv zeta.
  apply Nat.eqb_neq in Hf. rewrite Hf, Hc, Hp, Ht. reflexivity.
Qed.

Lemma next_suitable_order_lost_branch (v : Vehicle) (late : Z) (i : nat)
    (order : OrderRef) (e : Z) :
  IsType (snd order) OT_CONDITIONAL = true ->
  departure_conditionals cfg = 1%nat ->
  GetOrder v (o_skip_to (snd order)) = None ->
  next_suitable_order v late (S i) order e = Undefined.
Proof.
  intros Hc Hp Ht. cbn [next_suitable_order]. cbv zeta.
  rewrite Hc, Hp, Ht. reflexivity.
Qed.

(** ** Going round the order list

    The loops of lines 476, 486 and 515 have no counter: they end when they
    meet the order of the arrival again.  The model runs them for as many
    rounds as the vehicle has orders; that is enough, and more rounds change
    nothing. *)









(** ** Runs that return

    A run has a result when every vehicle of the lists has orders and its
    conditional orders skip to orders that exist. *)

Lemma branch_target_exists (v : Vehicle) (order : OrderRef) :
  branches_resolve v -> valid_ref v order ->
  IsType (snd order) OT_CONDITIONAL = true ->
  departure_conditionals cfg = 1%nat ->
  exists target,
    GetOrder v (o_skip_to (snd order)) = Some target /\ valid_ref v target.
Proof.
  intros [_ Hb] Hv Hc Hp. specialize (Hb Hp). rewrite Forall_forall in Hb.
  assert (Hlt : (o_skip_to (snd order) < GetNumOrders v)%nat).
  { apply Hb; [eapply nth_error_In; exact Hv | exact Hc]. }
  unfold GetOrder.
  destruct (nth_error (orders v) (o_skip_to (snd order))) as [o|] eqn:E.
  - eexists; split; [reflexivity | exact E].
  - apply nth_error_None in E. unfold GetNumOrders in Hlt. lia.
Qed.

Ltac split_goal :=
  repeat match goal with
  | |- context [if ?b then _ else _] => destruct b
  end.

Lemma first_suitable_order_returns (v : Vehicle) (i : nat) :
  branches_resolve v ->
  forall order start st,
    valid_ref v order ->
    exists r,
      first_suitable_order v i order start st = Done r
      /\ forall od, r = Some od -> od_v od = v /\ valid_ref v (od_order od).
Proof.
  intros Hb. induction i as [|i IH]; intros order start st Hv;
    cbn [first_suitable_order].
  - eexists; split; [reflexivity | discriminate].
  - cbv zeta.
    destruct (IsType (snd order) OT_CONDITIONAL) eqn:Ec;
      [destruct (departure_conditionals cfg) as [|[|[|n]]] eqn:Ep;
       try (destruct (branch_target_exists v order Hb Hv Ec Ep) as (t & Et & Hvt);
            rewrite Et)|];
      split_goal;
      first [ eexists; split;
              [reflexivity | intros ? E; inversion E; subst; cbn; auto]
            | apply IH; auto using NextOrder_valid ].
Qed.

Lemma next_suitable_order_returns (v : Vehicle) (late : Z) (i : nat) :
  branches_resolve v ->
  forall order e,
    valid_ref v order ->
    exists r,
      next_suitable_order v late i order e = Done r
      /\ forall o, fst r = Some o -> valid_ref v o.
Proof.
  intros Hb. induction i as [|i IH]; intros order e Hv;
    cbn [next_suitable_order].
  - eexists; split; [reflexivity | discriminate].
  - cbv zeta.
    destruct (IsType (snd order) OT_CONDITIONAL) eqn:Ec;
      [destruct (departure_conditionals cfg) as [|[|[|n]]] eqn:Ep;
       try (destruct (branch_target_exists v order Hb Hv Ec Ep) as (t & Et & Hvt);
            rewrite Et)|];
      split_goal;
      first [ eexists; split;
              [reflexivity | intros ? E; inversion E; subst; cbn; auto]
            | apply IH; auto using NextOrder_valid ].
Qed.

Lemma terminus_step_returns (v : Vehicle) (first order : OrderRef) (s : TermState) :
  branches_resolve v -> valid_ref v order ->
  exists r,
    terminus_step v first order s = Done r
    /\ forall o s', r = Continue o s' -> valid_ref v o.
Proof.
  intros Hb Hv. unfold terminus_step. cbv zeta.
  destruct (fst order =? fst first)%nat;
    [eexists; split; [reflexivity | discriminate]|].
  destruct (IsType (snd order) OT_CONDITIONAL) eqn:Ec;
    [destruct (departure_conditionals cfg) as [|[|[|n]]] eqn:Ep;
     try (destruct (branch_target_exists v order Hb Hv Ec Ep) as (t & Et & Hvt);
          rewrite Et)|];
    split_goal;
    eexists; (split; [reflexivity|]);
    intros ? ? E; inversion E; subst; auto using NextOrder_valid.
Qed.

Lemma find_terminus_returns (v : Vehicle) (first : OrderRef) (i : nat) :
  branches_resolve v ->
  forall order s,
    valid_ref v order -> exists r, find_terminus v first i order s = Done r.
Proof.
  intros Hb. induction i as [|i IH]; intros order s Hv; cbn [find_terminus].
  - eexists; reflexivity.
  - destruct (terminus_step_returns v first order s Hb Hv) as (r & -> & Hr).
    cbn [bind]. destruct r as [found s'|o s'].
    + eexists; reflexivity.
    + apply IH. eapply Hr; reflexivity.
Qed.

Lemma advance_order_returns (lo : OrderDate) :
  sound lo -> exists lo', advance_order lo = Done lo' /\ sound lo'.
Proof.
  intros [Hb Hv]. unfold advance_order. cbv zeta.
  destruct (next_suitable_order_returns (od_v lo) (od_lateness lo)
              (GetNumOrders (od_v lo)) Hb
              (NextOrder (od_v lo) (od_order lo))
              (expected_date lo
               + (GetTravelTime (snd (NextOrder (od_v lo) (od_order lo)))
                  + GetWaitTime (snd (NextOrder (od_v lo) (od_order lo)))))
              (NextOrder_valid _ _ Hv)) as ([o d] & -> & Hr).
  cbn [bind fst snd].
  destruct o as [o|]; eexists; (split; [reflexivity|]); unfold sound; cbn; split; auto.
Qed.

Lemma add_entry_returns (result : list Departure) (lo : OrderDate) :
  sound lo -> exists result', add_entry result lo = Done result'.
Proof.
  intros [Hb Hv]. unfold add_entry, add_departure. cbv zeta.
  destruct (DepartureType_eqb type D_DEPARTURE); [|eexists; reflexivity].
  match goal with
  | |- context [find_terminus ?v ?f ?i ?o ?s] =>
      destruct (find_terminus_returns v f i Hb o s (NextOrder_valid _ _ Hv)) as [r ->]
  end.
  cbn [bind]. destruct (_ && _); eexists; reflexivity.
Qed.

Lemma departure_loop_returns (i : nat) :
  forall result next_orders least,
    Forall sound next_orders -> sound (snd least) ->
    exists r, departure_loop i result next_orders least = Done r.
Proof.
  induction i as [|i IH]; intros result next_orders least Hn Hl; cbn [departure_loop].
  - eexists; reflexivity.
  - destruct (_ || _); [eexists; reflexivity|].
    destruct (add_entry_returns result (snd least) Hl) as [result' ->].
    destruct (advance_order_returns (snd least) Hl) as (lo & -> & Hlo).
    cbn [bind]. apply IH.
    + apply (set_nth_Forall sound); auto.
    + apply (find_least_order_Q sound); cbn [snd]; auto.
      apply (set_nth_Forall sound); auto.
Qed.

Lemma scan_vehicle_returns (show_pax show_freight : bool) (v : Vehicle) :
  branches_resolve v ->
  exists r,
    scan_vehicle show_pax show_freight v = Done r
    /\ forall od, r = Some od -> sound od.
Proof.
  intros Hb. unfold scan_vehicle.
  destruct (negb _ && negb _); [eexists; split; [reflexivity | discriminate]|].
  assert (Hlt : (cur_implicit_order_index v mod GetNumOrders v < GetNumOrders v)%nat).
  { apply Nat.mod_upper_bound. unfold GetNumOrders.
    destruct Hb as [Hb _]. destruct (orders v); [contradiction | discriminate]. }
  unfold GetOrder.
  destruct (nth_error (orders v) _) as [o|] eqn:E;
    [|apply nth_error_None in E; unfold GetNumOrders in *; lia].
  destruct (stopped_in_depot v); [eexists; split; [reflexivity | discriminate]|].
  cbv zeta.
  match goal with
  | |- context [first_suitable_order v ?i ?o ?s ?st] =>
      destruct (first_suitable_order_returns v i Hb o s st E) as (r & -> & Hr)
  end.
  eexists; split; [reflexivity|].
  intros od ->. destruct (Hr od eq_refl) as [Hv Ho].
  unfold sound. rewrite Hv. auto.
Qed.

Lemma scan_vehicles_returns (show_pax show_freight : bool) (vehicles : list Vehicle) :
  Forall branches_resolve vehicles ->
  forall next_orders least, exists r,
    scan_vehicles show_pax show_freight vehicles next_orders least = Done r.
Proof.
  induction 1 as [|v vs Hv Hvs IH]; intros next_orders least; cbn [scan_vehicles].
  - eexists; reflexivity.
  - destruct (scan_vehicle_returns show_pax show_freight v Hv) as (r & -> & _).
    cbn [bind]. destruct r; apply IH.
Qed.

Lemma scan_types_returns (G : nat -> option (list Vehicle)) (shown : nat -> bool)
    (show_pax show_freight : bool) (types : list nat) :
  (forall i vehicles, G i = Some vehicles -> Forall branches_resolve vehicles) ->
  forall next_orders least, exists log s,
    scan_types G shown show_pax show_freight types next_orders least = (log, Done s).
Proof.
  intros HG. induction types as [|t ts IH]; intros next_orders least;
    cbn [scan_types].
  - eexists _, _; reflexivity.
  - destruct (negb (shown t)); [apply IH|].
    destruct (G t) as [vehicles|] eqn:Et; [|eexists _, _; reflexivity].
    destruct (scan_vehicles_returns show_pax show_freight vehicles (HG _ _ Et)
                next_orders least) as [p ->].
    destruct (IH (fst p) (snd p)) as (log & s & ->).
    eexists _, _; reflexivity.
Qed.

(** [MakeDepartureList] returns a list when the vehicles it is given have
    orders and conditional orders that skip to existing orders. *)
Lemma MakeDepartureList_returns (G : nat -> option (list Vehicle))
    (shown : nat -> bool) (show_pax show_freight : bool) :
  (forall i vehicles, G i = Some vehicles -> Forall branches_resolve vehicles) ->
  exists r, MakeDepartureList G shown show_pax show_freight = Done r.
Proof.
  intros HG. unfold MakeDepartureList, MakeDepartureList_run, MakeDepartureList_from.
  destruct (negb show_pax && negb show_freight); [eexists; reflexivity|].
  destruct (scan_types_returns G shown show_pax show_freight [0; 1; 2; 3]%nat HG
              [] None) as (log & s & E).
  rewrite E. cbn [fst snd bind].
  destruct s as [|next_orders [least|]]; try (eexists; reflexivity).
  destruct (scan_types_Q sound branches_resolve) with
    (G := G) (shown := shown) (show_pax := show_pax) (show_freight := show_freight)
    (types := [0; 1; 2; 3]%nat) (next_orders := @nil OrderDate)
    (least := @None LeastOrder) (log := log) (next_orders' := next_orders)
    (least' := Some least) as [H1 H2]; auto.
  - intros pax fr v od Hv Hs.
    destruct (scan_vehicle_returns pax fr v Hv) as (r & Hr & Hsound).
    rewrite Hs in Hr. inversion Hr; subst. auto.
  - apply departure_loop_returns; auto.
Qed.

(** ** The order of the entries

    The entries come out in the order of the keys under which their
    scheduled orders were chosen: always for departures, and for arrivals
    when the order lists have no implicit orders. *)

Lemma next_suitable_order_valid (v : Vehicle) (late : Z) (i : nat) :
  forall order e o d,
    valid_ref v order ->
    next_suitable_order v late i order e = Done (Some o, d) -> valid_ref v o.
Proof.
  induction i as [|i IH]; intros order e o d Hv H; cbn [next_suitable_order] in H.
  - discriminate.
  - cbv zeta in H.
    repeat split_on H; try discriminate;
      first [ inversion H; subst; exact Hv
            | apply IH in H; eauto using NextOrder_valid, GetOrder_valid ].
Qed.

(** Without implicit orders the date found has the wait time of the order
    found in it. *)
Lemma next_suitable_order_wait (v : Vehicle) (late : Z) (i : nat) :
  no_implicit_orders v ->
  forall order e o d b,
    valid_ref v order ->
    next_suitable_order v late i order e = Done (Some o, d) ->
    b + GetWaitTime (snd order) <= e ->
    b + GetWaitTime (snd o) <= d.
Proof.
  intros Hni.
  induction i as [|i IH]; intros order e o d b Hv H Hb;
    cbn [next_suitable_order] in H.
  - discriminate.
  - cbv zeta in H.
    assert (Himp : IsType (snd order) OT_IMPLICIT = false).
    { unfold no_implicit_orders in Hni. rewrite Forall_forall in Hni.
      apply Hni. eapply nth_error_In; exact Hv. }
    rewrite Himp in H.
    repeat split_on H; try discriminate;
      first [ inversion H; subst; exact Hb
            | eapply IH in H;
              [ exact H
              | eauto using NextOrder_valid, GetOrder_valid
              | times_nonneg; lia ] ].
Qed.

Lemma advance_order_in_order (lo lo' : OrderDate) :
  in_order lo -> advance_order lo = Done lo' ->
  in_order lo' /\ order_key lo <= order_key lo'.
Proof.
  intros (Hk & Hv & Hl & He) H. unfold advance_order in H.
  destruct (next_suitable_order _ _ _ _ _) as [[r d]|] eqn:E; cbn [bind fst snd] in H;
    [|discriminate].
  pose proof (next_suitable_order_bounds _ _ _ _ _ _ _ E) as [Hd Hh].
  assert (Hfit : max_date + od_lateness lo <= INT32_MAX)
    by (rewrite Hl; apply Hk).
  destruct r as [o|]; inversion H; subst lo'; clear H;
    unfold in_order, order_key, arrival_wait; cbn [od_v od_order od_lateness expected_date].
  - assert (Hvo : valid_ref (od_v lo) o)
      by (eapply next_suitable_order_valid; [|exact E]; auto using NextOrder_valid).
    assert (d - od_lateness lo <= max_date) by (apply Hh; congruence).
    split; [repeat split; auto; try apply Hk; lia|].
    destruct (DepartureType_eqb type D_ARRIVAL) eqn:Et.
    + assert (Hni : no_implicit_orders (od_v lo)).
      { apply Hk. destruct type; [discriminate | reflexivity]. }
      pose proof (next_suitable_order_wait _ _ _ Hni _ _ _ _ (expected_date lo)
                    (NextOrder_valid _ _ Hv) E) as Hw.
      times_nonneg. lia.
    + times_nonneg. lia.
  - split; [repeat split; auto; try apply Hk; lia|].
    lia.
Qed.

Lemma find_least_order_spec (l : list OrderDate) :
  forall i least,
    (forall c, In c l ->
       beyond_horizon c
       \/ order_key (snd (find_least_order i l least)) <= order_key c)
    /\ order_key (snd (find_least_order i l least)) <= order_key (snd least)
    /\ (snd (find_least_order i l least) = snd least
        \/ (In (snd (find_least_order i l least)) l
            /\ ~ beyond_horizon (snd (find_least_order i l least)))).
Proof.
  induction l as [|od l IH]; intros i least; cbn [find_least_order].
  - repeat split; [intros c [] | lia | auto].
  - destruct ((order_key (snd least) >? order_key od)
              && (expected_date od - od_lateness od <? max_date)) eqn:E;
      match goal with
      | |- context [find_least_order (S i) l ?x] =>
          destruct (IH (S i) x) as (H1 & H2 & H3)
      end; cbn [snd] in *.
    + apply andb_true_iff in E; destruct E as [E1 E2].
      apply Z.gtb_lt in E1. apply Z.ltb_lt in E2.
      split; [|split].
      * intros c [<-|Hc]; [right; exact H2 | auto].
      * lia.
      * right. destruct H3 as [->|[H3 H4]].
        -- split; [left; reflexivity | unfold beyond_horizon; lia].
        -- split; [right; exact H3 | exact H4].
    + split; [|split].
      * intros c [<-|Hc]; [|auto].
        apply andb_false_iff in E; destruct E as [E|E].
        -- right. rewrite Z.gtb_ltb, Z.ltb_ge in E. lia.
        -- left. apply Z.ltb_ge in E. exact E.
      * exact H2.
      * destruct H3 as [->|[H3 H4]]; [left; reflexivity | right].
        split; [right; exact H3 | exact H4].
Qed.

Lemma In_set_nth (l : list OrderDate) :
  forall n x c, In c (set_nth n x l) -> c = x \/ In c l.
Proof.
  induction l as [|y l IH]; intros n x c H; cbn [set_nth] in H.
  - destruct H.
  - destruct n; destruct H as [<-|H]; cbn; auto.
    destruct (IH n x c H); auto.
Qed.

Lemma smart_terminus_pass_dates (earlier : list Departure) (d : Departure) :
  map scheduled_date (smart_terminus_pass earlier d) = map scheduled_date earlier.
Proof.
  unfold smart_terminus_pass. rewrite map_map. apply map_ext.
  intros e. destruct (shorten_terminus_frame d e) as [t ->]. reflexivity.
Qed.

Lemma ascending_app (l : list Z) (x : Z) :
  StronglySorted Z.le l -> Forall (fun y => y <= x) l ->
  StronglySorted Z.le (l ++ [x]).
Proof.
  induction 1 as [|y l Hs IH Hy]; intros Hf; cbn.
  - repeat constructor.
  - inversion Hf; subst. constructor; [auto|].
    apply Forall_app; split; [exact Hy | repeat constructor; assumption].
Qed.

Lemma add_entry_dates (result : list Departure) (lo : OrderDate)
    (result' : list Departure) :
  add_entry result lo = Done result' ->
  map scheduled_date result' = map scheduled_date result
  \/ map scheduled_date result'
     = map scheduled_date result ++ [cur_date * DAY_TICKS + order_key lo].
Proof.
  intros H. apply add_entry_shape in H.
  destruct H as [->|(d & d0 & Hm & _ & _ & ->)]; [left; reflexivity | right].
  rewrite map_app. cbn [map].
  destruct Hm as (_ & _ & _ & _ & Hd & _). rewrite Hd.
  unfold order_key.
  replace (cur_date * DAY_TICKS + expected_date lo - od_lateness lo - arrival_wait lo)
    with (cur_date * DAY_TICKS
          + (expected_date lo - od_lateness lo - arrival_wait lo)) by lia.
  destruct (_ && _); [rewrite smart_terminus_pass_dates|]; reflexivity.
Qed.

Lemma departure_loop_ascending (i : nat) :
  forall result next_orders least r,
    Forall in_order next_orders -> in_order (snd least) ->
    (forall c, In c next_orders ->
       beyond_horizon c \/ order_key (snd least) <= order_key c) ->
    StronglySorted Z.le (map scheduled_date result) ->
    Forall (fun y => y <= cur_date * DAY_TICKS + order_key (snd least))
      (map scheduled_date result) ->
    departure_loop i result next_orders least = Done r ->
    StronglySorted Z.le (map scheduled_date r).
Proof.
  induction i as [|i IH]; intros result next_orders least r Hn Hl HJ Hs Hb H;
    cbn [departure_loop] in H.
  - inversion H; subst; exact Hs.
  - destruct (_ || _); [inversion H; subst; exact Hs|].
    destruct (add_entry result (snd least)) as [result'|] eqn:Ea; cbn [bind] in H;
      [|discriminate].
    destruct (advance_order (snd least)) as [lo|] eqn:Ead; cbn [bind] in H;
      [|discriminate].
    destruct (advance_order_in_order _ _ Hl Ead) as [Hlo Hkey].
    set (next_orders' := set_nth (fst least) lo next_orders) in *.
    destruct (find_least_order_spec next_orders' O (fst least, lo)) as (F1 & F2 & F3).
    set (least' := find_least_order O next_orders' (fst least, lo)) in *.
    cbn [snd] in F2, F3.
    assert (Hn' : Forall in_order next_orders')
      by (apply (set_nth_Forall in_order); auto).
    assert (Hup : order_key (snd least) <= order_key (snd least')).
    { destruct F3 as [->|[F3 F4]]; [exact Hkey|].
      apply In_set_nth in F3. destruct F3 as [->|F3]; [exact Hkey|].
      destruct (HJ _ F3) as [Hx|Hx]; [contradiction | exact Hx]. }
    assert (Hs' : StronglySorted Z.le (map scheduled_date result')
                  /\ Forall (fun y => y <= cur_date * DAY_TICKS
                                          + order_key (snd least))
                       (map scheduled_date result')).
    { destruct (add_entry_dates _ _ _ Ea) as [->| ->]; [auto|].
      split; [apply ascending_app; assumption|].
      apply Forall_app; split; [exact Hb | repeat constructor; lia]. }
    destruct Hs' as [Hs' Hb'].
    apply (IH result' next_orders' least' r); auto.
    + apply (find_least_order_Q in_order); auto.
    + eapply Forall_impl; [|exact Hb']. cbn. intros y Hy. lia.
Qed.

Lemma scan_vehicle_in_order (show_pax show_freight : bool) (v : Vehicle)
    (od : OrderDate) :
  keeps_order v ->
  scan_vehicle show_pax show_freight v = Done (Some od) -> in_order od.
Proof.
  intros Hk H. apply scan_vehicle_found in H.
  destruct H as (o & s & st & -> & Hv & _ & _ & Hh).
  pose proof (proj1 Hk) as Hfit. unfold lateness_fits in Hfit.
  unfold in_order, make_order_date;
    cbn [od_v od_order od_lateness expected_date].
  split; [exact Hk|]. split; [exact Hv|]. split.
  - destruct (lateness_counter v >? 0) eqn:E;
      [apply Z.gtb_lt in E | rewrite Z.gtb_ltb, Z.ltb_ge in E]; lia.
  - destruct (_ && _); lia.
Qed.

Lemma scan_vehicles_least (show_pax show_freight : bool) (vehicles : list Vehicle) :
  Forall keeps_order vehicles ->
  forall next_orders least next_orders' least',
    Forall in_order next_orders ->
    match least with
    | Some l => in_order (snd l)
                /\ forall c, In c next_orders -> order_key (snd l) <= order_key c
    | None => next_orders = []
    end ->
    scan_vehicles show_pax show_freight vehicles next_orders least
      = Done (next_orders', least') ->
    Forall in_order next_orders'
    /\ match least' with
       | Some l => in_order (snd l)
                   /\ forall c, In c next_orders' -> order_key (snd l) <= order_key c
       | None => next_orders' = []
       end.
Proof.
  induction 1 as [|v vs Hv Hvs IH];
    intros next_orders least next_orders' least' Hn Hl H; cbn [scan_vehicles] in H.
  - inversion H; subst; auto.
  - destruct (scan_vehicle show_pax show_freight v) as [[od|]|] eqn:E;
      cbn [bind] in H; [ | eapply IH; eauto | discriminate].
    apply scan_vehicle_in_order in E; [|exact Hv].
    eapply IH; [ | | exact H]; cbn [append_order fst snd].
    + apply Forall_app; split; auto.
    + destruct least as [l|].
      * destruct Hl as [Hl1 Hl2].
        destruct (order_key (snd l) >? order_key od) eqn:Ek;
          [apply Z.gtb_lt in Ek | rewrite Z.gtb_ltb, Z.ltb_ge in Ek];
          cbn [snd]; (split; [assumption|]);
          intros c Hc; apply in_app_iff in Hc;
          destruct Hc as [Hc|[<-|[]]]; try lia;
          specialize (Hl2 c Hc); lia.
      * subst next_orders. cbn [snd]. split; [exact E|].
        intros c [<-|[]]. lia.
Qed.

Lemma scan_types_least (G : nat -> option (list Vehicle)) (shown : nat -> bool)
    (show_pax show_freight : bool) (types : list nat) :
  (forall i vehicles, G i = Some vehicles -> Forall keeps_order vehicles) ->
  forall next_orders least log next_orders' least',
    Forall in_order next_orders ->
    match least with
    | Some l => in_order (snd l)
                /\ forall c, In c next_orders -> order_key (snd l) <= order_key c
    | None => next_orders = []
    end ->
    scan_types G shown show_pax show_freight types next_orders least
      = (log, Done (Scanned next_orders' least')) ->
    Forall in_order next_orders'
    /\ match least' with
       | Some l => in_order (snd l)
                   /\ forall c, In c next_orders' -> order_key (snd l) <= order_key c
       | None => next_orders' = []
       end.
Proof.
  intros HG.
  induction types as [|t ts IH]; intros next_orders least log next_orders' least' Hn Hl H;
    cbn [scan_types] in H.
  - inversion H; subst; auto.
  - destruct (negb (shown t)); [eapply IH; eauto|].
    destruct (G t) as [vehicles|] eqn:Et; [|discriminate].
    destruct (scan_vehicles _ _ _ _ _) as [[no l]|] eqn:E; [|discriminate].
    apply scan_vehicles_least in E; eauto. destruct E as [E1 E2].
    cbn [fst snd] in H.
    destruct (scan_types G shown show_pax show_freight ts no l) as [log' r'] eqn:E'.
    cbn in H; inversion H; subst.
    eapply IH; eauto.
Qed.

(** The entries of the returned list are in the order of the keys under
    which they were chosen, that is of their scheduled dates, for
    departures and, when no order list has an implicit order, for
    arrivals. *)
Lemma entries_in_order (G : nat -> option (list Vehicle)) (shown : nat -> bool)
    (show_pax show_freight : bool) (r : list Departure) :
  (forall i vehicles, G i = Some vehicles -> Forall keeps_order vehicles) ->
  MakeDepartureList G shown show_pax show_freight = Done r ->
  StronglySorted Z.le (map scheduled_date r).
Proof.
  intros HG. unfold MakeDepartureList, MakeDepartureList_run.
  generalize (100 * 100)%nat. intros safeguard.
  unfold MakeDepartureList_from. intros H.
  destruct (negb show_pax && negb show_freight); cbn [snd] in H.
  - inversion H; subst; constructor.
  - destruct (scan_types _ _ _ _ _ _ _) as [log [[|next_orders [least|]]|]] eqn:E;
      cbn [bind snd fst] in H; try discriminate;
      try (inversion H; subst; constructor).
    apply scan_types_least in E; auto. destruct E as [E1 [E2 E3]].
    eapply departure_loop_ascending; eauto; constructor.
Qed.

(** * Further properties of [MakeDepartureList] *)

(** ** The order of the entries, entry by entry *)

Lemma ascending_nth (l : list Z) :
  StronglySorted Z.le l ->
  forall i j x y, (i <= j)%nat ->
    nth_error l i = Some x -> nth_error l j = Some y -> x <= y.
Proof.
  induction 1 as [|z l Hs IH Hz]; intros i j x y Hij Hi Hj.
  - destruct i; discriminate.
  - destruct i as [|i]; destruct j as [|j]; cbn in Hi, Hj; try lia.
    + inversion Hi; inversion Hj; subst; lia.
    + inversion Hi; subst. rewrite Forall_forall in Hz.
      apply Hz. eapply nth_error_In; exact Hj.
    + apply (IH i j); auto; lia.
Qed.

Lemma longest_leg_nonneg (v : Vehicle) : 0 <= longest_leg v.
Proof.
  unfold longest_leg. induction (orders v) as [|x l IH]; cbn [map fold_right]; lia.
Qed.

Lemma entries_by_horizon (G : nat -> option (list Vehicle)) (shown : nat -> bool)
    (show_pax show_freight : bool) (r : list Departure) :
  MakeDepartureList G shown show_pax show_freight = Done r ->
  Forall (fun d => scheduled_date d <= cur_date * DAY_TICKS + max_date) r.
Proof.
  apply (MakeDepartureList_inv
           (Forall (fun d => scheduled_date d <= cur_date * DAY_TICKS + max_date))
           (fun _ => True) (fun _ => True));
    try apply any_vehicle; auto.
  intros result lo result' HP _ _ Hh Ha.
  apply add_entry_shape in Ha.
  destruct Ha as [->|(e & d0 & Hm & _ & _ & ->)]; auto.
  apply Forall_app; split.
  - apply (made_from_set_terminus
             (fun d => scheduled_date d <= cur_date * DAY_TICKS + max_date)); auto.
  - constructor; [|constructor].
    destruct Hm as (_ & _ & _ & _ & Hd & _). rewrite Hd.
    pose proof (arrival_wait_nonneg lo). lia.
Qed.

(** X1: for departures, and for arrivals of vehicles without implicit
    orders, an entry of the returned list is never scheduled before an
    entry that stands earlier in the list, and no scheduled date exceeds
    [INT32_MAX], when the dates of every vehicle fit ([dates_fit]: the
    date is not negative and, with the horizon, the lateness and the
    longest order of the vehicle, leaves room below [INT32_MAX], so that
    the sum of line 287 does not overflow). *)
Theorem entries_ascending (G : nat -> option (list Vehicle)) (shown : nat -> bool)
    (show_pax show_freight : bool) (r : list Departure)
    (i j : nat) (a b : Departure) :
  (forall k vehicles, G k = Some vehicles ->
     Forall (fun v => dates_fit v /\ (type = D_ARRIVAL -> no_implicit_orders v))
       vehicles) ->
  MakeDepartureList G shown show_pax show_freight = Done r ->
  (i <= j)%nat -> nth_error r i = Some a -> nth_error r j = Some b ->
  scheduled_date a <= scheduled_date b /\ scheduled_date b <= INT32_MAX.
Proof.
  intros HG E Hij Hi Hj.
  assert (HG' : forall k vehicles, G k = Some vehicles -> Forall keeps_order vehicles).
  { intros k vehicles Hk. specialize (HG k vehicles Hk).
    eapply Forall_impl; [|exact HG]. cbn.
    intros v [(H0 & H1 & _ & _ & Hf) Hn]. split; [|exact Hn].
    pose proof (longest_leg_nonneg v).
    unfold lateness_fits. unfold DAY_TICKS in Hf. lia. }
  split.
  - apply (ascending_nth (map scheduled_date r)
             (entries_in_order G shown show_pax show_freight r HG' E) i j); auto;
      rewrite nth_error_map; [rewrite Hi | rewrite Hj]; reflexivity.
  - assert (Hb : dates_fit (vehicle b)
                 /\ scheduled_date b <= cur_date * DAY_TICKS + max_date).
    { apply nth_error_In in Hj. revert b Hj. apply Forall_forall.
      revert E.
      apply (MakeDepartureList_inv
               (Forall (fun d => dates_fit (vehicle d)
                                 /\ scheduled_date d <= cur_date * DAY_TICKS + max_date))
               (fun lo => dates_fit (od_v lo))
               (fun v => dates_fit v /\ (type = D_ARRIVAL -> no_implicit_orders v)));
        [| | | |exact HG].
      - intros result lo result' HP HQ _ Hh Ha.
        apply add_entry_shape in Ha.
        destruct Ha as [->|(e & d0 & Hm & _ & _ & ->)]; auto.
        apply Forall_app; split.
        + apply (made_from_set_terminus
                   (fun d => dates_fit (vehicle d)
                             /\ scheduled_date d <= cur_date * DAY_TICKS + max_date));
            auto.
        + constructor; [|constructor].
          destruct Hm as (Hv & _ & _ & _ & Hd & _). rewrite Hv, Hd.
          pose proof (arrival_wait_nonneg lo). split; [exact HQ | lia].
      - intros lo lo' HQ Ha. apply advance_order_cases in Ha.
        destruct Ha as (Hv & _). rewrite Hv. exact HQ.
      - constructor.
      - intros pax fr v od [Hv _] Hs. apply scan_vehicle_found in Hs.
        destruct Hs as (o & s & st & -> & _). exact Hv. }
    destruct Hb as [(H0 & H1 & _ & _ & Hf) Hs].
    pose proof (longest_leg_nonneg (vehicle b)). lia.
Qed.

(** ** No null order pointer *)

(** X2: when every vehicle of the lists has orders and, under the setting
    that takes branches, every conditional order skips to an order that
    exists, [MakeDepartureList] reads through no null pointer and returns a
    list; under the other settings of [departure_conditionals] the targets
    of the conditional orders play no part. *)
Theorem no_null_order (G : nat -> option (list Vehicle)) (shown : nat -> bool)
    (show_pax show_freight : bool) :
  (forall i vehicles, G i = Some vehicles ->
     Forall (fun v =>
               orders v <> []
               /\ (departure_conditionals cfg = 1%nat ->
                   forall o, In o (orders v) -> IsType o OT_CONDITIONAL = true ->
                     (o_skip_to o < GetNumOrders v)%nat)) vehicles) ->
  exists r, MakeDepartureList G shown show_pax show_freight = Done r.
Proof.
  intros HG. apply MakeDepartureList_returns.
  intros i vehicles Hi. eapply Forall_impl; [|exact (HG i vehicles Hi)].
  intros v [Ho Hb]. split; [exact Ho|].
  intros Hp. apply Forall_forall. intros o Hin Hc. exact (Hb Hp o Hin Hc).
Qed.

(** ** The calls to the vehicle list *)

Lemma scan_types_failure (G : nat -> option (list Vehicle)) (shown : nat -> bool)
    (show_pax show_freight : bool) (types : list nat) (i : nat) :
  In i types -> shown i = true -> G i = None ->
  forall next_orders least,
    snd (scan_types G shown show_pax show_freight types next_orders least)
      = Done ListFailed
    \/ snd (scan_types G shown show_pax show_freight types next_orders least)
       = Undefined.
Proof.
  intros Hin Hs Hg.
  induction types as [|t ts IH]; intros next_orders least; [destruct Hin|].
  cbn [scan_types].
  destruct (Nat.eq_dec t i) as [->|Hne].
  - rewrite Hs, Hg. cbn. auto.
  - assert (Hin' : In i ts) by (destruct Hin; [contradiction | assumption]).
    destruct (negb (shown t)); [apply IH; exact Hin'|].
    destruct (G t) as [vehicles|]; [|cbn; auto].
    destruct (scan_vehicles _ _ _ _ _) as [p|]; [|cbn; auto].
    cbn [snd]. apply IH; exact Hin'.
Qed.

(** X3: when [GenerateVehicleSortList] fails for one of the vehicle types
    that are shown, the list returned is empty, whatever was found for the
    types before it. *)
Theorem list_failure_empty (G : nat -> option (list Vehicle)) (shown : nat -> bool)
    (show_pax show_freight : bool) (r : list Departure) (i : nat) :
  (i < 4)%nat -> shown i = true -> G i = None ->
  MakeDepartureList G shown show_pax show_freight = Done r ->
  r = [].
Proof.
  intros Hi Hs Hg. unfold MakeDepartureList, MakeDepartureList_run, MakeDepartureList_from.
  generalize (100 * 100)%nat; intros safeguard.
  destruct (negb show_pax && negb show_freight); cbn [snd].
  - intros H; inversion H; reflexivity.
  - assert (Hin : In i [0; 1; 2; 3]%nat)
      by (destruct i as [|[|[|[|i]]]]; cbn; auto; lia).
    destruct (scan_types_failure G shown show_pax show_freight _ i Hin Hs Hg [] None)
      as [-> | ->]; cbn [bind]; intros H; [inversion H; reflexivity | discriminate].
Qed.




(** ** An induction principle for one call

    As the principle above, for the vehicles that the call at hand is given
    and the cargo it is to show. *)

Section CallInvariant.

Variable G : nat -> option (list Vehicle).
Variable shown : nat -> bool.
Variables show_pax show_freight : bool.
Variable P : list Departure -> Prop.
Variable Q : OrderDate -> Prop.

Hypothesis add_entry_P : forall result lo result',
  P result -> Q lo ->
  (length result < max_departures cfg)%nat ->
  expected_date lo - od_lateness lo <= max_date ->
  add_entry result lo = Done result' -> P result'.

Hypothesis advance_Q : forall lo lo',
  Q lo -> advance_order lo = Done lo' -> Q lo'.

Hypothesis P_nil : P [].

Hypothesis scanned_Q : forall i vehicles v od,
  (i < 4)%nat -> shown i = true -> G i = Some vehicles -> In v vehicles ->
  scan_vehicle show_pax show_freight v = Done (Some od) -> Q od.

Lemma scan_vehicles_call (vehicles : list Vehicle) :
  (forall v od, In v vehicles ->
     scan_vehicle show_pax show_freight v = Done (Some od) -> Q od) ->
  forall next_orders least next_orders' least',
    Forall Q next_orders ->
    match least with Some l => Q (snd l) | None => True end ->
    scan_vehicles show_pax show_freight vehicles next_orders least
      = Done (next_orders', least') ->
    Forall Q next_orders'
    /\ match least' with Some l => Q (snd l) | None => True end.
Proof.
  induction vehicles as [|v vs IH];
    intros Hv next_orders least next_orders' least' Hn Hl H;
    cbn [scan_vehicles] in H.
  - inversion H; subst; auto.
  - assert (Hvs : forall v' od, In v' vs ->
              scan_vehicle show_pax show_freight v' = Done (Some od) -> Q od)
      by (intros v' od Hin; apply Hv; right; exact Hin).
    destruct (scan_vehicle show_pax show_freight v) as [[od|]|] eqn:E;
      cbn [bind] in H; [ | eapply IH; eauto | discriminate].
    apply (Hv v od (or_introl eq_refl)) in E.
    eapply (IH Hvs); [ | | exact H]; cbn [append_order fst snd].
    + apply Forall_app; split; auto.
    + destruct least as [l|]; [destruct (_ >? _)|]; cbn [snd]; auto.
Qed.

Lemma scan_types_call (types : list nat) :
  (forall i, In i types -> (i < 4)%nat) ->
  forall next_orders least log next_orders' least',
    Forall Q next_orders ->
    match least with Some l => Q (snd l) | None => True end ->
    scan_types G shown show_pax show_freight types next_orders least
      = (log, Done (Scanned next_orders' least')) ->
    Forall Q next_orders'
    /\ match least' with Some l => Q (snd l) | None => True end.
Proof.
  induction types as [|t ts IH];
    intros Ht next_orders least log next_orders' least' Hn Hl H;
    cbn [scan_types] in H.
  - inversion H; subst; auto.
  - assert (Hts : forall i, In i ts -> (i < 4)%nat)
      by (intros i Hi; apply Ht; right; exact Hi).
    destruct (shown t) eqn:Es; cbn [negb] in H; [|eapply IH; eauto].
    destruct (G t) as [vehicles|] eqn:Et; [|discriminate].
    destruct (scan_vehicles _ _ _ _ _) as [[no l]|] eqn:E; [|discriminate].
    apply scan_vehicles_call in E; auto.
    + destruct E as [E1 E2]. cbn [fst snd] in H.
      destruct (scan_types G shown show_pax show_freight ts no l) as [log' r'] eqn:E'.
      cbn in H; inversion H; subst.
      eapply IH; eauto.
    + intros v od Hin. apply (scanned_Q t vehicles); auto.
      apply Ht. left; reflexivity.
Qed.

Lemma MakeDepartureList_call_inv (r : list Departure) :
  MakeDepartureList G shown show_pax show_freight = Done r -> P r.
Proof.
  unfold MakeDepartureList, MakeDepartureList_run.
  generalize (100 * 100)%nat; intros safeguard.
  unfold MakeDepartureList_from; intros H.
  destruct (negb show_pax && negb show_freight); cbn [snd] in H.
  - inversion H; subst; exact P_nil.
  - destruct (scan_types _ _ _ _ _ _ _) as [log [[|next_orders [least|]]|]] eqn:E;
      cbn [bind snd fst] in H; try discriminate; try (inversion H; subst; exact P_nil).
    apply scan_types_call in E; cbn; auto; [|intros i Hi; lia].
    destruct E as [E1 E2].
    exact (departure_loop_inv P Q add_entry_P advance_Q safeguard [] next_orders
             least r P_nil E1 E2 H).
Qed.

End CallInvariant.

(** ** The vehicles of the entries *)

Lemma scan_vehicle_vehicle (show_pax show_freight : bool) (v : Vehicle)
    (od : OrderDate) :
  scan_vehicle show_pax show_freight v = Done (Some od) ->
  od_v od = v
  /\ stopped_in_depot v = false
  /\ orders v <> []
  /\ (show_pax <> show_freight -> carries_passengers v = show_pax).
Proof.
  intros H. pose proof (scan_vehicle_found _ _ _ _ H) as (o & s & st & -> & Hv & _).
  unfold scan_vehicle in H.
  destruct (negb (Bool.eqb show_pax show_freight)
            && negb (Bool.eqb (carries_passengers v) show_pax)) eqn:Ec;
    [discriminate|].
  destruct (GetOrder _ _); [|discriminate].
  destruct (stopped_in_depot v); [discriminate|].
  repeat split.
  - intros Hn. unfold valid_ref in Hv. rewrite Hn in Hv.
    destruct (fst o); discriminate.
  - intros Hne.
    destruct show_pax, show_freight, (carries_passengers v);
      cbn in Ec; try discriminate; try reflexivity; contradiction.
Qed.

(** X5: every entry of the returned list is for a vehicle of one of the
    lists [GenerateVehicleSortList] gave for a shown type; the vehicle is
    not stopped in a depot, and when only one of passengers and freight is
    to be shown, it carries passengers exactly when passengers are. *)
Theorem entry_vehicles (G : nat -> option (list Vehicle)) (shown : nat -> bool)
    (show_pax show_freight : bool) (r : list Departure) (d : Departure) :
  MakeDepartureList G shown show_pax show_freight = Done r ->
  In d r ->
  (exists i vehicles,
     (i < 4)%nat /\ shown i = true /\ G i = Some vehicles
     /\ In (vehicle d) vehicles)
  /\ stopped_in_depot (vehicle d) = false
  /\ (show_pax <> show_freight -> carries_passengers (vehicle d) = show_pax).
Proof.
  intros E Hin.
  set (good := fun v : Vehicle =>
    (exists i vehicles,
       (i < 4)%nat /\ shown i = true /\ G i = Some vehicles /\ In v vehicles)
    /\ stopped_in_depot v = false
    /\ (show_pax <> show_freight -> carries_passengers v = show_pax)).
  assert (H : Forall (fun d => good (vehicle d)) r).
  { revert E.
    apply (MakeDepartureList_call_inv G shown show_pax show_freight
             (Forall (fun d => good (vehicle d))) (fun lo => good (od_v lo))).
    - intros result lo result' HP HQ _ _ Ha.
      apply add_entry_shape in Ha.
      destruct Ha as [->|(e & d0 & Hm & _ & _ & ->)]; auto.
      apply Forall_app; split.
      + apply (made_from_set_terminus (fun d => good (vehicle d))); auto.
      + constructor; [|constructor].
        destruct Hm as (Hv & _). rewrite Hv. exact HQ.
    - intros lo lo' HQ Ha. apply advance_order_cases in Ha.
      destruct Ha as (Hv & _). rewrite Hv. exact HQ.
    - constructor.
    - intros i vehicles v od Hi Hs Hg Hv Hscan.
      apply scan_vehicle_vehicle in Hscan.
      destruct Hscan as (-> & Hd & _ & Hc).
      split; [exists i, vehicles; auto | auto]. }
  rewrite Forall_forall in H. exact (H d Hin).
Qed.

(** ** The orders of the entries *)

Lemma first_suitable_order_suitable (v : Vehicle) (i : nat) :
  forall order start st od,
    first_suitable_order v i order start st = Done (Some od) ->
    suitable (snd (od_order od)) = true
    /\ (od_status od = st \/ od_status od = D_TRAVELLING).
Proof.
  induction i as [|i IH]; intros order start st od H;
    cbn [first_suitable_order] in H.
  - discriminate.
  - cbv zeta in H.
    repeat split_on H; try discriminate;
      first
        [ inversion H; subst od; cbn; auto
        | apply IH in H; destruct H as [H1 [H2|H2]];
          (split; [exact H1|]);
          rewrite H2; destruct st; cbn; auto ].
Qed.

Lemma next_suitable_order_suitable (v : Vehicle) (late : Z) (i : nat) :
  forall order e o d,
    next_suitable_order v late i order e = Done (Some o, d) ->
    suitable (snd o) = true.
Proof.
  induction i as [|i IH]; intros order e o d H; cbn [next_suitable_order] in H.
  - discriminate.
  - cbv zeta in H.
    repeat split_on H; try discriminate;
      first [ inversion H; subst; assumption | eapply IH; exact H ].
Qed.

Lemma suitable_at_station (o : Order) :
  suitable o = true ->
  o_dest o = station
  /\ (IsType o OT_GOTO_STATION = true \/ IsType o OT_GOTO_WAYPOINT = true).
Proof.
  unfold suitable, IsDeparture, IsVia, IsArrival. intros H.
  repeat match goal with
         | H : _ || _ = true |- _ => apply orb_true_iff in H; destruct H as [H|H]
         | H : _ && _ = true |- _ => apply andb_true_iff in H; destruct H
         end;
    match goal with
    | E : (o_dest o =? station) = true |- _ => apply Z.eqb_eq in E
    end; auto.
Qed.

(** X6: every entry of the returned list is for one of the orders of its
    vehicle, and an order that counts as a departure (or a call via the
    station, or an arrival) at the station of the board: a go-to-station or
    go-to-waypoint order whose destination is the station. *)
Theorem entry_orders (G : nat -> option (list Vehicle)) (shown : nat -> bool)
    (show_pax show_freight : bool) (r : list Departure) (d : Departure) :
  MakeDepartureList G shown show_pax show_freight = Done r ->
  In d r ->
  d_type d = type
  /\ nth_error (orders (vehicle d)) (fst (d_order d)) = Some (snd (d_order d))
  /\ suitable (snd (d_order d)) = true
  /\ o_dest (snd (d_order d)) = station
  /\ (IsType (snd (d_order d)) OT_GOTO_STATION = true
      \/ IsType (snd (d_order d)) OT_GOTO_WAYPOINT = true).
Proof.
  intros E Hin.
  set (ok := fun d : Departure =>
    d_type d = type
    /\ valid_ref (vehicle d) (d_order d)
    /\ suitable (snd (d_order d)) = true).
  assert (H : Forall ok r).
  { revert E.
    apply (MakeDepartureList_inv (Forall ok)
             (fun lo => valid_ref (od_v lo) (od_order lo)
                        /\ suitable (snd (od_order lo)) = true)
             (fun _ => True)); try apply any_vehicle.
    - intros result lo result' HP [HQ1 HQ2] _ _ Ha.
      apply add_entry_shape in Ha.
      destruct Ha as [->|(e & d0 & Hm & _ & _ & ->)]; auto.
      apply Forall_app; split.
      + apply (made_from_set_terminus ok); auto.
      + constructor; [|constructor].
        destruct Hm as (Hv & Ho & _ & Ht & _). unfold ok.
        rewrite Hv, Ho. auto.
    - intros lo lo' [HQ1 HQ2] Ha. unfold advance_order in Ha.
      destruct (next_suitable_order _ _ _ _ _) as [[o e]|] eqn:En;
        cbn [bind fst snd] in Ha; [|discriminate].
      destruct o as [o|]; inversion Ha; subst lo'; cbn; [|auto].
      split.
      * eapply next_suitable_order_valid; [|exact En]. apply NextOrder_valid; auto.
      * eapply next_suitable_order_suitable; exact En.
    - constructor.
    - intros pax fr v od _ Hs.
      pose proof (scan_vehicle_found _ _ _ _ Hs) as (o & s & st & Hod & Hv & _).
      unfold scan_vehicle in Hs.
      destruct (negb _ && negb _); [discriminate|].
      destruct (GetOrder _ _); [|discriminate].
      destruct (stopped_in_depot v); [discriminate|]. cbv zeta in Hs.
      apply first_suitable_order_suitable in Hs. destruct Hs as [Hs _].
      subst od. cbn in *. auto. }
  rewrite Forall_forall in H. destruct (H d Hin) as (H1 & H2 & H3).
  destruct (suitable_at_station _ H3) as [H4 H5]. auto.
Qed.

(** ** The status of the entries *)

(** X7: an entry is cancelled only for a vehicle that is heading for a
    depot to stop there, and is shown as arrived only for a vehicle whose
    current order is a loading order. *)
Theorem entry_status (G : nat -> option (list Vehicle)) (shown : nat -> bool)
    (show_pax show_freight : bool) (r : list Departure) (d : Departure) :
  MakeDepartureList G shown show_pax show_freight = Done r ->
  In d r ->
  (status d = D_CANCELLED -> heading_to_halt (vehicle d) = true)
  /\ (status d = D_ARRIVED -> IsType (current_order (vehicle d)) OT_LOADING = true).
Proof.
  intros E Hin.
  set (ok := fun (st : DepartureStatus) (v : Vehicle) =>
    (st = D_CANCELLED -> heading_to_halt v = true)
    /\ (st = D_ARRIVED -> IsType (current_order v) OT_LOADING = true)).
  assert (H : Forall (fun d => ok (status d) (vehicle d)) r).
  { revert E.
    apply (MakeDepartureList_inv (Forall (fun d => ok (status d) (vehicle d)))
             (fun lo => ok (od_status lo) (od_v lo)) (fun _ => True));
      try apply any_vehicle.
    - intros result lo result' HP HQ _ _ Ha.
      apply add_entry_shape in Ha.
      destruct Ha as [->|(e & d0 & Hm & _ & _ & ->)]; auto.
      apply Forall_app; split.
      + apply (made_from_set_terminus (fun d => ok (status d) (vehicle d))); auto.
      + constructor; [|constructor].
        destruct Hm as (Hv & _ & Hs & _). rewrite Hv, Hs. exact HQ.
    - intros lo lo' [HQ1 HQ2] Ha. apply advance_order_cases in Ha.
      destruct Ha as (Hv & _ & Hs & _). unfold ok. rewrite Hv, Hs.
      destruct (od_status lo); cbn; split; intros; auto; discriminate.
    - constructor.
    - intros pax fr v od _ Hs.
      pose proof (scan_vehicle_found _ _ _ _ Hs) as (o & s & st & Hod & _).
      unfold scan_vehicle in Hs.
      destruct (negb _ && negb _); [discriminate|].
      destruct (GetOrder _ _); [|discriminate].
      destruct (stopped_in_depot v); [discriminate|]. cbv zeta in Hs.
      apply first_suitable_order_suitable in Hs. destruct Hs as [_ Hs].
      subst od. cbn in *. unfold ok.
      destruct (IsType (current_order v) OT_LOADING);
        destruct (heading_to_halt v);
        destruct Hs as [-> | ->]; split; intros; auto; discriminate. }
  rewrite Forall_forall in H. exact (H d Hin).
Qed.

(** ** The rows of the departures *)

Lemma Contains_station (l : list CallAt) (c : CallAt) :
  Contains l c = true <-> In (ca_station c) (map ca_station l).
Proof.
  unfold Contains, CallAt_eqb. rewrite existsb_exists, in_map_iff. split.
  - intros (x & Hx & E). apply Z.eqb_eq in E. exists x; auto.
  - intros (x & E & Hx). exists x. split; [exact Hx | apply Z.eqb_eq; exact E].
Qed.

Lemma NoDup_snoc (l : list Z) (x : Z) :
  NoDup l -> ~ In x l -> NoDup (l ++ [x]).
Proof.
  induction 1 as [|y l Hy Hl IH]; intros Hx; cbn.
  - constructor; [intros [] | constructor].
  - constructor.
    + rewrite in_app_iff. intros [H|[H|[]]]; [contradiction | subst; apply Hx; left; reflexivity].
    + apply IH. intros H; apply Hx; right; exact H.
Qed.

Lemma terminus_step_row (v : Vehicle) (first order : OrderRef) (s : TermState)
    (r : loop_step TermState) :
  terminus_step v first order s = Done r ->
  row_kept (t_calling_at s) (t_terminus s) ->
  row_kept (t_calling_at (step_state r)) (t_terminus (step_state r))
  /\ (forall s', r = Break true s' -> t_calling_at s' <> []).
Proof.
  intros H Hk.
  assert (Hend : forall s0 : TermState,
            row_kept (t_calling_at s0) (t_terminus s0) ->
            row_kept (t_calling_at s0) (t_terminus s0)
            /\ (forall s', Break (0 <? length (t_calling_at s0))%nat s0 = Break true s' ->
                 t_calling_at s' <> [])).
  { intros s0 H0. split; [exact H0|].
    intros s' E. inversion E as [[E1 E2]]. subst s'.
    apply Nat.ltb_lt in E1. intros Hn. rewrite Hn in E1. cbn in E1. lia. }
  assert (Hgo : forall (o : OrderRef) (s0 : TermState),
            row_kept (t_calling_at s0) (t_terminus s0) ->
            row_kept (t_calling_at s0) (t_terminus s0)
            /\ (forall s', Continue o s0 = Break true s' -> t_calling_at s' <> [])).
  { intros o s0 H0. split; [exact H0 | discriminate]. }
  unfold terminus_step in H. cbv zeta in H.
  repeat split_on H; try discriminate;
    inversion H; subst r; clear H; cbn [step_state];
    first
      [ match goal with
        | |- _ /\ (forall s', Break _ ?s0 = _ -> _) => apply (Hend s0)
        | |- _ /\ (forall s', Continue ?o ?s0 = _ -> _) => apply (Hgo o s0)
        end
      | split;
        [| intros s' E; inversion E; subst s'; cbn [t_calling_at];
           intros Hn;
           match goal with
           | E' : Contains _ _ = true |- _ => rewrite Hn in E'; discriminate
           end ] ];
    cbn [t_calling_at t_terminus];
    first
      [ exact Hk
      | destruct Hk as [Hn _]; split;
        [ rewrite map_app; apply NoDup_snoc; [exact Hn|];
          rewrite <- Contains_station; congruence
        | intros _; apply in_app_iff; right; left; reflexivity ] ].
Qed.

Lemma find_terminus_row (v : Vehicle) (first : OrderRef) (i : nat) :
  forall order s s',
    find_terminus v first i order s = Done (true, s') ->
    row_kept (t_calling_at s) (t_terminus s) ->
    row_kept (t_calling_at s') (t_terminus s') /\ t_calling_at s' <> [].
Proof.
  induction i as [|i IH]; intros order s s' H Hk; cbn [find_terminus] in H.
  - discriminate.
  - destruct (terminus_step v first order s) as [r|] eqn:E; cbn [bind] in H;
      [|discriminate].
    destruct (terminus_step_row _ _ _ _ _ E Hk) as [Hk' Hb].
    destruct r as [found s1|order1 s1]; cbn [step_state] in Hk'.
    + inversion H; subst. split; [exact Hk' | apply Hb; reflexivity].
    + eapply IH; eauto.
Qed.

Lemma shorten_loop_edges (cs : list CallAt) :
  forall e k,
    ((length (calling_at e) < 2)%nat -> shorten_loop cs e k = e)
    /\ ((k + 2 <= length (calling_at e))%nat ->
        exists t,
          shorten_loop cs e k = set_terminus e t
          /\ (t = terminus e
              \/ exists j, (j + 2 <= length (calling_at e))%nat
                           /\ nth_error (calling_at e) j = Some t)).
Proof.
  induction cs as [|c cs IH]; intros e k; cbn [shorten_loop].
  - split; [reflexivity|].
    intros _. exists (terminus e). split; [symmetry; apply set_terminus_same | auto].
  - split.
    + intros Hlt.
      assert (E : (2 <=? length (calling_at e))%nat = false)
        by (apply Nat.leb_gt; exact Hlt).
      rewrite E, andb_false_r. apply IH. exact Hlt.
    + intros Hk.
      destruct (CallAt_ge (terminus e) c && (2 <=? length (calling_at e))%nat).
      * assert (Hnth : nth_error (calling_at e) k
                       = Some (nth k (calling_at e) (terminus e)))
          by (apply nth_error_nth'; lia).
        destruct (k =? 0)%nat eqn:Ek.
        -- eexists; split; [reflexivity|]. right. exists k; split; [lia | exact Hnth].
        -- apply Nat.eqb_neq in Ek.
           destruct (IH (set_terminus e (nth k (calling_at e) (terminus e)))
                        (k - 1)%nat) as [_ H].
           destruct H as (t & Ht & Hin); [cbn; lia|].
           exists t. rewrite Ht. split; [apply set_terminus_twice|].
           cbn [terminus set_terminus calling_at] in Hin.
           destruct Hin as [->|Hin]; [|right; exact Hin].
           right. exists k; split; [lia | exact Hnth].
      * apply IH. exact Hk.
Qed.

Lemma shorten_terminus_cases (d e : Departure) :
  exists t,
    shorten_terminus d e = set_terminus e t
    /\ (t = terminus e
        \/ exists j, (j + 2 <= length (calling_at e))%nat
                     /\ nth_error (calling_at e) j = Some t).
Proof.
  unfold shorten_terminus.
  destruct (shorten_loop_edges (rev (calling_at d)) e (length (calling_at e) - 2))
    as [H1 H2].
  destruct (Nat.lt_ge_cases (length (calling_at e)) 2) as [Hlt|Hge].
  - exists (terminus e). rewrite (H1 Hlt).
    split; [symmetry; apply set_terminus_same | auto].
  - apply H2. lia.
Qed.

(** X8: the pass that shortens termini leaves alone an earlier departure
    that calls at fewer than two stations, and every earlier departure when
    the new one calls nowhere; a terminus it changes becomes one of the
    calling points of that departure, and never the last of them. *)
Theorem shorten_terminus_edges (d e : Departure) :
  ((length (calling_at e) < 2)%nat -> shorten_terminus d e = e)
  /\ (calling_at d = [] -> shorten_terminus d e = e)
  /\ exists t,
       shorten_terminus d e = set_terminus e t
       /\ (t = terminus e
           \/ exists j, (j + 2 <= length (calling_at e))%nat
                        /\ nth_error (calling_at e) j = Some t).
Proof.
  split; [|split].
  - intros Hlt. unfold shorten_terminus.
    apply (shorten_loop_edges (rev (calling_at d)) e (length (calling_at e) - 2)).
    exact Hlt.
  - intros Hd. unfold shorten_terminus. rewrite Hd. reflexivity.
  - apply shorten_terminus_cases.
Qed.

Lemma shorten_terminus_row (d e : Departure) :
  In (terminus e) (calling_at e) ->
  exists t, shorten_terminus d e = set_terminus e t /\ In t (calling_at e).
Proof.
  intros Hin.
  destruct (shorten_terminus_cases d e) as (t & Ht & [Et|(j & _ & Hj)]);
    exists t; (split; [exact Ht|]);
    [rewrite Et; exact Hin | eapply nth_error_In; exact Hj].
Qed.

(** X9: a departure of the returned list calls at one station at least, at
    no station twice, and its terminus, shortened or not, is one of the
    stations it calls at. *)
Theorem departure_rows (G : nat -> option (list Vehicle)) (shown : nat -> bool)
    (show_pax show_freight : bool) (r : list Departure) (d : Departure) :
  type = D_DEPARTURE ->
  MakeDepartureList G shown show_pax show_freight = Done r ->
  In d r ->
  calling_at d <> []
  /\ NoDup (map ca_station (calling_at d))
  /\ In (terminus d) (calling_at d).
Proof.
  intros Ht E Hin.
  set (ok := fun d : Departure =>
    calling_at d <> []
    /\ NoDup (map ca_station (calling_at d))
    /\ In (terminus d) (calling_at d)).
  assert (H : Forall ok r).
  { revert E.
    apply (MakeDepartureList_inv (Forall ok) (fun _ => True) (fun _ => True));
      try apply any_vehicle; auto.
    intros result lo result' HP _ _ _ Ha.
    unfold add_entry in Ha. rewrite Ht in Ha. cbn [DepartureType_eqb] in Ha.
    unfold add_departure in Ha. cbv zeta in Ha.
    destruct (find_terminus _ _ _ _ _) as [[found s']|] eqn:Ef; cbn [bind fst snd] in Ha;
      [|discriminate].
    destruct (found && negb _) eqn:Ec; inversion Ha; subst result'; auto.
    apply andb_true_iff in Ec. destruct Ec as [-> _].
    apply find_terminus_row in Ef;
      [|cbn; split; [constructor | intros Hn; contradiction]].
    destruct Ef as [[Hn Hinl] Hne].
    apply Forall_app; split.
    - destruct (departure_smart_terminus cfg && _); [|exact HP].
      unfold smart_terminus_pass. apply Forall_forall.
      intros x Hx. apply in_map_iff in Hx. destruct Hx as (e & <- & He).
      rewrite Forall_forall in HP. destruct (HP e He) as (P1 & P2 & P3).
      match goal with
      | |- ok (shorten_terminus ?d0 e) =>
          destruct (shorten_terminus_row d0 e P3) as (t & -> & Hin')
      end.
      unfold ok; cbn. auto.
    - constructor; [|constructor].
      unfold ok, display_lateness.
      destruct (negb _ && _); cbn; auto. }
  rewrite Forall_forall in H. exact (H d Hin).
Qed.

(** ** The rows of the arrivals *)

Lemma find_origin_found (v : Vehicle) (first : OrderRef) (fuel : nat) :
  forall c c',
    find_origin v first fuel c = (true, c') ->
    o_dest (snd c') <> station
    /\ found_collision v first c' (GetNumOrders v) (NextOrder v c') = false.
Proof.
  induction fuel as [|fuel IH]; intros c c' H; cbn [find_origin] in H.
  - discriminate.
  - destruct (fst c =? fst first)%nat; [discriminate|].
    destruct (loads_here (snd c) && is_station_or_implicit (snd c)
              && negb (o_dest (snd c) =? station)
              && negb (found_collision v first c (GetNumOrders v) (NextOrder v c)))
      eqn:E.
    + inversion H; subst c'.
      apply andb_true_iff in E. destruct E as [E E2].
      apply andb_true_iff in E. destruct E as [_ E1].
      apply negb_true_iff in E1, E2. apply Z.eqb_neq in E1. auto.
    + eapply IH; exact H.
Qed.

Lemma arrival_calling_at_clear (v : Vehicle) (first c : OrderRef) (fuel : nat)
    (P : CallAt -> Prop) :
  (forall o, is_station_or_implicit o = true ->
     o_dest o <> o_dest (snd c) -> o_dest o <> station -> P (CallAt1 (o_dest o))) ->
  forall o acc,
    found_collision v first c fuel o = false ->
    Forall P acc ->
    Forall P (arrival_calling_at v first fuel o acc).
Proof.
  intros HP. induction fuel as [|fuel IH]; intros o acc Hc Hacc;
    cbn [arrival_calling_at found_collision] in *.
  - exact Hacc.
  - destruct (fst o =? fst first)%nat; [exact Hacc|].
    destruct (is_unload_all (snd o)); [discriminate|].
    destruct (is_station_or_implicit (snd o)
              && ((o_dest (snd o) =? o_dest (snd c)) || (o_dest (snd o) =? station)))
      eqn:E; [discriminate|].
    apply IH; [exact Hc|].
    destruct (IsType (snd o) OT_GOTO_STATION && loads_here (snd o)) eqn:Eg;
      [|exact Hacc].
    apply Forall_app; split; [exact Hacc|]. constructor; [|constructor].
    apply andb_true_iff in Eg. destruct Eg as [Eg _].
    assert (Hs : is_station_or_implicit (snd o) = true)
      by (unfold is_station_or_implicit; rewrite Eg; reflexivity).
    rewrite Hs in E. cbn in E. apply orb_false_iff in E. destruct E as [E1 E2].
    apply Z.eqb_neq in E1, E2. apply HP; auto.
Qed.

(** X10: an arrival of the returned list has no via station; the station
    it is shown to come from is not the station of the board; between that
    origin and the arrival the vehicle calls neither at the station of the
    board nor at the origin again; and none of these stations has a
    date. *)
Theorem arrival_rows (G : nat -> option (list Vehicle)) (shown : nat -> bool)
    (show_pax show_freight : bool) (r : list Departure) (d : Departure) :
  type = D_ARRIVAL ->
  MakeDepartureList G shown show_pax show_freight = Done r ->
  In d r ->
  via d = INVALID_STATION
  /\ ca_station (terminus d) <> station
  /\ ca_scheduled_date (terminus d) = 0
  /\ Forall (fun c => ca_station c <> station
                      /\ ca_station c <> ca_station (terminus d)
                      /\ ca_scheduled_date c = 0) (calling_at d).
Proof.
  intros Ht E Hin.
  set (ok := fun d : Departure =>
    via d = INVALID_STATION
    /\ ca_station (terminus d) <> station
    /\ ca_scheduled_date (terminus d) = 0
    /\ Forall (fun c => ca_station c <> station
                        /\ ca_station c <> ca_station (terminus d)
                        /\ ca_scheduled_date c = 0) (calling_at d)).
  assert (H : Forall ok r).
  { revert E.
    apply (MakeDepartureList_inv (Forall ok) (fun _ => True) (fun _ => True));
      try apply any_vehicle; auto.
    intros result lo result' HP _ _ _ Ha.
    unfold add_entry in Ha. rewrite Ht in Ha. cbn [DepartureType_eqb] in Ha.
    unfold add_arrival in Ha. cbv zeta in Ha.
    destruct (find_origin _ _ _ _) as [found c] eqn:Ef. cbn [fst snd] in Ha.
    destruct (found && negb _) eqn:Ec; inversion Ha; subst result'; auto.
    apply andb_true_iff in Ec. destruct Ec as [-> _].
    apply find_origin_found in Ef. destruct Ef as [Hd Hc].
    apply Forall_app; split; [exact HP|]. constructor; [|constructor].
    unfold ok; cbn. repeat split; auto.
    apply (arrival_calling_at_clear (od_v lo) (od_order lo) c);
      [intros o _ H1 H2; cbn; auto | exact Hc | constructor]. }
  rewrite Forall_forall in H. exact (H d Hin).
Qed.

(** ** The least order *)

Lemma find_least_order_index (l : list OrderDate) :
  forall i least,
    find_least_order i l least = least
    \/ ((i <= fst (find_least_order i l least))%nat
        /\ nth_error l (fst (find_least_order i l least) - i)
           = Some (snd (find_least_order i l least))
        /\ ~ beyond_horizon (snd (find_least_order i l least))
        /\ order_key (snd (find_least_order i l least)) < order_key (snd least)).
Proof.
  induction l as [|od l IH]; intros i least; cbn [find_least_order].
  - left. reflexivity.
  - destruct ((order_key (snd least) >? order_key od)
              && (expected_date od - od_lateness od <? max_date)) eqn:Ec.
    + apply andb_true_iff in Ec. destruct Ec as [E1 E2].
      apply Z.gtb_lt in E1. apply Z.ltb_lt in E2.
      right. destruct (IH (S i) (i, od)) as [E|(H1 & H2 & H3 & H4)].
      * rewrite E. cbn [fst snd]. rewrite Nat.sub_diag. cbn.
        repeat split; auto. unfold beyond_horizon. lia.
      * cbn [fst snd] in H4.
        replace (fst (find_least_order (S i) l (i, od)) - i)%nat
          with (S (fst (find_least_order (S i) l (i, od)) - S i)) by lia.
        cbn [nth_error]. repeat split; auto; lia.
    + destruct (IH (S i) least) as [E|(H1 & H2 & H3 & H4)]; [left; exact E|].
      right.
      replace (fst (find_least_order (S i) l least) - i)%nat
        with (S (fst (find_least_order (S i) l least) - S i)) by lia.
      cbn [nth_error]. repeat split; auto; lia.
Qed.

(** X11: the search for the least order (lines 629-643) ends at a
    scheduled order whose key no order within the horizon is below; it
    either stays where it started, or points at an order of the list that
    is within the horizon and has a key below the one it started from. *)
Theorem least_order_search (next_orders : list OrderDate) (least : LeastOrder) :
  (forall c, In c next_orders ->
     beyond_horizon c
     \/ order_key (snd (find_least_order O next_orders least)) <= order_key c)
  /\ (find_least_order O next_orders least = least
      \/ (nth_error next_orders (fst (find_least_order O next_orders least))
          = Some (snd (find_least_order O next_orders least))
          /\ ~ beyond_horizon (snd (find_least_order O next_orders least))
          /\ order_key (snd (find_least_order O next_orders least))
             < order_key (snd least))).
Proof.
  split.
  - apply find_least_order_spec.
  - destruct (find_least_order_index next_orders O least)
      as [E|(_ & H2 & H3 & H4)]; [left; exact E|].
    right. rewrite Nat.sub_0_r in H2. auto.
Qed.

Lemma append_order_first_least (next_orders : list OrderDate)
    (least : option LeastOrder) (od : OrderDate) :
  first_least next_orders least ->
  first_least (fst (append_order next_orders least od))
    (snd (append_order next_orders least od)).
Proof.
  unfold append_order, first_least. cbn [fst snd].
  destruct least as [l|].
  - intros (H1 & H2 & H3).
    assert (Hlt : (fst l < length next_orders)%nat)
      by (apply nth_error_Some; rewrite H1; discriminate).
    destruct (order_key (snd l) >? order_key od) eqn:Ec; cbn [fst snd].
    + apply Z.gtb_lt in Ec. split; [|split].
      * rewrite nth_error_app2, Nat.sub_diag; [reflexivity | lia].
      * intros c Hc. apply in_app_iff in Hc.
        destruct Hc as [Hc|[<-|[]]]; [specialize (H2 c Hc)|]; lia.
      * intros j c Hj Hc. rewrite nth_error_app1 in Hc by exact Hj.
        apply nth_error_In in Hc. specialize (H2 c Hc). lia.
    + assert (Hle : order_key (snd l) <= order_key od)
        by (destruct (Z.gtb_spec (order_key (snd l)) (order_key od));
            [discriminate | lia]).
      split; [|split].
      * rewrite nth_error_app1 by exact Hlt. exact H1.
      * intros c Hc. apply in_app_iff in Hc.
        destruct Hc as [Hc|[<-|[]]]; [apply H2; exact Hc | exact Hle].
      * intros j c Hj Hc. rewrite nth_error_app1 in Hc by lia.
        eapply H3; eauto.
  - intros ->. cbn. split; [reflexivity|]. split.
    + intros c [<-|[]]. lia.
    + intros j c Hj. lia.
Qed.

Lemma scan_vehicles_first_least (show_pax show_freight : bool)
    (vehicles : list Vehicle) :
  forall next_orders least p,
    scan_vehicles show_pax show_freight vehicles next_orders least = Done p ->
    first_least next_orders least -> first_least (fst p) (snd p).
Proof.
  induction vehicles as [|v vehicles IH]; intros next_orders least p H Hf;
    cbn [scan_vehicles] in H.
  - inversion H; subst. exact Hf.
  - destruct (scan_vehicle show_pax show_freight v) as [[od|]|]; cbn [bind] in H;
      [| |discriminate].
    + eapply IH; [exact H|]. apply append_order_first_least. exact Hf.
    + eapply IH; eauto.
Qed.

Lemma scan_types_first_least (G : nat -> option (list Vehicle)) (shown : nat -> bool)
    (show_pax show_freight : bool) (types : list nat) :
  forall next_orders least next_orders' least',
    snd (scan_types G shown show_pax show_freight types next_orders least)
    = Done (Scanned next_orders' least') ->
    first_least next_orders least -> first_least next_orders' least'.
Proof.
  induction types as [|i types IH]; intros next_orders least next_orders' least' H Hf;
    cbn [scan_types] in H.
  - inversion H; subst. exact Hf.
  - destruct (negb (shown i)); [eapply IH; eauto|].
    destruct (G i) as [vehicles|]; [|discriminate].
    destruct (scan_vehicles show_pax show_freight vehicles next_orders least)
      as [p|] eqn:E; [|discriminate].
    cbn [snd] in H. eapply IH; [exact H|].
    eapply scan_vehicles_first_least; eauto.
Qed.

(** X12: when the vehicles have been gone through (lines 110-260), the
    least order is unset exactly when no scheduled order was found;
    otherwise it points at a scheduled order whose key none is below, and
    at the first of these in the order in which they were found. *)
Theorem first_least_order (G : nat -> option (list Vehicle)) (shown : nat -> bool)
    (show_pax show_freight : bool) (next_orders : list OrderDate)
    (least : option LeastOrder) :
  snd (scan_types G shown show_pax show_freight [0; 1; 2; 3]%nat [] None)
  = Done (Scanned next_orders least) ->
  first_least next_orders least.
Proof.
  intros H. eapply scan_types_first_least; [exact H | reflexivity].
Qed.

(** ** The scheduled orders *)

(** X13: the scheduled order found for a vehicle (lines 127-258) is one
    of its orders and suitable for the board; its lateness is the lateness
    of the vehicle, or zero for a vehicle that is early; and it is within
    the horizon. *)
Theorem scanned_order (show_pax show_freight : bool) (v : Vehicle) (od : OrderDate) :
  scan_vehicle show_pax show_freight v = Done (Some od) ->
  od_v od = v
  /\ valid_ref v (od_order od)
  /\ suitable (snd (od_order od)) = true
  /\ od_lateness od = Z.max 0 (lateness_counter v)
  /\ expected_date od - od_lateness od <= max_date.
Proof.
  intros H.
  destruct (scan_vehicle_found _ _ _ _ H) as (order & start & st & -> & Hv & _ & _ & Hm).
  assert (Hs : suitable (snd (od_order (make_order_date v order start st))) = true).
  { unfold scan_vehicle in H. repeat split_on H; try discriminate;
      apply first_suitable_order_suitable in H; apply H. }
  split; [reflexivity|]. split; [exact Hv|]. split; [exact Hs|].
  unfold make_order_date. cbn [od_lateness expected_date].
  destruct (lateness_counter v >? 0) eqn:E1;
    destruct (lateness_counter v <? 0) eqn:E2;
    destruct (negb (IsType (current_order v) OT_LOADING)); cbn [andb];
    try apply Z.gtb_lt in E1; try apply Z.ltb_lt in E2;
    try (apply Z.ltb_ge in E2);
    try (assert (lateness_counter v <= 0)
           by (destruct (Z.gtb_spec (lateness_counter v) 0); [discriminate | lia]));
    split; lia.
Qed.

(** X14: moving a scheduled order on (lines 546-626) keeps its vehicle and
    its lateness and never leaves it at "arrived".  Either no further order
    is found, and the order stays where it is with the greatest date there
    is; or the order moves to an order of the vehicle that is suitable for
    the board, at a date that is not earlier and within the horizon. *)
Theorem advance_order_effect (lo lo' : OrderDate) :
  valid_ref (od_v lo) (od_order lo) ->
  advance_order lo = Done lo' ->
  od_v lo' = od_v lo
  /\ od_lateness lo' = od_lateness lo
  /\ od_status lo' <> D_ARRIVED
  /\ ((od_order lo' = od_order lo /\ expected_date lo' = INT32_MAX)
      \/ (valid_ref (od_v lo) (od_order lo')
          /\ suitable (snd (od_order lo')) = true
          /\ expected_date lo <= expected_date lo'
          /\ expected_date lo' - od_lateness lo' <= max_date)).
Proof.
  intros Hv H. unfold advance_order in H. cbv zeta in H.
  destruct (next_suitable_order _ _ _ _ _) as [[r d]|] eqn:E; cbn [bind fst snd] in H;
    [|discriminate].
  assert (Hst : (if DepartureStatus_eqb (od_status lo) D_ARRIVED
                 then D_TRAVELLING else od_status lo) <> D_ARRIVED)
    by (destruct (od_status lo); cbn; discriminate).
  destruct (next_suitable_order_bounds _ _ _ _ _ _ _ E) as [Hle Hmax].
  assert (Hge : expected_date lo <= d).
  { assert (0 <= GetTravelTime (snd (NextOrder (od_v lo) (od_order lo)))
            /\ 0 <= GetWaitTime (snd (NextOrder (od_v lo) (od_order lo))))
      by (unfold GetTravelTime, GetWaitTime; lia).
    lia. }
  destruct r as [order'|]; inversion H; subst lo'; clear H;
    cbn [od_v od_lateness od_status od_order expected_date];
    repeat split; auto.
  right. repeat split; auto.
  - eapply next_suitable_order_valid; [|exact E]. apply NextOrder_valid. exact Hv.
  - eapply next_suitable_order_suitable; exact E.
  - apply Hmax. discriminate.
Qed.


(** ** What the terminus loop keeps from order to order *)

Lemma terminus_step_valid (v : Vehicle) (first order : OrderRef) (s : TermState)
    (o : OrderRef) (s' : TermState) :
  valid_ref v order ->
  terminus_step v first order s = Done (Continue o s') -> valid_ref v o.
Proof.
  unfold terminus_step. cbv zeta. intros Hv H.
  repeat split_on H; try discriminate; inversion H; subst;
    try (apply NextOrder_valid; exact Hv);
    eapply GetOrder_valid; eassumption.
Qed.

Section TerminusInvariant.

Variable v : Vehicle.
Variable first : OrderRef.
Variable I : TermState -> Prop.

Hypothesis step_I : forall order s r,
  valid_ref v order -> I s ->
  terminus_step v first order s = Done r -> I (step_state r).

Lemma find_terminus_inv (i : nat) :
  forall order s found s',
    valid_ref v order -> I s ->
    find_terminus v first i order s = Done (found, s') -> I s'.
Proof.
  induction i as [|i IH]; intros order s found s' Hv Hi H; cbn [find_terminus] in H.
  - inversion H; subst. exact Hi.
  - destruct (terminus_step v first order s) as [r|] eqn:E; cbn [bind] in H;
      [|discriminate].
    pose proof (step_I _ _ _ Hv Hi E) as Hi'.
    destruct r as [b s1|order1 s1]; cbn [step_state] in Hi'.
    + inversion H; subst. exact Hi'.
    + eapply IH; [|exact Hi'|exact H].
      eapply terminus_step_valid; eauto.
Qed.

End TerminusInvariant.

Lemma valid_ref_In (v : Vehicle) (p : OrderRef) :
  valid_ref v p -> In (snd p) (orders v).
Proof. unfold valid_ref. apply nth_error_In. Qed.

Lemma terminus_step_dated (v : Vehicle) (first order : OrderRef) (sd : Z)
    (s : TermState) (r : loop_step TermState) :
  timetabled v -> 0 < sd ->
  valid_ref v order -> dated sd s ->
  terminus_step v first order s = Done r -> dated sd (step_state r).
Proof.
  intros Ht Hsd Hv (H1 & H2 & H3) H.
  assert (Ho : GetTravelTime (snd order) <> 0
               \/ o_travel_timetabled (snd order) = true).
  { unfold timetabled in Ht. rewrite Forall_forall in Ht.
    apply Ht. apply valid_ref_In. exact Hv. }
  assert (Hc : negb (ca_scheduled_date (t_c s) =? 0)
               && (negb (GetTravelTime (snd order) =? 0)
                   || o_travel_timetabled (snd order)) = true).
  { apply andb_true_iff. split.
    - apply negb_true_iff, Z.eqb_neq. lia.
    - destruct Ho as [Ho|Ho]; [|rewrite Ho; apply orb_true_r].
      apply orb_true_iff. left. apply negb_true_iff, Z.eqb_neq. exact Ho. }
  pose proof (GetTravelTime_nonneg (snd order)) as Htr.
  pose proof (GetWaitTime_nonneg (snd order)) as Hw.
  unfold terminus_step in H. cbv zeta in H. rewrite Hc in H.
  assert (Hkeep : forall c' : CallAt,
            ca_scheduled_date (t_c s) <= ca_scheduled_date c' ->
            forall cv vi tm,
              dated sd (mkTermState c' cv vi tm (t_calling_at s))).
  { intros c' Hle cv vi tm. unfold dated. cbn.
    split; [lia|]. split; [exact H2|].
    eapply Forall_impl; [|exact H3]. cbn. intros; lia. }
  assert (Hadd : forall (c c' : CallAt),
            ca_scheduled_date (t_c s) <= ca_scheduled_date c ->
            ca_scheduled_date c <= ca_scheduled_date c' ->
            forall cv vi tm,
              dated sd (mkTermState c' cv vi tm (t_calling_at s ++ [c]))).
  { intros c c' Hle Hle' cv vi tm. unfold dated. cbn.
    split; [lia|]. split.
    - rewrite map_app. cbn [map].
      change (StronglySorted Z.le
                ((sd :: map ca_scheduled_date (t_calling_at s))
                 ++ [ca_scheduled_date c])).
      apply ascending_app; [exact H2|].
      constructor; [lia|].
      apply Forall_map. eapply Forall_impl; [|exact H3]. cbn. intros; lia.
    - apply Forall_app. split.
      + eapply Forall_impl; [|exact H3]. cbn. intros; lia.
      + constructor; [lia | constructor]. }
  repeat split_on H; try discriminate;
    inversion H; subst r; clear H; cbn [step_state];
    first
      [ exact (conj H1 (conj H2 H3))
      | apply Hkeep; cbn; lia
      | apply Hadd; cbn; lia ].
Qed.

Lemma advance_order_valid (lo lo' : OrderDate) :
  valid_ref (od_v lo) (od_order lo) -> advance_order lo = Done lo' ->
  valid_ref (od_v lo') (od_order lo').
Proof.
  intros Hv Ha.
  destruct (advance_order_cases _ _ Ha) as (Hv' & _). rewrite Hv'.
  unfold advance_order in Ha.
  destruct (next_suitable_order _ _ _ _ _) as [[o e]|] eqn:En;
    cbn [bind fst snd] in Ha; [|discriminate].
  destruct o as [o|]; inversion Ha; subst lo'; cbn; [|exact Hv].
  eapply next_suitable_order_valid; [|exact En]. apply NextOrder_valid; auto.
Qed.

Lemma scan_vehicle_valid (show_pax show_freight : bool) (v : Vehicle)
    (od : OrderDate) :
  scan_vehicle show_pax show_freight v = Done (Some od) ->
  valid_ref (od_v od) (od_order od).
Proof.
  intros Hs.
  pose proof (scan_vehicle_found _ _ _ _ Hs) as (o & st0 & st & -> & Hvo & _).
  exact Hvo.
Qed.

Lemma longest_leg_In (v : Vehicle) (o : Order) :
  In o (orders v) -> GetTravelTime o + GetWaitTime o <= longest_leg v.
Proof.
  unfold longest_leg. induction (orders v) as [|x l IH]; intros Hin; [contradiction|].
  cbn [map fold_right]. destruct Hin as [->|Hin]; [lia|].
  specialize (IH Hin). lia.
Qed.

Lemma terminus_step_bound (v : Vehicle) (first order : OrderRef) (s : TermState)
    (r : loop_step TermState) (B M : Z) :
  GetTravelTime (snd order) + GetWaitTime (snd order) <= M ->
  0 <= B ->
  ca_scheduled_date (t_c s) <= B ->
  Forall (fun c => ca_scheduled_date c <= B) (t_calling_at s) ->
  terminus_step v first order s = Done r ->
  ca_scheduled_date (t_c (step_state r)) <= B + M
  /\ Forall (fun c => ca_scheduled_date c <= B + M) (t_calling_at (step_state r)).
Proof.
  intros HM HB Hc Hl H.
  pose proof (GetTravelTime_nonneg (snd order)) as Htr.
  pose proof (GetWaitTime_nonneg (snd order)) as Hw.
  assert (Hl' : Forall (fun c => ca_scheduled_date c <= B + M) (t_calling_at s))
    by (eapply Forall_impl; [|exact Hl]; cbn; intros; lia).
  unfold terminus_step in H. cbv zeta in H.
  repeat split_on H; try discriminate;
    inversion H; subst r; clear H;
    cbn [step_state t_c t_calling_at ca_scheduled_date];
    (split; [lia|]);
    first
      [ exact Hl'
      | apply Forall_app; split; [exact Hl'|];
        constructor; [cbn; lia | constructor] ].
Qed.

Lemma find_terminus_bound (v : Vehicle) (first : OrderRef) (M : Z) :
  (forall o, In o (orders v) -> GetTravelTime o + GetWaitTime o <= M) ->
  forall i order s found s' B,
    valid_ref v order -> 0 <= B ->
    ca_scheduled_date (t_c s) <= B ->
    Forall (fun c => ca_scheduled_date c <= B) (t_calling_at s) ->
    find_terminus v first i order s = Done (found, s') ->
    Forall (fun c => ca_scheduled_date c <= B + Z.of_nat i * M) (t_calling_at s').
Proof.
  intros HM. induction i as [|i IH]; intros order s found s' B Hv HB Hc Hl H;
    cbn [find_terminus] in H.
  - inversion H; subst. eapply Forall_impl; [|exact Hl]. cbn. intros; lia.
  - destruct (terminus_step v first order s) as [r|] eqn:E; cbn [bind] in H;
      [|discriminate].
    assert (Hleg : GetTravelTime (snd order) + GetWaitTime (snd order) <= M)
      by (apply HM; apply valid_ref_In; exact Hv).
    assert (HM0 : 0 <= M).
    { pose proof (GetTravelTime_nonneg (snd order)).
      pose proof (GetWaitTime_nonneg (snd order)). lia. }
    destruct (terminus_step_bound _ _ _ _ _ B M Hleg HB Hc Hl E) as [Hc' Hl'].
    rewrite Nat2Z.inj_succ, Z.mul_succ_l.
    destruct r as [b s1|order1 s1]; cbn [step_state] in Hc', Hl'.
    + inversion H; subst. eapply Forall_impl; [|exact Hl']. cbn. intros; nia.
    + assert (Hi : Forall (fun c => ca_scheduled_date c <= B + M + Z.of_nat i * M)
                     (t_calling_at s')).
      { eapply (IH order1 s1 found s' (B + M)); auto; [|lia].
        eapply terminus_step_valid; eauto. }
      eapply Forall_impl; [|exact Hi]. cbn. intros; lia.
Qed.

(** X16: on a departure board, take an entry scheduled after tick zero
    for a vehicle whose orders all have a travel time (or a timetabled one
    of zero), and such that as many of its longest orders as it has
    orders, added to the horizon, stay within [INT32_MAX], the date being
    not negative.  The calling
    points of the entry are dated in ascending order, none before the
    scheduled date of the entry, and none beyond [INT32_MAX] (the sums of
    lines 370, 384 and 416 do not overflow). *)
Theorem calling_dates (G : nat -> option (list Vehicle)) (shown : nat -> bool)
    (show_pax show_freight : bool) (r : list Departure) (d : Departure) :
  type = D_DEPARTURE ->
  MakeDepartureList G shown show_pax show_freight = Done r ->
  In d r ->
  timetabled (vehicle d) -> legs_fit (vehicle d) ->
  0 < scheduled_date d ->
  StronglySorted Z.le (scheduled_date d :: map ca_scheduled_date (calling_at d))
  /\ Forall (fun c => ca_scheduled_date c <= INT32_MAX) (calling_at d).
Proof.
  intros Ht E Hin.
  set (ok := fun d : Departure =>
    timetabled (vehicle d) -> legs_fit (vehicle d) ->
    0 < scheduled_date d ->
    StronglySorted Z.le (scheduled_date d :: map ca_scheduled_date (calling_at d))
    /\ Forall (fun c => ca_scheduled_date c <= INT32_MAX) (calling_at d)).
  assert (H : Forall ok r).
  { revert E.
    apply (MakeDepartureList_inv (Forall ok)
             (fun lo => valid_ref (od_v lo) (od_order lo)) (fun _ => True));
      try apply any_vehicle.
    - intros result lo result' HP Hv _ Hh Ha.
      unfold add_entry in Ha. rewrite Ht in Ha. cbn [DepartureType_eqb] in Ha.
      unfold add_departure in Ha. cbv zeta in Ha.
      destruct (find_terminus _ _ _ _ _) as [[found s']|] eqn:Ef;
        cbn [bind fst snd] in Ha; [|discriminate].
      destruct (found && negb _) eqn:Ec; inversion Ha; subst result'; auto.
      apply Forall_app; split.
      + destruct (departure_smart_terminus cfg && _); [|exact HP].
        unfold smart_terminus_pass. apply Forall_forall.
        intros x Hx. apply in_map_iff in Hx. destruct Hx as (e & <- & He).
        rewrite Forall_forall in HP. specialize (HP e He).
        match goal with
        | |- ok (shorten_terminus ?d0 e) =>
            destruct (shorten_terminus_cases d0 e) as (t & -> & _)
        end.
        exact HP.
      + constructor; [|constructor].
        assert (Hd : ok (mkDeparture (scheduled_date (new_departure lo))
                           (lateness (new_departure lo)) (t_terminus s')
                           (t_via s') (t_calling_at s') (status (new_departure lo))
                           (d_type (new_departure lo)) (vehicle (new_departure lo))
                           (d_order (new_departure lo)))).
        { unfold ok. cbn [scheduled_date calling_at vehicle new_departure].
          intros Htt Hfit Hsd. split.
          - refine (proj1 (proj2
                      (find_terminus_inv (od_v lo) (od_order lo)
                         (dated (scheduled_date (new_departure lo)))
                         _ _ _ _ _ _ _ _ Ef))).
            + intros order s r0. apply terminus_step_dated; assumption.
            + apply NextOrder_valid. exact Hv.
            + unfold dated. cbn. split; [lia|]. split; repeat constructor.
          - assert (Hb : Forall
                      (fun c => ca_scheduled_date c
                                <= scheduled_date (new_departure lo)
                                   + Z.of_nat (GetNumOrders (od_v lo))
                                     * longest_leg (od_v lo))
                      (t_calling_at s')).
            { refine (find_terminus_bound (od_v lo) (od_order lo)
                        (longest_leg (od_v lo)) (longest_leg_In (od_v lo))
                        _ _ _ _ _ _ _ _ _ _ Ef).
              - apply NextOrder_valid. exact Hv.
              - cbn. lia.
              - cbn. lia.
              - constructor. }
            eapply Forall_impl; [|exact Hb]. cbn. intros c Hc.
            destruct Hfit as [_ Hfit]. lia. }
        unfold display_lateness. destruct (negb _ && _); exact Hd.
    - intros lo lo' Hv Ha. eapply advance_order_valid; eauto.
    - constructor.
    - intros pax fr v od _ Hs. eapply scan_vehicle_valid; eauto. }
  rewrite Forall_forall in H. exact (H d Hin).
Qed.

Lemma terminus_step_elsewhere (v : Vehicle) (first order : OrderRef)
    (s : TermState) (r : loop_step TermState) :
  no_implicit_orders v ->
  valid_ref v order ->
  Forall (fun c => ca_station c <> station) (t_calling_at s) ->
  terminus_step v first order s = Done r ->
  Forall (fun c => ca_station c <> station) (t_calling_at (step_state r)).
Proof.
  intros Hn Hv Hs H.
  assert (Ho : IsType (snd order) OT_IMPLICIT = false).
  { unfold no_implicit_orders in Hn. rewrite Forall_forall in Hn.
    apply Hn. apply valid_ref_In. exact Hv. }
  unfold terminus_step in H. cbv zeta in H.
  unfold is_station_or_implicit in H. rewrite Ho in H.
  rewrite ?orb_false_r in H.
  repeat split_on H; try discriminate;
    inversion H; subst r; clear H; cbn [step_state t_calling_at];
    try exact Hs;
    (apply Forall_app; split; [exact Hs|]; constructor; [|constructor]);
    cbn [ca_station]; intros Heq;
    repeat match goal with
    | E : context [o_dest (snd order) =? station] |- _ =>
        rewrite Heq, Z.eqb_refl in E
    end;
    destruct (IsType (snd order) OT_GOTO_STATION),
      (is_no_unload (snd order)), (departure_show_all_stops cfg),
      (no_stop_here (snd order));
    cbn in *; congruence.
Qed.

(** X17: on a departure board, an entry for a vehicle without implicit
    orders calls nowhere at the station of the board, and does not
    terminate there, whatever the orders of the other vehicles. *)
Theorem calls_elsewhere (G : nat -> option (list Vehicle)) (shown : nat -> bool)
    (show_pax show_freight : bool) (r : list Departure) (d : Departure) :
  type = D_DEPARTURE ->
  MakeDepartureList G shown show_pax show_freight = Done r ->
  In d r ->
  no_implicit_orders (vehicle d) ->
  Forall (fun c => ca_station c <> station) (calling_at d)
  /\ ca_station (terminus d) <> station.
Proof.
  intros Ht E Hin.
  set (ok := fun d : Departure =>
    no_implicit_orders (vehicle d) ->
    Forall (fun c => ca_station c <> station) (calling_at d)
    /\ ca_station (terminus d) <> station).
  assert (H : Forall ok r).
  { revert E.
    apply (MakeDepartureList_inv (Forall ok)
             (fun lo => valid_ref (od_v lo) (od_order lo)) (fun _ => True));
      try apply any_vehicle.
    - intros result lo result' HP Hv _ _ Ha.
      unfold add_entry in Ha. rewrite Ht in Ha. cbn [DepartureType_eqb] in Ha.
      unfold add_departure in Ha. cbv zeta in Ha.
      destruct (find_terminus _ _ _ _ _) as [[found s']|] eqn:Ef;
        cbn [bind fst snd] in Ha; [|discriminate].
      destruct (found && negb _) eqn:Ec; inversion Ha; subst result'; auto.
      apply andb_true_iff in Ec. destruct Ec as [-> _].
      apply Forall_app; split.
      + destruct (departure_smart_terminus cfg && _); [|exact HP].
        unfold smart_terminus_pass. apply Forall_forall.
        intros x Hx. apply in_map_iff in Hx. destruct Hx as (e & <- & He).
        rewrite Forall_forall in HP. specialize (HP e He).
        match goal with
        | |- ok (shorten_terminus ?d0 e) =>
            destruct (shorten_terminus_cases d0 e)
              as (t & -> & Hcase)
        end.
        unfold ok in *. cbn [vehicle set_terminus calling_at terminus].
        intros Hni. destruct (HP Hni) as [P1 P2]. split; [exact P1|].
        destruct Hcase as [->|(j & _ & Hj)]; [exact P2|].
        rewrite Forall_forall in P1. apply P1. eapply nth_error_In; exact Hj.
      + constructor; [|constructor].
        assert (Hd : ok (mkDeparture (scheduled_date (new_departure lo))
                           (lateness (new_departure lo)) (t_terminus s')
                           (t_via s') (t_calling_at s') (status (new_departure lo))
                           (d_type (new_departure lo)) (vehicle (new_departure lo))
                           (d_order (new_departure lo)))).
        { unfold ok. cbn [terminus calling_at vehicle new_departure]. intros Hni.
          assert (Hc : Forall (fun c => ca_station c <> station) (t_calling_at s')).
          { refine (find_terminus_inv (od_v lo) (od_order lo)
                      (fun s => Forall (fun c => ca_station c <> station)
                                  (t_calling_at s))
                      _ _ _ _ _ _ _ _ Ef).
            - intros order s r0 Hvo. apply terminus_step_elsewhere; assumption.
            - apply NextOrder_valid. exact Hv.
            - constructor. }
          apply find_terminus_row in Ef;
            [|cbn; split; [constructor | intros Hn; contradiction]].
          destruct Ef as [[_ Hin'] Hne].
          split; [exact Hc|].
          rewrite Forall_forall in Hc. apply Hc. apply Hin'. exact Hne. }
        unfold display_lateness. destruct (negb _ && _); exact Hd.
    - intros lo lo' Hv Ha. eapply advance_order_valid; eauto.
    - constructor.
    - intros pax fr v od _ Hs. eapply scan_vehicle_valid; eauto. }
  rewrite Forall_forall in H. exact (H d Hin).
Qed.

(** ** The via station and the last calling point *)

Section TerminusKeeps.

Variable v : Vehicle.
Variable first : OrderRef.
Variable I : TermState -> Prop.

Hypothesis step_I : forall order s r,
  I s -> terminus_step v first order s = Done r -> I (step_state r).

Lemma find_terminus_keeps (i : nat) :
  forall order s found s',
    I s -> find_terminus v first i order s = Done (found, s') -> I s'.
Proof.
  induction i as [|i IH]; intros order s found s' Hi H; cbn [find_terminus] in H.
  - inversion H; subst. exact Hi.
  - destruct (terminus_step v first order s) as [r|] eqn:E; cbn [bind] in H;
      [|discriminate].
    pose proof (step_I _ _ _ Hi E) as Hi'.
    destruct r as [b s1|order1 s1]; cbn [step_state] in Hi'.
    + inversion H; subst. exact Hi'.
    + eapply IH; [exact Hi'|exact H].
Qed.

End TerminusKeeps.


Lemma terminus_step_last (v : Vehicle) (first order : OrderRef) (s : TermState)
    (r : loop_step TermState) :
  t_calling_at s = [] \/ (exists l, t_calling_at s = l ++ [t_terminus s]) ->
  terminus_step v first order s = Done r ->
  t_calling_at (step_state r) = []
  \/ (exists l, t_calling_at (step_state r) = l ++ [t_terminus (step_state r)]).
Proof.
  intros Hi H. unfold terminus_step in H. cbv zeta in H.
  repeat split_on H; try discriminate;
    inversion H; subst r; clear H; cbn [step_state t_terminus t_calling_at];
    try exact Hi;
    right; eexists; reflexivity.
Qed.


(** X25: on a departure board whose termini are not shortened (the smart
    terminus is off), the terminus of an entry is the last of the stations
    it calls at, date and all. *)
Theorem terminus_last (G : nat -> option (list Vehicle)) (shown : nat -> bool)
    (show_pax show_freight : bool) (r : list Departure) (d : Departure) :
  type = D_DEPARTURE ->
  departure_smart_terminus cfg = false ->
  MakeDepartureList G shown show_pax show_freight = Done r ->
  In d r ->
  exists l, calling_at d = l ++ [terminus d].
Proof.
  intros Ht Hsm E Hin.
  set (ok := fun d : Departure => exists l, calling_at d = l ++ [terminus d]).
  assert (H : Forall ok r).
  { revert E.
    apply (MakeDepartureList_inv (Forall ok) (fun _ => True) (fun _ => True));
      try apply any_vehicle; auto.
    intros result lo result' HP _ _ _ Ha.
    unfold add_entry in Ha. rewrite Ht in Ha. cbn [DepartureType_eqb] in Ha.
    unfold add_departure in Ha. cbv zeta in Ha. rewrite Hsm in Ha. cbn [andb] in Ha.
    destruct (find_terminus _ _ _ _ _) as [[found s']|] eqn:Ef;
      cbn [bind fst snd] in Ha; [|discriminate].
    destruct (found && negb _) eqn:Ec; inversion Ha; subst result'; auto.
    apply andb_true_iff in Ec. destruct Ec as [-> _].
    apply Forall_app; split; [exact HP|].
    constructor; [|constructor].
    assert (Hd : ok (mkDeparture (scheduled_date (new_departure lo))
                       (lateness (new_departure lo)) (t_terminus s')
                       (t_via s') (t_calling_at s') (status (new_departure lo))
                       (d_type (new_departure lo)) (vehicle (new_departure lo))
                       (d_order (new_departure lo)))).
    { unfold ok. cbn [terminus calling_at].
      assert (Hl : t_calling_at s' = []
                   \/ (exists l, t_calling_at s' = l ++ [t_terminus s'])).
      { refine (find_terminus_keeps (od_v lo) (od_order lo)
                  (fun s => t_calling_at s = []
                            \/ (exists l, t_calling_at s = l ++ [t_terminus s]))
                  _ _ _ _ _ _ _ Ef).
        - intros order s r0. apply terminus_step_last.
        - left. reflexivity. }
      apply find_terminus_row in Ef;
        [|cbn; split; [constructor | intros Hn; contradiction]].
      destruct Ef as [_ Hne]. destruct Hl as [Hl|Hl]; [contradiction | exact Hl]. }
    unfold display_lateness. destruct (negb _ && _); exact Hd. }
  rewrite Forall_forall in H. exact (H d Hin).
Qed.

End Board.

(** * Runs of the model *)

(** C1: an arrival board of station 1 for [shuttle].  The scheduled order
    is first chosen with key 5; advanced over the implicit order it is
    chosen again with key -985, since line 588 moves to the order after the
    implicit one without adding its travel and wait time (lines 167, 580
    and 612 add them).  The entries come out with scheduled dates 7405,
    6415, 7430, 6440, 7455: not in the order of the keys. *)
Theorem arrivals_out_of_order :
  match scan_vehicle ten_days 0 1 D_ARRIVAL false true true shuttle with
  | Done (Some od) =>
      order_key D_ARRIVAL od = 5
      /\ match advance_order ten_days 1 D_ARRIVAL false od with
         | Done od' => order_key D_ARRIVAL od' = -985
         | Undefined => False
         end
  | _ => False
  end
  /\ match MakeDepartureList ten_days 100 0 CallAt_ge_dated 1 D_ARRIVAL false
             (trains [shuttle]) every_type true true with
     | Done r => map scheduled_date r = [7405; 6415; 7430; 6440; 7455]
     | Undefined => False
     end.
Proof. vm_compute. repeat split. Qed.

(** C2 fails as stated: [late_train] is five ticks late and waits a hundred
    ticks, so lines 458-461 leave a lateness of -95 in the entry, and
    [scheduled_date - lateness] is 195 with the horizon at 148. *)
Lemma late_departure_beyond_horizon :
  MakeDepartureList two_days 0 0 CallAt_ge_dated 1 D_DEPARTURE false
    (trains [late_train]) every_type true true = Done [late_entry]
  /\ 0 * DAY_TICKS + max_date two_days < scheduled_date late_entry - lateness late_entry.
Proof. split; vm_compute; reflexivity. Qed.

Lemma scheduled_date_within_horizon_witness :
  scheduled_date late_entry <= 0 * DAY_TICKS + max_date two_days
  /\ scheduled_date late_entry - lateness late_entry
     <= 0 * DAY_TICKS + max_date two_days + GetWaitTime (snd (d_order late_entry))
  /\ (D_DEPARTURE = D_ARRIVAL \/ status late_entry = D_ARRIVED ->
      scheduled_date late_entry - lateness late_entry
      <= 0 * DAY_TICKS + max_date two_days).
Proof.
  apply (scheduled_date_within_horizon two_days 0 0 CallAt_ge_dated 1 D_DEPARTURE false
           (trains [late_train]) every_type true true [late_entry] late_entry).
  - vm_compute. reflexivity.
  - simpl. left. reflexivity.
Defined.

(** C4 fails as stated: with identical departures merged and the smart
    terminus on, the two stopping trains to station 3 end up as equal rows
    (equal in every field but the vehicle).  The terminus of the first is
    shortened to station 2 when the fast train is added, so the second is
    not found equal to it and is added; the train by way of 4 then shortens
    the terminus of the second as well.  The calling points compared by
    [>=] have equal stations and equal dates. *)
Lemma shortened_termini_coincide :
  match MakeDepartureList merging_smart 0 0 CallAt_ge_dated 1 D_DEPARTURE false
          (trains [slow_first; fast; slow_second; roundabout]) every_type true true with
  | Done [a; b; c; d] =>
      vehicle a = slow_first /\ vehicle c = slow_second
      /\ Departure_eqb a c = true
      /\ terminus a = terminus c /\ calling_at a = calling_at c
      /\ scheduled_date a = scheduled_date c
  | _ => False
  end.
Proof. vm_compute. repeat split. Qed.

Lemma merged_rows_distinct_witness :
  exists r a c,
    MakeDepartureList merging_smart 0 0 CallAt_ge_dated
      1 D_ARRIVAL false
      (trains [slow_first; fast; slow_second; roundabout]) every_type true true = Done r
    /\ nth_error r 0 = Some a /\ nth_error r 1 = Some c
    /\ Departure_eqb a c = false.
Proof.
  eexists. eexists. eexists.
  split; [vm_compute; reflexivity|].
  split; [reflexivity|]. split; [reflexivity|].
  eapply (merged_rows_distinct merging_smart 0 0
            CallAt_ge_dated 1 D_ARRIVAL false
            (trains [slow_first; fast; slow_second; roundabout]) every_type true true
            _ 0%nat 1%nat).
  - reflexivity.
  - right. reflexivity.
  - vm_compute. reflexivity.
  - discriminate.
  - reflexivity.
  - reflexivity.
Defined.

(** C5 fails as stated.  From the same order and the same date the scan
    finds the arrival of [shuttle] after its implicit order at date 1005,
    the search run when advancing finds it at date 0.  And at the
    conditional order of [branching], whose branch is taken, neither takes
    off the travel time 7 of the order skipped: both reach the stop at
    station 1 at date 10 = 7 + 3. *)
Lemma searches_differ :
  match first_suitable_order taking_branches 1 D_ARRIVAL false shuttle 4
          (1%nat, implicit_stop 3) 0 D_TRAVELLING,
        next_suitable_order taking_branches 1 D_ARRIVAL false shuttle 0 4
          (1%nat, implicit_stop 3) (0 + (0 + 0)) with
  | Done (Some od), Done (Some o, d) =>
      od_order od = o /\ expected_date od = 1005 /\ d = 0
  | _, _ => False
  end
  /\ match first_suitable_order taking_branches 1 D_DEPARTURE false branching 3
             (O, branch_to 2 7) 0 D_TRAVELLING,
           next_suitable_order taking_branches 1 D_DEPARTURE false branching 0 3
             (O, branch_to 2 7) (0 + (7 + 0)) with
     | Done (Some od), Done (Some o, d) =>
         od_order od = o /\ expected_date od = 10 /\ d = 10
         /\ d <> 0 + (7 + 0) - 7 + (5 + 3)
     | _, _ => False
     end.
Proof. vm_compute. repeat split; discriminate. Qed.

Lemma searches_agree_witness :
  next_suitable_order taking_branches 1 D_DEPARTURE false
    branching (lateness_counter branching) 3 (O, branch_to 2 7)
    (0 + (GetTravelTime (branch_to 2 7) + GetWaitTime (branch_to 2 7)))
  = Done (Some (2%nat, stop_at 1 3 5), 10).
Proof.
  apply (proj1 (searches_agree taking_branches 1 D_DEPARTURE
                  false branching 3 (O, branch_to 2 7) 0 D_TRAVELLING
                  (2%nat, stop_at 1 3 5) 10
                  ltac:(repeat constructor) ltac:(reflexivity)
                  ltac:(vm_compute; discriminate) ltac:(discriminate))).
  eexists. split; [vm_compute; reflexivity|]. split; reflexivity.
Defined.

(** C6: with the branch taken, a conditional order whose target does not
    exist sends each of the three walks through the null pointer: the
    [break] after the test for [NULL] (lines 187-189, 336-338, 569-571)
    leaves the [switch] only, and the next statement reads the type of the
    order.  The board of [plain] alone has five entries; with [lost_branch]
    beside it the run has no defined result. *)
Theorem lost_branch_undefined :
  first_suitable_order taking_branches 1 D_DEPARTURE false lost_branch 3
    (O, branch_to 7 1) 0 D_TRAVELLING = Undefined
  /\ terminus_step taking_branches 1 lost_branch_later (O, stop_at 1 1 10) (1%nat, branch_to 7 1)
       (mkTermState (mkCallAt 0 11) INVALID_STATION INVALID_STATION
          (CallAt1 INVALID_STATION) []) = Undefined
  /\ next_suitable_order taking_branches 1 D_DEPARTURE false lost_branch_later 0 3
       (1%nat, branch_to 7 1) 12 = Undefined
  /\ (exists r,
        MakeDepartureList taking_branches 0 0 CallAt_ge_dated 1 D_DEPARTURE false
          (trains [plain]) every_type true true = Done r
        /\ length r = 5%nat)
  /\ MakeDepartureList taking_branches 0 0 CallAt_ge_dated 1 D_DEPARTURE false
       (trains [plain; lost_branch]) every_type true true = Undefined
  /\ MakeDepartureList taking_branches 0 0 CallAt_ge_dated 1 D_DEPARTURE false
       (trains [plain; lost_branch_later]) every_type true true = Undefined.
Proof.
  repeat split; try (vm_compute; reflexivity).
  eexists. split; vm_compute; reflexivity.
Qed.


(** C8 fails as stated: [non_stop_twice] passes station 2 without stopping
    a second time while station 2 is the potential via station and no via
    station is set; the pass through the loop leaves the via station unset,
    and so does the departure. *)
Lemma non_stop_order_sets_no_via :
  let s := mkTermState (mkCallAt 2 21) 2 INVALID_STATION (CallAt1 INVALID_STATION) [] in
  no_stop_here (pass_through 2 10) = true
  /\ o_dest (pass_through 2 10) = t_candidate_via s
  /\ t_via s = INVALID_STATION
  /\ match terminus_step one_entry 1 non_stop_twice (O, stop_at 1 1 10)
             (2%nat, pass_through 2 10) s with
     | Done r => t_via (step_state r) = INVALID_STATION
     | Undefined => False
     end
  /\ match MakeDepartureList one_entry 0 0 CallAt_ge_dated 1 D_DEPARTURE false
             (trains [non_stop_twice]) every_type true true with
     | Done [d] => via d = INVALID_STATION
     | _ => False
     end.
Proof. vm_compute. repeat split. Qed.

Lemma via_station_rules_witness :
  terminus_step one_entry 1 plain (O, stop_at 1 1 10) (1%nat, stop_at 2 1 10)
    (mkTermState (mkCallAt 2 11) 2 INVALID_STATION (CallAt1 INVALID_STATION) [])
  = Done (Continue (O, stop_at 1 1 10)
            (mkTermState (mkCallAt 2 22) 2 2 (mkCallAt 2 21) [mkCallAt 2 21]))
  /\ t_via (step_state
              (Continue (O, stop_at 1 1 10)
                 (mkTermState (mkCallAt 2 22) 2 2 (mkCallAt 2 21) [mkCallAt 2 21])))
     = o_dest (stop_at 2 1 10).
Proof.
  assert (H : terminus_step one_entry 1 plain (O, stop_at 1 1 10)
                (1%nat, stop_at 2 1 10)
                (mkTermState (mkCallAt 2 11) 2 INVALID_STATION
                   (CallAt1 INVALID_STATION) [])
              = Done (Continue (O, stop_at 1 1 10)
                        (mkTermState (mkCallAt 2 22) 2 2 (mkCallAt 2 21)
                           [mkCallAt 2 21])))
    by (vm_compute; reflexivity).
  split; [exact H|].
  refine (proj2 (proj2 (proj2 (proj2 (via_station_rules _ _ _ _ _ _ _ H)))) _ _ _).
  - discriminate.
  - reflexivity.
  - reflexivity.
Defined.

(** The departures of [shuttle] from station 1, for comparison: they come
    out in the order of their keys, implicit order or not. *)
Lemma shuttle_departures_in_order :
  match MakeDepartureList ten_days 100 0 CallAt_ge_dated 1 D_DEPARTURE false
          (trains [shuttle]) every_type true true with
  | Done r => r <> [] /\ StronglySorted Z.le (map scheduled_date r)
  | Undefined => False
  end.
Proof.
  destruct (MakeDepartureList ten_days 100 0 CallAt_ge_dated 1 D_DEPARTURE false
              (trains [shuttle]) every_type true true) as [r|] eqn:E.
  - split.
    + intros ->. vm_compute in E. discriminate.
    + eapply entries_in_order; [|exact E].
      intros [|i] vehicles H; inversion H; subst; repeat constructor.
      * vm_compute. discriminate.
      * discriminate.
  - vm_compute in E. discriminate.
Qed.

(** * Runs of the further properties *)

Lemma entries_ascending_witness :
  exists r a b,
    MakeDepartureList ten_days 100 0 CallAt_ge_dated 1 D_DEPARTURE false
      (trains [shuttle]) every_type true true = Done r
    /\ nth_error r 0 = Some a /\ nth_error r 1 = Some b
    /\ scheduled_date a <= scheduled_date b /\ scheduled_date b <= INT32_MAX.
Proof.
  eexists. eexists. eexists.
  split; [vm_compute; reflexivity|].
  split; [reflexivity|]. split; [reflexivity|].
  eapply (entries_ascending ten_days 100 0 CallAt_ge_dated 1 D_DEPARTURE false
            (trains [shuttle]) every_type true true) with (i := 0%nat) (j := 1%nat).
  - intros [|i] vehicles H; inversion H; subst; [|constructor].
    constructor; [|constructor]. split; [|discriminate].
    repeat split; vm_compute; discriminate.
  - vm_compute. reflexivity.
  - lia.
  - reflexivity.
  - reflexivity.
Defined.

Lemma no_null_order_witness :
  exists r,
    MakeDepartureList taking_branches 0 0 CallAt_ge_dated 1 D_DEPARTURE false
      (trains [branching]) every_type true true = Done r.
Proof.
  apply (no_null_order taking_branches 0 0 CallAt_ge_dated 1 D_DEPARTURE false
           (trains [branching]) every_type true true).
  intros [|i] vehicles H; inversion H; subst; [|constructor].
  constructor; [|constructor]. split; [discriminate|].
  intros _ x Hin Hc. cbn in Hin.
  destruct Hin as [<-|[<-|[<-|[]]]]; cbn in Hc |- *; try discriminate; lia.
Defined.

Lemma list_failure_empty_witness :
  exists r,
    MakeDepartureList two_entries 0 0 CallAt_ge_dated 1 D_DEPARTURE false
      (no_road_vehicles [plain]) every_type true true = Done r
    /\ r = [].
Proof.
  eexists. split; [vm_compute; reflexivity|].
  apply (list_failure_empty two_entries 0 0 CallAt_ge_dated 1 D_DEPARTURE false
           (no_road_vehicles [plain]) every_type true true [] 1%nat).
  - lia.
  - reflexivity.
  - reflexivity.
  - vm_compute. reflexivity.
Defined.


Lemma entry_vehicles_witness :
  exists r d,
    MakeDepartureList two_entries 0 0 CallAt_ge_dated 1 D_DEPARTURE false
      (trains [slow_second]) every_type true false = Done r
    /\ In d r
    /\ stopped_in_depot (vehicle d) = false
    /\ (true <> false -> carries_passengers (vehicle d) = true).
Proof.
  eexists. eexists.
  split; [vm_compute; reflexivity|].
  split; [left; reflexivity|].
  refine (proj2 (entry_vehicles two_entries 0 0 CallAt_ge_dated 1 D_DEPARTURE false
                   (trains [slow_second]) every_type true false _ _ _ _)).
  - vm_compute. reflexivity.
  - left. reflexivity.
Defined.

Lemma entry_orders_witness :
  exists r d,
    MakeDepartureList two_entries 0 0 CallAt_ge_dated 1 D_DEPARTURE false
      (trains [plain]) every_type true true = Done r
    /\ In d r
    /\ o_dest (snd (d_order d)) = 1.
Proof.
  eexists. eexists.
  split; [vm_compute; reflexivity|].
  split; [left; reflexivity|].
  refine (proj1 (proj2 (proj2 (proj2
            (entry_orders two_entries 0 0 CallAt_ge_dated 1 D_DEPARTURE false
               (trains [plain]) every_type true true _ _ _ _))))).
  - vm_compute. reflexivity.
  - left. reflexivity.
Defined.

Lemma entry_status_witness :
  exists r d,
    MakeDepartureList two_entries 0 0 CallAt_ge_dated 1 D_DEPARTURE false
      (trains [withdrawn]) every_type true true = Done r
    /\ In d r
    /\ status d = D_CANCELLED
    /\ heading_to_halt (vehicle d) = true.
Proof.
  eexists. eexists.
  split; [vm_compute; reflexivity|].
  split; [left; reflexivity|].
  split; [reflexivity|].
  refine (proj1 (entry_status two_entries 0 0 CallAt_ge_dated 1 D_DEPARTURE false
                   (trains [withdrawn]) every_type true true _ _ _ _) _).
  - vm_compute. reflexivity.
  - left. reflexivity.
  - reflexivity.
Defined.

Lemma departure_rows_witness :
  exists r d,
    MakeDepartureList merging_smart 0 0 CallAt_ge_dated 1 D_DEPARTURE false
      (trains [slow_first; fast]) every_type true true = Done r
    /\ In d r
    /\ calling_at d <> []
    /\ NoDup (map ca_station (calling_at d))
    /\ In (terminus d) (calling_at d).
Proof.
  eexists. eexists.
  split; [vm_compute; reflexivity|].
  split; [left; reflexivity|].
  eapply (departure_rows merging_smart 0 0 CallAt_ge_dated 1 D_DEPARTURE false
            (trains [slow_first; fast]) every_type true true).
  - reflexivity.
  - vm_compute. reflexivity.
  - left. reflexivity.
Defined.

Lemma arrival_rows_witness :
  exists r d,
    MakeDepartureList ten_days 100 0 CallAt_ge_dated 1 D_ARRIVAL false
      (trains [shuttle]) every_type true true = Done r
    /\ In d r
    /\ via d = INVALID_STATION
    /\ ca_station (terminus d) <> 1
    /\ ca_scheduled_date (terminus d) = 0
    /\ Forall (fun c => ca_station c <> 1
                        /\ ca_station c <> ca_station (terminus d)
                        /\ ca_scheduled_date c = 0) (calling_at d).
Proof.
  eexists. eexists.
  split; [vm_compute; reflexivity|].
  split; [left; reflexivity|].
  eapply (arrival_rows ten_days 100 0 CallAt_ge_dated 1 D_ARRIVAL false
            (trains [shuttle]) every_type true true).
  - reflexivity.
  - vm_compute. reflexivity.
  - left. reflexivity.
Defined.

Lemma first_least_order_witness :
  exists next_orders least,
    snd (scan_types two_entries 0 1 D_DEPARTURE false
           (trains [slow_first; fast]) every_type true true [0; 1; 2; 3]%nat [] None)
    = Done (Scanned next_orders least)
    /\ first_least D_DEPARTURE next_orders least.
Proof.
  eexists. eexists.
  split; [vm_compute; reflexivity|].
  apply (first_least_order two_entries 0 1 D_DEPARTURE false
           (trains [slow_first; fast]) every_type true true).
  vm_compute. reflexivity.
Defined.

Lemma scanned_order_witness :
  exists od,
    scan_vehicle two_entries 0 1 D_DEPARTURE false true true plain = Done (Some od)
    /\ od_v od = plain
    /\ valid_ref plain (od_order od)
    /\ suitable two_entries 1 D_DEPARTURE false (snd (od_order od)) = true
    /\ od_lateness od = Z.max 0 (lateness_counter plain)
    /\ expected_date od - od_lateness od <= max_date two_entries.
Proof.
  eexists.
  split; [vm_compute; reflexivity|].
  apply (scanned_order two_entries 0 1 D_DEPARTURE false true true plain).
  vm_compute. reflexivity.
Defined.

Lemma advance_order_effect_witness :
  exists lo',
    advance_order two_entries 1 D_DEPARTURE false
      (mkOrderDate (O, stop_at 1 1 10) plain 11 0 D_ARRIVED) = Done lo'
    /\ od_v lo' = plain
    /\ od_lateness lo' = 0
    /\ od_status lo' <> D_ARRIVED
    /\ ((od_order lo' = (O, stop_at 1 1 10) /\ expected_date lo' = INT32_MAX)
        \/ (valid_ref plain (od_order lo')
            /\ suitable two_entries 1 D_DEPARTURE false (snd (od_order lo')) = true
            /\ 11 <= expected_date lo'
            /\ expected_date lo' - od_lateness lo' <= max_date two_entries)).
Proof.
  eexists.
  split; [vm_compute; reflexivity|].
  apply (advance_order_effect two_entries 1 D_DEPARTURE false
           (mkOrderDate (O, stop_at 1 1 10) plain 11 0 D_ARRIVED)).
  - reflexivity.
  - vm_compute. reflexivity.
Defined.


Lemma calling_dates_witness :
  exists r d,
    MakeDepartureList merging_smart 0 0 CallAt_ge_dated 1 D_DEPARTURE false
      (trains [slow_first; fast]) every_type true true = Done r
    /\ In d r
    /\ 0 < scheduled_date d
    /\ StronglySorted Z.le (scheduled_date d :: map ca_scheduled_date (calling_at d))
    /\ Forall (fun c => ca_scheduled_date c <= INT32_MAX) (calling_at d).
Proof.
  eexists. eexists.
  split; [vm_compute; reflexivity|].
  split; [left; reflexivity|].
  split; [vm_compute; reflexivity|].
  eapply (calling_dates merging_smart 0 0 CallAt_ge_dated 1 D_DEPARTURE false
            (trains [slow_first; fast]) every_type true true).
  - reflexivity.
  - vm_compute. reflexivity.
  - left. reflexivity.
  - repeat constructor; left; vm_compute; discriminate.
  - split; vm_compute; discriminate.
  - vm_compute. reflexivity.
Defined.

Lemma calls_elsewhere_witness :
  exists r d,
    MakeDepartureList merging_smart 0 0 CallAt_ge_dated 1 D_DEPARTURE false
      (trains [slow_first; fast]) every_type true true = Done r
    /\ In d r
    /\ Forall (fun c => ca_station c <> 1) (calling_at d)
    /\ ca_station (terminus d) <> 1.
Proof.
  eexists. eexists.
  split; [vm_compute; reflexivity|].
  split; [left; reflexivity|].
  eapply (calls_elsewhere merging_smart 0 0 CallAt_ge_dated 1 D_DEPARTURE false
            (trains [slow_first; fast]) every_type true true).
  - reflexivity.
  - vm_compute. reflexivity.
  - left. reflexivity.
  - repeat constructor.
Defined.


Lemma terminus_last_witness :
  exists r d,
    MakeDepartureList two_entries 0 0 CallAt_ge_dated 1 D_DEPARTURE false
      (trains [plain]) every_type true true = Done r
    /\ In d r
    /\ exists l, calling_at d = l ++ [terminus d].
Proof.
  eexists. eexists.
  split; [vm_compute; reflexivity|].
  split; [left; reflexivity|].
  eapply (terminus_last two_entries 0 0 CallAt_ge_dated 1 D_DEPARTURE false
            (trains [plain]) every_type true true).
  - reflexivity.
  - reflexivity.
  - vm_compute. reflexivity.
  - left. reflexivity.
Defined.

(** * Dates of the script API *)

Section ScriptDateFacts.

Context {calendar : Calendar}.

(** X18: a date that the calendar takes to a year from 0 to [MAX_YEAR], a
    month from 0 to 11 and a day from 1 to 31, and back to itself, is the
    date [GetDate] makes of its [GetYear], [GetMonth] and [GetDayOfMonth]:
    the months of the script count from 1, and none of the three range
    checks of [GetDate] refuses what the three functions return. *)
Theorem date_round_trip (date : Z) :
  0 <= date ->
  0 <= ymd_year (ConvertDateToYMD date) <= MAX_YEAR ->
  0 <= ymd_month (ConvertDateToYMD date) <= 11 ->
  1 <= ymd_day (ConvertDateToYMD date) <= 31 ->
  ConvertYMDToDate (ymd_year (ConvertDateToYMD date))
    (ymd_month (ConvertDateToYMD date)) (ymd_day (ConvertDateToYMD date)) = date ->
  GetDate
    (GetYear date)
    (GetMonth date)
    (GetDayOfMonth date) = date.
Proof.
  intros Hd Hy Hm Hday Hback.
  unfold GetYear, GetMonth, GetDayOfMonth, GetDate.
  assert (E : (date <? 0) = false) by (apply Z.ltb_ge; exact Hd).
  rewrite E.
  set (ymd := ConvertDateToYMD date) in *.
  assert (E1 : (ymd_month ymd + 1 <? 1) || (ymd_month ymd + 1 >? 12) = false).
  { apply orb_false_iff. split; [apply Z.ltb_ge; lia|].
    destruct (Z.gtb_spec (ymd_month ymd + 1) 12); [lia | reflexivity]. }
  assert (E2 : (ymd_day ymd <? 1) || (ymd_day ymd >? 31) = false).
  { apply orb_false_iff. split; [apply Z.ltb_ge; lia|].
    destruct (Z.gtb_spec (ymd_day ymd) 31); [lia | reflexivity]. }
  assert (E3 : (ymd_year ymd <? 0) || (ymd_year ymd >? MAX_YEAR) = false).
  { apply orb_false_iff. split; [apply Z.ltb_ge; lia|].
    destruct (Z.gtb_spec (ymd_year ymd) MAX_YEAR); [lia | reflexivity]. }
  rewrite E1, E2, E3.
  replace (ymd_month ymd + 1 - 1) with (ymd_month ymd) by lia.
  exact Hback.
Qed.

(** X19: a year, a month from 1 to 12 and a day from 1 to 31 that the
    calendar takes to a date that is not negative, and from there back to
    the same year, month and day, are what [GetYear], [GetMonth] and
    [GetDayOfMonth] return for the date [GetDate] makes of them. *)
Theorem year_month_day_round_trip (year month day_of_month : Z) :
  1 <= month <= 12 -> 1 <= day_of_month <= 31 -> 0 <= year <= MAX_YEAR ->
  0 <= ConvertYMDToDate year (month - 1) day_of_month ->
  ConvertDateToYMD (ConvertYMDToDate year (month - 1) day_of_month)
  = mkYearMonthDay year (month - 1) day_of_month ->
  GetYear
    (GetDate year month day_of_month) = year
  /\ GetMonth
       (GetDate year month day_of_month) = month
  /\ GetDayOfMonth
       (GetDate year month day_of_month)
     = day_of_month.
Proof.
  intros Hm Hd Hy Hdate Hback.
  assert (E : GetDate year month day_of_month
              = ConvertYMDToDate year (month - 1) day_of_month).
  { unfold GetDate.
    assert (E1 : (month <? 1) || (month >? 12) = false).
    { apply orb_false_iff. split; [apply Z.ltb_ge; lia|].
      destruct (Z.gtb_spec month 12); [lia | reflexivity]. }
    assert (E2 : (day_of_month <? 1) || (day_of_month >? 31) = false).
    { apply orb_false_iff. split; [apply Z.ltb_ge; lia|].
      destruct (Z.gtb_spec day_of_month 31); [lia | reflexivity]. }
    assert (E3 : (year <? 0) || (year >? MAX_YEAR) = false).
    { apply orb_false_iff. split; [apply Z.ltb_ge; lia|].
      destruct (Z.gtb_spec year MAX_YEAR); [lia | reflexivity]. }
    rewrite E1, E2, E3. reflexivity. }
  rewrite E. unfold GetYear, GetMonth, GetDayOfMonth.
  assert (E0 : (ConvertYMDToDate year (month - 1) day_of_month <? 0) = false)
    by (apply Z.ltb_ge; exact Hdate).
  rewrite E0, Hback. cbn. repeat split; lia.
Qed.

(** X20: with [DATE_INVALID] negative, a month outside 1..12, a day
    outside 1..31 or a year outside 0..[MAX_YEAR] gives a date that
    [IsValidDate] refuses, and of which [GetYear], [GetMonth] and
    [GetDayOfMonth] are [DATE_INVALID] again, whatever the calendar. *)
Theorem invalid_date_stays_invalid (year month day_of_month : Z) :
  DATE_INVALID < 0 ->
  month < 1 \/ 12 < month \/ day_of_month < 1 \/ 31 < day_of_month
  \/ year < 0 \/ MAX_YEAR < year ->
  IsValidDate
    (GetDate year month day_of_month) = false
  /\ GetYear
       (GetDate year month day_of_month)
     = DATE_INVALID
  /\ GetMonth
       (GetDate year month day_of_month)
     = DATE_INVALID
  /\ GetDayOfMonth
       (GetDate year month day_of_month)
     = DATE_INVALID.
Proof.
  intros Hneg Hbad.
  assert (E : GetDate year month day_of_month
              = DATE_INVALID).
  { unfold GetDate.
    destruct (Z.ltb_spec month 1), (Z.gtb_spec month 12),
      (Z.ltb_spec day_of_month 1), (Z.gtb_spec day_of_month 31),
      (Z.ltb_spec year 0), (Z.gtb_spec year MAX_YEAR);
      cbn; try reflexivity; lia. }
  rewrite E. unfold IsValidDate, GetYear, GetMonth, GetDayOfMonth.
  assert (E0 : (DATE_INVALID <? 0) = true) by (apply Z.ltb_lt; exact Hneg).
  rewrite E0. repeat split.
  destruct (Z.geb_spec DATE_INVALID 0); [lia | reflexivity].
Qed.

End ScriptDateFacts.

Lemma date_round_trip_witness :
  @GetDate plain_calendar
    (@GetYear plain_calendar 1000) (@GetMonth plain_calendar 1000)
    (@GetDayOfMonth plain_calendar 1000) = 1000.
Proof.
  apply (@date_round_trip plain_calendar 1000);
    vm_compute; try split; congruence.
Defined.

Lemma year_month_day_round_trip_witness :
  @GetYear plain_calendar (@GetDate plain_calendar 1950 12 31) = 1950
  /\ @GetMonth plain_calendar (@GetDate plain_calendar 1950 12 31) = 12
  /\ @GetDayOfMonth plain_calendar (@GetDate plain_calendar 1950 12 31) = 31.
Proof.
  apply (@year_month_day_round_trip plain_calendar 1950 12 31);
    vm_compute; try split; congruence.
Defined.

Lemma invalid_date_stays_invalid_witness :
  IsValidDate (@GetDate plain_calendar 1950 13 1) = false
  /\ @GetYear plain_calendar (@GetDate plain_calendar 1950 13 1) = -1
  /\ @GetMonth plain_calendar (@GetDate plain_calendar 1950 13 1) = -1
  /\ @GetDayOfMonth plain_calendar (@GetDate plain_calendar 1950 13 1) = -1.
Proof.
  apply (@invalid_date_stays_invalid plain_calendar 1950 13 1).
  - vm_compute. reflexivity.
  - right. left. lia.
Defined.

(** * Houses and towns of a loaded game *)

Lemma nine_bits (x house_id : Z) :
  Z.lor (Z.land (Z.shiftr house_id 0) (Z.ones 8) mod 256)
    (Z.shiftl
       (Z.land
          (Z.shiftr
             (Z.lor (Z.land x (Z.lnot (Z.shiftl (Z.ones 1) 6)))
                (Z.shiftl (Z.land (Z.shiftr house_id 8) (Z.ones 1)) 6)) 6)
          (Z.ones 1)) 8)
  = house_id mod 512.
Proof.
  rewrite Z.shiftr_0_r.
  rewrite (Z.land_ones house_id 8) by lia.
  change (2 ^ 8) with 256. rewrite Z.mod_mod by lia.
  change 256 with (2 ^ 8). rewrite <- (Z.land_ones house_id 8) by lia.
  change 512 with (2 ^ 9). rewrite <- (Z.land_ones house_id 9) by lia.
  apply Z.bits_inj'. intros i Hi.
  rewrite Z.lor_spec, !Z.land_spec, Z.shiftl_spec by lia.
  rewrite !Z.testbit_ones_nonneg by lia.
  destruct (Z.lt_trichotomy i 8) as [Hlt|[->|Hgt]].
  - rewrite (Z.testbit_neg_r _ (i - 8)) by lia.
    replace (i <? 8) with true by (symmetry; apply Z.ltb_lt; lia).
    replace (i <? 9) with true by (symmetry; apply Z.ltb_lt; lia).
    rewrite orb_false_r. reflexivity.
  - change (8 - 8) with 0.
    rewrite Z.land_spec, Z.shiftr_spec, Z.lor_spec, Z.land_spec by lia.
    rewrite Z.lnot_spec, !Z.shiftl_spec by lia.
    rewrite Z.land_spec, Z.shiftr_spec by lia.
    change (0 + 6 - 6 + 8) with 8. change (0 + 6 - 6) with 0. change (0 + 6) with 6.
    change (Z.testbit (Z.ones 1) 0) with true.
    change (8 <? 8) with false. change (8 <? 9) with true.
    destruct (Z.testbit house_id 8), (Z.testbit x 6); reflexivity.
  - rewrite Z.land_spec.
    rewrite (Z.testbit_ones_nonneg 1 (i - 8)) by lia.
    replace (i - 8 <? 1) with false by (symmetry; apply Z.ltb_ge; lia).
    replace (i <? 8) with false by (symmetry; apply Z.ltb_ge; lia).
    replace (i <? 9) with false by (symmetry; apply Z.ltb_ge; lia).
    rewrite !andb_false_r. reflexivity.
Qed.

Lemma bit_six_set (x d i : Z) :
  i <> 6 -> 0 <= d <= 1 ->
  Z.testbit (Z.lor (Z.land x (Z.lnot (Z.shiftl (Z.ones 1) 6))) (Z.shiftl d 6)) i
  = Z.testbit x i.
Proof.
  intros Hi Hd.
  destruct (Z.neg_nonneg_cases i) as [Hneg|Hpos]; [rewrite !Z.testbit_neg_r by lia; reflexivity|].
  rewrite Z.lor_spec, Z.land_spec, Z.lnot_spec, !Z.shiftl_spec by lia.
  assert (E1 : Z.testbit (Z.ones 1) (i - 6) = false).
  { destruct (Z.neg_nonneg_cases (i - 6)); [apply Z.testbit_neg_r; lia|].
    rewrite Z.testbit_ones_nonneg by lia. apply Z.ltb_ge. lia. }
  assert (E2 : Z.testbit d (i - 6) = false).
  { assert (d = 0 \/ d = 1) as [->| ->] by lia; [apply Z.testbit_0_l|].
    exact E1. }
  rewrite E1, E2. cbn. rewrite andb_true_r, orb_false_r. reflexivity.
Qed.

Section TownFacts.

Context {TileRest : Type} {world : HouseMap TileRest}.

Hypothesis GB_bits : forall x s n, GB x s n = Z.land (Z.shiftr x s) (Z.ones n).
Hypothesis SB_bits : forall x s n d,
  SB x s n d = Z.lor (Z.land x (Z.lnot (Z.shiftl (Z.ones n) s))) (Z.shiftl d s).
Hypothesis old_layout : more_houses_missing = true.

(** X21: in the old layout of the map a house type is kept in nine bits.
    What [UpdateHousesAndTowns] writes back for a tile is read by
    [SLGetCleanHouseType] as the house type modulo 512, so unchanged below
    512; the write changes no bit of [m3] but bit 6, nothing else of the
    tile but [m4], and no other tile. *)
Theorem house_type_round_trip (m : Map TileRest) (t : nat) (house_id : Z) :
  SLGetCleanHouseType (store_house_type m t house_id true) t true = house_id mod 512
  /\ (forall i, i <> 6 ->
        Z.testbit (m3 (store_house_type m t house_id true t)) i
        = Z.testbit (m3 (m t)) i)
  /\ tile_rest (store_house_type m t house_id true t) = tile_rest (m t)
  /\ (forall t', t' <> t -> store_house_type m t house_id true t' = m t').
Proof.
  unfold SLGetCleanHouseType, store_house_type, set_tile.
  rewrite old_layout. cbn [andb]. rewrite Nat.eqb_refl. cbn [m3 m4 tile_rest].
  rewrite !GB_bits, SB_bits.
  split; [apply nine_bits|]. split; [|split].
  - intros i Hi. apply bit_six_set; [exact Hi|].
    rewrite Z.land_ones by lia.
    change (2 ^ 1) with 2.
    pose proof (Z.mod_pos_bound (Z.shiftr house_id 8) 2). lia.
  - reflexivity.
  - intros t' Ht. apply Nat.eqb_neq in Ht. rewrite Ht. reflexivity.
Qed.

(** ** Houses whose specifications are gone *)

(** [IsTileType] reads neither [m3] nor [m4]. *)
Hypothesis house_tiles_kept : forall (m : Map TileRest) (t : nat) (x : Tile TileRest),
  tile_rest x = tile_rest (m t) ->
  forall t', IsHouseTile (set_tile m t x) t' = IsHouseTile m t'.

Lemma stored_house_type (m : Map TileRest) (t : nat) (house_id : Z) :
  SLGetCleanHouseType (store_house_type m t house_id true) t true = house_id mod 512.
Proof.
  unfold SLGetCleanHouseType, store_house_type, set_tile.
  rewrite old_layout. cbn [andb]. rewrite Nat.eqb_refl. cbn [m3 m4].
  rewrite !GB_bits, SB_bits. apply nine_bits.
Qed.

Lemma substitute_house_other (st : Map TileRest * bool) (t t' : nat) :
  t' <> t -> fst (substitute_house true st t) t' = fst st t'.
Proof.
  intros Hne. unfold substitute_house. cbv zeta.
  destruct (negb (IsHouseTile (fst st) t)); [reflexivity|].
  destruct (unavailable _); [|reflexivity].
  cbn [fst]. unfold store_house_type, set_tile. rewrite old_layout. cbn [andb].
  apply Nat.eqb_neq in Hne. rewrite Hne. reflexivity.
Qed.

Lemma substitute_house_tiles (st : Map TileRest * bool) (t t' : nat) :
  IsHouseTile (fst (substitute_house true st t)) t' = IsHouseTile (fst st) t'.
Proof.
  unfold substitute_house. cbv zeta.
  destruct (negb (IsHouseTile (fst st) t)); [reflexivity|].
  destruct (unavailable _); [|reflexivity].
  cbn [fst]. unfold store_house_type. rewrite old_layout. cbn [andb].
  apply house_tiles_kept. reflexivity.
Qed.

Lemma house_type_of_tile (m m' : Map TileRest) (t : nat) :
  m' t = m t -> SLGetCleanHouseType m' t true = SLGetCleanHouseType m t true.
Proof.
  intros E. unfold SLGetCleanHouseType. rewrite old_layout. cbn [andb].
  rewrite E. reflexivity.
Qed.

Lemma substitute_house_type (st : Map TileRest * bool) (t : nat) :
  SLGetCleanHouseType (fst (substitute_house true st t)) t true
  = (if IsHouseTile (fst st) t && unavailable (SLGetCleanHouseType (fst st) t true)
     then GetSubstituteID (SLGetCleanHouseType (fst st) t true) mod 512
     else SLGetCleanHouseType (fst st) t true).
Proof.
  unfold substitute_house. cbv zeta.
  destruct (IsHouseTile (fst st) t); cbn [negb andb]; [|reflexivity].
  destruct (unavailable _); [|reflexivity].
  cbn [fst]. apply stored_house_type.
Qed.

Lemma substitute_house_flag (st : Map TileRest * bool) (t : nat) :
  snd (substitute_house true st t)
  = snd st || (IsHouseTile (fst st) t
               && unavailable (SLGetCleanHouseType (fst st) t true)).
Proof.
  unfold substitute_house. cbv zeta.
  destruct (IsHouseTile (fst st) t); cbn [negb andb]; [|rewrite orb_false_r; reflexivity].
  destruct (unavailable _); cbn [snd];
    [rewrite orb_true_r | rewrite orb_false_r]; reflexivity.
Qed.

Lemma existsb_agree (f g : nat -> bool) (l : list nat) :
  (forall t, In t l -> f t = g t) -> existsb f l = existsb g l.
Proof.
  induction l as [|a l IH]; intros H; cbn; [reflexivity|].
  rewrite (H a) by (left; reflexivity).
  rewrite IH by (intros t Ht; apply H; right; exact Ht). reflexivity.
Qed.

Lemma existsb_eqb (t : nat) (l : list nat) :
  existsb (Nat.eqb t) l = false <-> ~ In t l.
Proof.
  split.
  - intros E Hin. assert (existsb (Nat.eqb t) l = true)
      by (apply existsb_exists; exists t; split; [exact Hin | apply Nat.eqb_refl]).
    congruence.
  - intros Hn. destruct (existsb (Nat.eqb t) l) eqn:E; [|reflexivity].
    apply existsb_exists in E. destruct E as (x & Hx & E).
    apply Nat.eqb_eq in E. subst. contradiction.
Qed.

Lemma substitute_tiles (l : list nat) :
  NoDup l ->
  forall st : Map TileRest * bool,
    (forall t, IsHouseTile (fst (fold_left (substitute_house true) l st)) t
               = IsHouseTile (fst st) t)
    /\ (forall t,
          SLGetCleanHouseType (fst (fold_left (substitute_house true) l st)) t true
          = (if existsb (Nat.eqb t) l && IsHouseTile (fst st) t
                && unavailable (SLGetCleanHouseType (fst st) t true)
             then GetSubstituteID (SLGetCleanHouseType (fst st) t true) mod 512
             else SLGetCleanHouseType (fst st) t true))
    /\ snd (fold_left (substitute_house true) l st)
       = snd st || existsb (fun t => IsHouseTile (fst st) t
                                     && unavailable
                                          (SLGetCleanHouseType (fst st) t true)) l
    /\ (forall t, ~ In t l ->
          fst (fold_left (substitute_house true) l st) t = fst st t).
Proof.
  induction 1 as [|a l Ha Hl IH]; intros st; cbn [fold_left].
  - cbn. rewrite orb_false_r. auto.
  - destruct (IH (substitute_house true st a)) as (I1 & I2 & I3 & I4).
    assert (Hother : forall t, t <> a ->
              SLGetCleanHouseType (fst (substitute_house true st a)) t true
              = SLGetCleanHouseType (fst st) t true).
    { intros t Ht. apply house_type_of_tile. apply substitute_house_other. exact Ht. }
    split; [|split; [|split]].
    + intros t. rewrite I1. apply substitute_house_tiles.
    + intros t. rewrite I2. cbn [existsb].
      rewrite substitute_house_tiles.
      destruct (Nat.eqb_spec t a) as [->|Hne].
      * apply existsb_eqb in Ha. rewrite Ha. cbn [andb orb].
        apply substitute_house_type.
      * cbn [orb]. rewrite (Hother t Hne). reflexivity.
    + rewrite I3, substitute_house_flag. cbn [existsb].
      rewrite <- orb_assoc. f_equal. f_equal.
      apply existsb_agree. intros t Ht.
      rewrite substitute_house_tiles, Hother; [reflexivity|].
      intros ->. contradiction.
    + intros t Ht. rewrite I4 by (intros Hin; apply Ht; right; exact Hin).
      apply substitute_house_other. intros ->. apply Ht. left. reflexivity.
Qed.

(** X22: in the old layout of the map, the loop of [UpdateHousesAndTowns]
    over the tiles gives every house tile whose house has no
    specifications any more (an id from [NEW_HOUSE_OFFSET] on that is not
    enabled) the type of the substitute, as far as it fits in nine bits,
    and leaves the type of every other tile; [cargo_update_required] is
    set when there is such a tile and is never reset; the house tiles stay
    the house tiles. *)
Theorem houses_substituted (m : Map TileRest) (cargo_update_required : bool) :
  (forall t,
     SLGetCleanHouseType (fst (substitute_houses m cargo_update_required true)) t true
     = (if (t <? MapSize)%nat && IsHouseTile m t
           && unavailable (SLGetCleanHouseType m t true)
        then GetSubstituteID (SLGetCleanHouseType m t true) mod 512
        else SLGetCleanHouseType m t true))
  /\ snd (substitute_houses m cargo_update_required true)
     = cargo_update_required
       || existsb (fun t => IsHouseTile m t
                            && unavailable (SLGetCleanHouseType m t true))
            (seq 0 MapSize)
  /\ (forall t,
        IsHouseTile (fst (substitute_houses m cargo_update_required true)) t
        = IsHouseTile m t).
Proof.
  unfold substitute_houses.
  destruct (substitute_tiles (seq 0 MapSize) (seq_NoDup MapSize 0)
              (m, cargo_update_required)) as (I1 & I2 & I3 & _).
  cbn [fst snd] in *.
  split; [|split; [exact I3 | exact I1]].
  intros t. rewrite I2.
  replace (existsb (Nat.eqb t) (seq 0 MapSize)) with (t <? MapSize)%nat;
    [reflexivity|].
  destruct (Nat.ltb_spec t MapSize) as [Hlt|Hge]; symmetry.
  - apply existsb_exists. exists t. split; [apply in_seq; lia | apply Nat.eqb_refl].
  - apply existsb_eqb. intros Hin. apply in_seq in Hin. lia.
Qed.

(** ** The caches of the towns *)

Lemma is_town_In (town : nat) : is_town town = true <-> In town towns.
Proof.
  unfold is_town. rewrite existsb_exists. split.
  - intros (x & Hx & E). apply Nat.eqb_eq in E. subst. exact Hx.
  - intros H. exists town. split; [exact H | apply Nat.eqb_refl].
Qed.

Lemma uint32_idem (x : Z) : uint32 (uint32 x) = uint32 x.
Proof. unfold uint32. apply Z.mod_mod. lia. Qed.

Lemma uint32_add (x y : Z) : uint32 (uint32 x + y) = uint32 (x + y).
Proof. unfold uint32. apply Z.add_mod_idemp_l. lia. Qed.

Lemma count_house_town (m : Map TileRest) (old_map_position : bool)
    (c c' : Caches) (t town : nat) :
  count_house m old_map_position c t = Done c' ->
  population (c' town)
  = (if house_of m town t && IsHouseCompleted m t
     then uint32 (population (c town)
                  + house_population
                      (GetTranslatedHouseID
                         (SLGetCleanHouseType m t old_map_position)))
     else population (c town))
  /\ num_houses (c' town)
     = (if house_of m town t
           && (GetHouseNorthPart
                 (GetTranslatedHouseID
                    (SLGetCleanHouseType m t old_map_position)) =? 0)
        then uint32 (num_houses (c town) + 1)
        else num_houses (c town)).
Proof.
  unfold count_house, house_of. cbv zeta.
  destruct (IsHouseTile m t); cbn [negb andb];
    [|intros H; inversion H; subst; auto].
  destruct (is_town (GetByTile m t)); cbn [negb]; [|discriminate].
  intros H. inversion H; subst c'; clear H.
  unfold set_cache.
  destruct (Nat.eqb_spec (GetByTile m t) town) as [->|Hne].
  - destruct (IsHouseCompleted m t), (GetHouseNorthPart _ =? 0);
      cbn; rewrite ?Nat.eqb_refl; cbn; rewrite ?Nat.eqb_refl; cbn; auto.
  - assert (E : (town =? GetByTile m t)%nat = false)
      by (apply Nat.eqb_neq; congruence).
    destruct (IsHouseCompleted m t), (GetHouseNorthPart _ =? 0);
      cbn; rewrite ?E; auto.
Qed.

Lemma count_houses_town (m : Map TileRest) (old_map_position : bool) (town : nat)
    (tiles : list nat) :
  forall c c',
    count_houses m old_map_position tiles c = Done c' ->
    population (c town) = uint32 (population (c town)) ->
    num_houses (c town) = uint32 (num_houses (c town)) ->
    population (c' town)
    = uint32 (population (c town) + town_population m old_map_position town tiles)
    /\ num_houses (c' town)
       = uint32 (num_houses (c town) + town_houses m old_map_position town tiles).
Proof.
  induction tiles as [|t tiles IH]; intros c c' H Hp Hn; cbn [count_houses] in H.
  - inversion H; subst. unfold town_population, town_houses. cbn.
    rewrite !Z.add_0_r. auto.
  - destruct (count_house m old_map_position c t) as [c1|] eqn:E; cbn [bind] in H;
      [|discriminate].
    destruct (count_house_town _ _ _ _ _ town E) as [E1 E2].
    assert (Hp1 : population (c1 town) = uint32 (population (c1 town))).
    { rewrite E1.
      match goal with |- context [if ?b then _ else _] => destruct b end;
        [rewrite uint32_idem; reflexivity | exact Hp]. }
    assert (Hn1 : num_houses (c1 town) = uint32 (num_houses (c1 town))).
    { rewrite E2.
      match goal with |- context [if ?b then _ else _] => destruct b end;
        [rewrite uint32_idem; reflexivity | exact Hn]. }
    destruct (IH c1 c' H Hp1 Hn1) as [I1 I2].
    rewrite I1, I2, E1, E2. unfold town_population, town_houses.
    cbn [filter].
    destruct (house_of m town t && IsHouseCompleted m t);
      destruct (house_of m town t && (GetHouseNorthPart _ =? 0));
      cbn [map fold_right length]; rewrite ?uint32_add, ?Nat2Z.inj_succ;
      split; f_equal; lia.
Qed.

Lemma count_houses_defined (m : Map TileRest) (old_map_position : bool)
    (tiles : list nat) :
  forall c,
    count_houses m old_map_position tiles c <> Undefined
    <-> Forall (fun t => IsHouseTile m t = true -> In (GetByTile m t) towns) tiles.
Proof.
  induction tiles as [|t tiles IH]; intros c; cbn [count_houses].
  - split; [constructor | discriminate].
  - unfold count_house at 1. cbv zeta.
    destruct (IsHouseTile m t) eqn:Eh; cbn [negb bind].
    + destruct (is_town (GetByTile m t)) eqn:Et; cbn [negb bind].
      * rewrite IH. split.
        -- intros H. constructor; [intros _; apply is_town_In; exact Et | exact H].
        -- intros H. inversion H; assumption.
      * split; [intros H; contradiction H; reflexivity|].
        intros H. inversion H as [|? ? H1 H2]; subst.
        specialize (H1 Eh). apply is_town_In in H1. congruence.
    + rewrite IH. split.
      * intros H. constructor; [intros E; congruence | exact H].
      * intros H. inversion H; assumption.
Qed.

(** X23: when every house tile of the map belongs to a town of the pool,
    [RebuildTownCaches] reads through no pointer to no town, and leaves in
    the cache of every town of the pool, whatever the cache held before,
    the inhabitants of the completed house tiles of the town, added up,
    and the number of its house tiles that are the north tile of their
    house, both modulo 2^32. *)
Theorem town_caches_rebuilt (m : Map TileRest) (old_map_position : bool)
    (c : Caches) :
  (forall t, (t < MapSize)%nat -> IsHouseTile m t = true ->
     In (GetByTile m t) towns) ->
  exists c',
    RebuildTownCaches m old_map_position c = Done c'
    /\ forall town, In town towns ->
         population (c' town)
         = uint32 (town_population m old_map_position town (seq 0 MapSize))
         /\ num_houses (c' town)
            = uint32 (town_houses m old_map_position town (seq 0 MapSize)).
Proof.
  intros Hm. unfold RebuildTownCaches.
  destruct (count_houses m old_map_position (seq 0 MapSize) (reset_caches c))
    as [c'|] eqn:E.
  - exists c'. split; [reflexivity|].
    intros town Hin. apply is_town_In in Hin.
    apply (count_houses_town _ _ town) in E;
      unfold reset_caches in *; rewrite Hin in *; cbn in *;
      [exact E | reflexivity | reflexivity].
  - exfalso. revert E. apply count_houses_defined.
    apply Forall_forall. intros t Ht. apply in_seq in Ht. apply Hm. lia.
Qed.

End TownFacts.

Lemma house_type_round_trip_witness :
  @SLGetCleanHouseType _ small_world
    (@store_house_type _ small_world four_tiles 1 300 true) 1 true = 300 mod 512
  /\ (forall i, i <> 6 ->
        Z.testbit (m3 (@store_house_type _ small_world four_tiles 1 300 true 1%nat)) i
        = Z.testbit (m3 (four_tiles 1%nat)) i)
  /\ tile_rest (@store_house_type _ small_world four_tiles 1 300 true 1%nat)
     = tile_rest (four_tiles 1%nat)
  /\ (forall t', t' <> 1%nat ->
        @store_house_type _ small_world four_tiles 1 300 true t' = four_tiles t').
Proof.
  apply (@house_type_round_trip _ small_world).
  - intros x s n. reflexivity.
  - intros x s n d. reflexivity.
  - reflexivity.
Defined.

Lemma houses_substituted_witness :
  (forall t,
     @SLGetCleanHouseType _ small_world
       (fst (@substitute_houses _ small_world four_tiles false true)) t true
     = (if (t <? @MapSize _ small_world)%nat && @IsHouseTile _ small_world four_tiles t
           && @unavailable _ small_world
                (@SLGetCleanHouseType _ small_world four_tiles t true)
        then @GetSubstituteID _ small_world
               (@SLGetCleanHouseType _ small_world four_tiles t true) mod 512
        else @SLGetCleanHouseType _ small_world four_tiles t true))
  /\ snd (@substitute_houses _ small_world four_tiles false true)
     = false
       || existsb (fun t => @IsHouseTile _ small_world four_tiles t
                            && @unavailable _ small_world
                                 (@SLGetCleanHouseType _ small_world four_tiles t true))
            (seq 0 (@MapSize _ small_world))
  /\ (forall t,
        @IsHouseTile _ small_world
          (fst (@substitute_houses _ small_world four_tiles false true)) t
        = @IsHouseTile _ small_world four_tiles t).
Proof.
  apply (@houses_substituted _ small_world).
  - intros x s n. reflexivity.
  - intros x s n d. reflexivity.
  - reflexivity.
  - intros m t x E t'. cbn. unfold set_tile.
    destruct (Nat.eqb_spec t' t) as [->|Hne]; [rewrite E|]; reflexivity.
Defined.

Lemma town_caches_rebuilt_witness :
  exists c',
    @RebuildTownCaches _ small_world four_tiles true (fun _ => mkTownCache 99 99)
    = Done c'
    /\ forall town, In town (@towns _ small_world) ->
         population (c' town)
         = uint32 (@town_population _ small_world four_tiles true town
                     (seq 0 (@MapSize _ small_world)))
         /\ num_houses (c' town)
            = uint32 (@town_houses _ small_world four_tiles true town
                        (seq 0 (@MapSize _ small_world))).
Proof.
  apply (@town_caches_rebuilt _ small_world four_tiles true
           (fun _ => mkTownCache 99 99)).
  intros t _ _. left. reflexivity.
Defined.
